(** * The [components] rollup plugin (src/scripts/rollup/components.js)

    A shallow embedding of the build-time enrichment plugin: the cache-backed
    fetch wrapper [getData], the three fetchers, the merge engine, the batch
    scheduler and the [transform] entry point, followed by the properties the
    specification states about them.

    Conventions of the embedding.
    - A JavaScript value is a tree ([value]); an object is the list of its
      own properties in insertion order. This is the object when its keys
      are ordinary; what the key [__proto__] and the keys that are array
      indices do to a record that [merge] builds is in [Prototypes].
    - A call of an [async] function of the plugin, awaited, is a
      computation that returns or throws: [Throw] is its rejection. The
      promises of the libraries are values ([promise]); [await] turns a
      rejected one into a throw, and a promise that is not awaited is
      dropped.
    - Effects (cache reads and writes, remote calls, console output, build
      warnings) are threaded through a [world] that also records them. *)

From Stdlib Require Import ZArith Ascii String List Bool Lia.
From stdpp Require Import base tactics option list strings pretty gmap.

Local Open Scope string_scope.
Local Open Scope list_scope.

(** ** JavaScript values *)

Module JS.

#[warning="-register-all"]
Inductive value : Type :=
| Undefined
| Null
| Bool (b : bool)
| Num (n : Z)
| Str (s : string)
| Arr (elems : list value)
| Obj (props : list (string * value)).

(** Numbers are the integers: the plugin never computes with the numbers of
    a catalog, it only tests them for truthiness and copies them. *)

Record exn : Type := MkExn { exn_name : string; exn_message : string }.

Definition TypeError (msg : string) : exn := MkExn "TypeError" msg.
Definition SyntaxError (msg : string) : exn := MkExn "SyntaxError" msg.

Inductive result (A : Type) : Type :=
| Ok (a : A)
| Throw (e : exn).
Arguments Ok {A} a.
Arguments Throw {A} e.

Definition bindR {A B} (c : result A) (k : A -> result B) : result B :=
  match c with
  | Ok a => k a
  | Throw e => Throw e
  end.

Notation "'let!' x ':=' c 'in' k" := (bindR c (fun x => k))
  (at level 10, x name, c at level 100, k at level 200).

(** *** Strings *)

(** [s.startsWith(p)] *)
Definition startsWith (p s : string) : bool := String.prefix p s.

(** [s.includes(needle)] *)
Fixpoint includes (needle s : string) : bool :=
  String.prefix needle s ||
  match s with
  | EmptyString => false
  | String _ s' => includes needle s'
  end.

Fixpoint skip_chars (n : nat) (s : string) : string :=
  match n, s with
  | O, _ => s
  | S n', String _ s' => skip_chars n' s'
  | S _, EmptyString => EmptyString
  end.

(** [s.endsWith(p)] *)
Definition endsWith (p s : string) : bool :=
  (String.length p <=? String.length s)%nat &&
  String.eqb (skip_chars (String.length s - String.length p) s) p.

(** [s.replace(pat, rep)] with a string pattern: only the first occurrence
    is replaced. *)
Fixpoint replace (pat rep s : string) : string :=
  if String.prefix pat s then rep +:+ skip_chars (String.length pat) s
  else match s with
       | EmptyString => EmptyString
       | String c s' => String c (replace pat rep s')
       end.

Definition chars (s : string) : list string :=
  map (fun c => String c EmptyString) (list_ascii_of_string s).

(** *** Objects *)

Definition props := list (string * value).

Fixpoint obj_get {V} (o : list (string * V)) (k : string) : option V :=
  match o with
  | [] => None
  | (k', v) :: o' => if String.eqb k k' then Some v else obj_get o' k
  end.

(** [o[k] = v]: an existing property keeps its place, a new one goes last. *)
Fixpoint obj_set {V} (k : string) (v : V) (o : list (string * V))
  : list (string * V) :=
  match o with
  | [] => [(k, v)]
  | (k', v') :: o' =>
      if String.eqb k k' then (k, v) :: o' else (k', v') :: obj_set k v o'
  end.

(** [Object.keys(o)] *)
Definition keys {V} (o : list (string * V)) : list string := map fst o.

(** [ks.includes(k)] on an array of strings *)
Definition keys_include (ks : list string) (k : string) : bool :=
  existsb (String.eqb k) ks.

(** The own enumerable properties of a value, as [Object.assign] and
    [Object.entries] see them: an array and a string expose their indices,
    the other primitives expose nothing. *)
Definition indexed {V} (l : list V) : list (string * V) :=
  imap (fun i x => (pretty i, x)) l.

Definition own_entries (v : value) : props :=
  match v with
  | Obj o => o
  | Arr l => indexed l
  | Str s => indexed (map Str (chars s))
  | _ => []
  end.

(** [Object.keys(v)] and [Object.entries(v)] throw on [null] and
    [undefined]. *)
Definition Object_entries (v : value) : result props :=
  match v with
  | Undefined | Null =>
      Throw (TypeError "Cannot convert undefined or null to object")
  | _ => Ok (own_entries v)
  end.

(** [v.k]: reading a property of [null] or [undefined] throws; a missing
    property reads as [undefined]. Of a string and an array only the
    indexed properties are modelled. *)
Definition get_prop (v : value) (k : string) : result value :=
  match v with
  | Undefined | Null =>
      Throw (TypeError ("Cannot read properties of null (reading '" +:+ k +:+ "')"))
  | _ => Ok (default Undefined (obj_get (own_entries v) k))
  end.

Definition truthy (v : value) : bool :=
  match v with
  | Undefined | Null => false
  | Bool b => b
  | Num n => negb (n =? 0)%Z
  | Str s => negb (String.eqb s "")
  | Arr _ | Obj _ => true
  end.

(** [a || b] *)
Definition or_else (a b : value) : value := if truthy a then a else b.

Definition is_array (v : value) : bool :=
  match v with Arr _ => true | _ => false end.

(** [[...v]]: spreading an array gives its elements, spreading a string its
    characters; nothing else that a JSON document can hold is iterable. *)
Definition spread (v : value) : result (list value) :=
  match v with
  | Arr l => Ok l
  | Str s => Ok (map Str (chars s))
  | _ => Throw (TypeError "object is not iterable")
  end.

Definition is_str (s : string) (v : value) : bool :=
  match v with Str s' => String.eqb s s' | _ => false end.

(** [tag.includes(s)]: the method of a string tests for a substring, the
    method of an array for an element; no other value has it. *)
Definition method_includes (tag : value) (s : string) : result bool :=
  match tag with
  | Str t => Ok (includes s t)
  | Arr l => Ok (existsb (is_str s) l)
  | Undefined | Null =>
      Throw (TypeError "Cannot read properties of undefined (reading 'includes')")
  | _ => Throw (TypeError "tag.includes is not a function")
  end.

(** [l.filter(x => !p(x))] for a predicate that may throw. *)
Fixpoint filter_not (p : value -> result bool) (l : list value)
  : result (list value) :=
  match l with
  | [] => Ok []
  | x :: l' =>
      let! b := p x in
      let! r := filter_not p l' in
      Ok (if b then r else x :: r)
  end.

End JS.
Import JS.

(** ** The merge engine *)

Module Merge.

(** The guard of [merge]. The comparison [value === []] is against an array
    allocated by the comparison itself, so it is [false] for every value. *)
Definition strict_eq_fresh_array (v : value) : bool := false.

Definition skipped (v : value) : bool :=
  match v with
  | Undefined => true
  | Null => true
  | _ => strict_eq_fresh_array v || is_str "" v
  end.

(** [[...(newData.tags || []), ...value].filter(tag => !tag.includes('svelte'))] *)
Definition combined_tags (newData : props) (value : value)
  : result (list JS.value) :=
  let! old := spread (or_else (default Undefined (obj_get newData "tags"))
                              (Arr [])) in
  let! new := spread value in
  filter_not (fun tag => method_includes tag "svelte") (old ++ new).

(** The body of the [forEach] callback, on the record being built. *)
Definition merge_entry (newData : props) (kv : string * value)
  : result props :=
  let '(key, value) := kv in
  if skipped value then Ok newData
  else if negb (keys_include (keys newData) key) then
    Ok (obj_set key value newData)
  else if String.eqb key "tags" && is_array value then
    let! tags := combined_tags newData value in
    Ok (obj_set "tags" (Arr tags) newData)
  else Ok newData.

Fixpoint forEach (entries : props) (newData : props) : result props :=
  match entries with
  | [] => Ok newData
  | kv :: rest =>
      let! newData' := merge_entry newData kv in
      forEach rest newData'
  end.

Definition merge (base additional : value) : result value :=
  let newData := own_entries base in      (* Object.assign({}, base) *)
  let! entries := Object_entries additional in
  let! newData' := forEach entries newData in
  Ok (Obj newData').

(** The tags [merge] keeps. *)
Definition keeps_tag (t : string) : bool := negb (includes "svelte" t).

(** Records whose [tags], where they have them, are arrays of strings, as
    the data model of the catalog has them. *)
Definition string_array (v : value) : bool :=
  match v with
  | Arr l => forallb (fun x => match x with Str _ => true | _ => false end) l
  | _ => false
  end.

Definition tags_typed (o : props) : bool :=
  forallb (fun kv => negb (String.eqb (fst kv) "tags") || string_array (snd kv)) o.

End Merge.
Import Merge.


(** ** Regular expressions

    The fragment of the regular-expression language the plugin uses, with
    the backtracking, greedy, leftmost semantics of [RegExp.prototype.exec].
    A group is numbered when it closes, which agrees with JavaScript for
    patterns without nested groups. *)

Module Regex.

Inductive regex : Type :=
| Lit (s : string)                 (* literal text *)
| Class (p : ascii -> bool)        (* one character of a class *)
| ClassPlus (p : ascii -> bool)    (* [...]+ *)
| Alt (r1 r2 : regex)              (* r1|r2 *)
| Opt (r : regex)                  (* (?:r)? *)
| Seq (r1 r2 : regex)
| Group (r : regex)                (* (r) *)
| Eol.                             (* $ *)

Inductive pattern : Type :=
| Anchored (r : regex)             (* /^r/ *)
| Floating (r : regex).            (* /r/ *)

Infix ">>" := Seq (at level 60, right associativity).

(** The text consumed between [s] and its suffix [rest]. *)
Fixpoint first_chars (n : nat) (s : string) : string :=
  match n, s with
  | S n', String c s' => String c (first_chars n' s')
  | _, _ => EmptyString
  end.

Definition consumed (s rest : string) : string :=
  first_chars (String.length s - String.length rest) s.

Fixpoint plus_class {A} (p : ascii -> bool) (s : string)
    (k : string -> option A) : option A :=
  match s with
  | String c s' =>
      if p c then
        match plus_class p s' k with
        | Some a => Some a
        | None => k s'
        end
      else None
  | EmptyString => None
  end.

Fixpoint rmatch {A} (r : regex) (s : string) (caps : list string)
    (k : string -> list string -> option A) : option A :=
  match r with
  | Lit l =>
      if String.prefix l s then k (skip_chars (String.length l) s) caps else None
  | Class p =>
      match s with
      | String c s' => if p c then k s' caps else None
      | EmptyString => None
      end
  | ClassPlus p => plus_class p s (fun rest => k rest caps)
  | Alt r1 r2 =>
      match rmatch r1 s caps k with
      | Some a => Some a
      | None => rmatch r2 s caps k
      end
  | Opt r' =>
      match rmatch r' s caps k with
      | Some a => Some a
      | None => k s caps
      end
  | Seq r1 r2 => rmatch r1 s caps (fun rest caps' => rmatch r2 rest caps' k)
  | Group r' =>
      rmatch r' s caps (fun rest caps' => k rest (caps' ++ [consumed s rest]))
  | Eol =>
      match s with
      | EmptyString => k s caps
      | String _ _ => None
      end
  end.

(** A match at the head of [s]: the match array (whole match, then the
    groups) and the text after the match. *)
Definition match_here (r : regex) (s : string)
  : option (list string * string) :=
  rmatch r s [] (fun rest caps => Some (consumed s rest :: caps, rest)).

(** The leftmost match: the text before it, the match array, the text
    after it. *)
Fixpoint search (r : regex) (s : string)
  : option (string * list string * string) :=
  match match_here r s with
  | Some (m, rest) => Some (EmptyString, m, rest)
  | None =>
      match s with
      | EmptyString => None
      | String c s' =>
          match search r s' with
          | Some (pre, m, rest) => Some (String c pre, m, rest)
          | None => None
          end
      end
  end.

Definition find (p : pattern) (s : string)
  : option (string * list string * string) :=
  match p with
  | Anchored r =>
      match match_here r s with
      | Some (m, rest) => Some (EmptyString, m, rest)
      | None => None
      end
  | Floating r => search r s
  end.

(** [p.exec(s)]: the match array, or [null]. *)
Definition exec (p : pattern) (s : string) : option (list string) :=
  match find p s with
  | Some (_, m, _) => Some m
  | None => None
  end.

(** [s.replace(p, rep)] for a pattern without the [g] flag and a
    replacement text without [$]. *)
Definition replace_re (p : pattern) (rep s : string) : string :=
  match find p s with
  | Some (pre, _, rest) => pre +:+ rep +:+ rest
  | None => s
  end.

Definition not_slash (c : ascii) : bool := negb (Ascii.eqb c "/").

(** [\d] *)
Definition digit (c : ascii) : bool :=
  (48 <=? nat_of_ascii c)%nat && (nat_of_ascii c <=? 57)%nat.

End Regex.
Import Regex.

(** ** JSON documents

    A JSON text is represented by the document it denotes. [JSON_stringify]
    gives the document [JSON.stringify] prints ([None] where it returns
    [undefined]); [JSON_parse] reads a document back, and throws on
    anything that is not a JSON text. *)

Module Json.

#[warning="-register-all"]
Inductive json : Type :=
| JNull
| JBool (b : bool)
| JNum (n : Z)
| JStr (s : string)
| JArr (elems : list json)
| JObj (members : list (string * json)).

Fixpoint JSON_stringify (v : value) : option json :=
  match v with
  | Undefined => None
  | Null => Some JNull
  | Bool b => Some (JBool b)
  | Num n => Some (JNum n)
  | Str s => Some (JStr s)
  | Arr l =>
      (* undefined elements are printed as null *)
      Some (JArr (map (fun x => default JNull (JSON_stringify x)) l))
  | Obj o =>
      (* undefined members are left out *)
      Some (JObj ((fix members (o : props) : list (string * json) :=
                     match o with
                     | [] => []
                     | (k, x) :: o' =>
                         match JSON_stringify x with
                         | Some j => (k, j) :: members o'
                         | None => members o'
                         end
                     end) o))
  end.

Fixpoint of_json (j : json) : value :=
  match j with
  | JNull => Null
  | JBool b => Bool b
  | JNum n => Num n
  | JStr s => Str s
  | JArr l => Arr (map of_json l)
  | JObj m =>
      Obj ((fix members (m : list (string * json)) : props :=
              match m with
              | [] => []
              | (k, x) :: m' => (k, of_json x) :: members m'
              end) m)
  end.

Definition JSON_parse (text : option json) : result value :=
  match text with
  | Some j => Ok (of_json j)
  | None => Throw (SyntaxError "Unexpected token u in JSON at position 0")
  end.

End Json.
Import Json.

(** [`${v}`]. A text is itself, which is the case of a package name. A
    number is printed as the decimal digits of an integer and an object as
    a plain object is; the exponent of a large number and a [toString] of
    the object's own, which may throw, are not modelled. *)
Fixpoint to_string (v : value) : string :=
  match v with
  | Undefined => "undefined"
  | Null => "null"
  | Bool true => "true"
  | Bool false => "false"
  | Num n => pretty n
  | Str s => s
  | Arr l =>
      (fix join (l : list value) : string :=
         match l with
         | [] => ""
         | [x] => match x with
                  | Undefined | Null => ""
                  | _ => to_string x
                  end
         | x :: l' =>
             match x with
             | Undefined | Null => ""
             | _ => to_string x
             end +:+ "," +:+ join l'
         end) l
  | Obj _ => "[object Object]"
  end.

(** ** The world of the plugin *)

Module World.

(** A cache entry, [{data, key}]. [data] is the text [JSON.stringify]
    returned, [None] when that was [undefined]. *)
Record entry : Type := MkEntry { data : option json; key : string }.

Inductive event : Type :=
| CacheGet (k : string)
| CacheSet (k : string) (e : entry)
| RegistryCall (packageName : value)
| GithubCall (owner repo : string)
| GitlabCall (path : string)
| Stdout (text : string)
| Progress (position total : nat)
| Done
| Warn (message id : string) (position : option Z).

(** The disk cache and the effects performed so far, newest first. *)
Record world : Type := MkWorld { cache : gmap string entry; trace : list event }.

Definition M (A : Type) : Type := world -> result A * world.

Definition ret {A} (a : A) : M A := fun w => (Ok a, w).
Definition throw {A} (e : exn) : M A := fun w => (Throw e, w).
Definition lift {A} (r : result A) : M A := fun w => (r, w).

Definition bind {A B} (c : M A) (k : A -> M B) : M B :=
  fun w =>
    match c w with
    | (Ok a, w') => k a w'
    | (Throw e, w') => (Throw e, w')
    end.

(** [try { c } catch (e) { h e }] *)
Definition try_catch {A} (c : M A) (h : exn -> M A) : M A :=
  fun w =>
    match c w with
    | (Ok a, w') => (Ok a, w')
    | (Throw e, w') => h e w'
    end.

Definition emit (e : event) : M unit :=
  fun w => (Ok tt, MkWorld (cache w) (e :: trace w)).

(** A settled promise of a library, [await p] and [p.catch(h)]. *)
Inductive promise (A : Type) : Type :=
| Fulfilled (a : A)
| Rejected (e : exn).
Arguments Fulfilled {A} a.
Arguments Rejected {A} e.

Definition await {A} (p : promise A) : M A :=
  match p with
  | Fulfilled a => ret a
  | Rejected e => throw e
  end.

Definition promise_catch {A} (p : promise A) (h : exn -> A) : promise A :=
  match p with
  | Fulfilled a => Fulfilled a
  | Rejected e => Fulfilled (h e)
  end.

Notation "x <- c ;; k" := (bind c (fun x => k))
  (at level 100, c at next level, right associativity).
Notation "c ;; k" := (bind c (fun _ => k))
  (at level 100, right associativity).

(** What the plugin is configured with and what surrounds it: the remote
    services, the faults of the disk cache, the file filter of the build,
    the JSON reader of the engine on the catalog text and the JSON plugin
    the result is handed to. A remote call returns a promise. A cache
    fault is a rejection of the promise that [cache.get] or [cache.set]
    returns. The catalog is an array of items. *)
Record env : Type := MkEnv {
  packageJson : value -> promise value;
  github_repos_get : string -> string -> promise value;
  gitlab_show : string -> promise value;
  cache_get_fault : string -> bool;
  cache_set_fault : string -> bool;
  filter : string -> bool;
  parse_catalog : string -> result (list value);
  jsonPlugin_transform : option json -> string -> result value
}.

End World.
Import World.

(** ** The plugin *)

Module Plugin.

Definition chunkSize : nat := 10.

Definition github_url : pattern :=
  Anchored (Alt (Lit "https") (Alt (Lit "ssh") (Lit "git")) >> Lit "://" >>
            Opt (Lit "git@") >> Lit "github.com/" >>
            Group (ClassPlus not_slash) >> Lit "/" >>
            Group (ClassPlus not_slash)).

Definition gitlab_url : pattern :=
  Anchored (Lit "https://gitlab.com/" >>
            Group (ClassPlus not_slash) >> Lit "/" >>
            Group (ClassPlus not_slash)).

(** [data[i]] on the result of [exec]. *)
Definition match_index (data : option (list string)) (i : nat)
  : result string :=
  match data with
  | None =>
      Throw (TypeError ("Cannot read properties of null (reading '"
                        +:+ pretty i +:+ "')"))
  | Some m => Ok (nth i m "")
  end.

(** [parseInt(s, 10)] on a text of decimal digits; [None] is [NaN]. *)
Definition digit_value (c : ascii) : Z := Z.of_nat (nat_of_ascii c - 48).

Fixpoint parse_digits (acc : Z) (s : string) : Z :=
  match s with
  | String c s' =>
      if digit c then parse_digits (10 * acc + digit_value c) s' else acc
  | EmptyString => acc
  end.

Definition parseInt (s : string) : option Z :=
  match s with
  | String c _ => if digit c then Some (parse_digits 0 s) else None
  | EmptyString => None
  end.

(** [Math.ceil(n / chunkSize)] *)
Definition batch_count (n : nat) : nat := (n + (chunkSize - 1)) / chunkSize.

(** [l.slice(from, to)] and [l.splice(start, count, ...items)], the latter
    returning the array it leaves behind. *)
Definition slice {A} (from to : nat) (l : list A) : list A :=
  firstn (to - from) (skipn from l).

Definition splice {A} (start count : nat) (items l : list A) : list A :=
  firstn start l ++ items ++ skipn (start + count) l.

(** The key under which [getData] reads and writes the cache. *)
Definition normalize (cacheKey : string) : string :=
  replace "/" "--SLASH--" (replace "@" "--AT--" cacheKey).

Definition emptyGithub : value :=
  Obj [("stars", Null); ("description", Null); ("title", Null); ("url", Null)].

Definition emptyGitlab : value :=
  Obj [("stars", Null); ("description", Null); ("title", Null); ("url", Null);
       ("tags", Arr [])].

Definition emptyNpm : value :=
  Obj [("description", Null); ("tags", Arr []); ("repo", Null); ("url", Null);
       ("title", Null)].

(** [result.value] of a settled promise: a rejected one has none. *)
Definition settled_value (r : result value) : value :=
  match r with
  | Ok v => v
  | Throw _ => Undefined
  end.

Section WithEnv.

Variable E : env.

(** [cache.get(k)]: the promise of the entry under [k], if any. *)
Definition cache_get (k : string) : M (promise (option entry)) :=
  emit (CacheGet k) ;;
  fun w =>
    if cache_get_fault E k then
      (Ok (Rejected (MkExn "Error" "cache read failed")), w)
    else (Ok (Fulfilled (cache w !! k)), w).

(** [cache.set(k, e)]: a failed write leaves the cache as it was and
    rejects the promise. *)
Definition cache_set (k : string) (e : entry) : M (promise unit) :=
  emit (CacheSet k e) ;;
  fun w =>
    if cache_set_fault E k then
      (Ok (Rejected (MkExn "Error" "cache write failed")), w)
    else (Ok (Fulfilled tt), MkWorld (<[k := e]> (cache w)) (trace w)).

Definition getData (cacheKey : string) (valueGetter : M value) : M value :=
  let cacheKey := normalize cacheKey in
  hit <- try_catch
           (pending <- cache_get cacheKey ;;
            cacheData <- await pending ;;
            match cacheData with
            | Some e => v <- lift (JSON_parse (data e)) ;; ret (Some v)
            | None => ret None
            end)
           (fun _ => ret None) ;;
  match hit with
  | Some v => ret v
  | None =>
      generatedValue <- valueGetter ;;
      (* the promise of the write is not awaited *)
      _ <- cache_set cacheKey
             (MkEntry (JSON_stringify generatedValue) cacheKey) ;;
      ret generatedValue
  end.

(** [s.replace(re, '')] as a method call: only a string has it. *)
Definition method_replace (p : pattern) (v : value) : result string :=
  match v with
  | Str s => Ok (replace_re p "" s)
  | _ => Throw (TypeError "replace is not a function")
  end.

Definition getNpmInfo (packageName : value) : M value :=
  getData ("npm-" +:+ to_string packageName)
    (try_catch
       (emit (RegistryCall packageName) ;;
        npmInfo <- await (packageJson E packageName) ;;
        repository <- lift (get_prop npmInfo "repository") ;;
        url <- (if truthy repository
                then lift (get_prop repository "url")
                else ret repository) ;;
        repo <- lift (method_replace (Anchored (Lit "git+"))
                        (or_else url (Str ""))) ;;
        repo <- lift (method_replace (Floating (Lit ".git" >> Eol))
                        (Str repo)) ;;
        let repo := if String.eqb repo "" then Null else Str repo in
        description <- lift (get_prop npmInfo "description") ;;
        keywords <- lift (get_prop npmInfo "keywords") ;;
        homepage <- lift (get_prop npmInfo "homepage") ;;
        name <- lift (get_prop npmInfo "name") ;;
        ret (Obj [("description", description); ("tags", keywords);
                  ("url", homepage); ("repo", repo); ("title", name)]))
       (fun _ => ret emptyNpm)).

Definition getGithubInfo (url : value) : M value :=
  let emptyResponse := emptyGithub in
  match url with
  | Undefined | Null => ret emptyResponse
  | Str u =>
      if negb (startsWith "https://github.com/" u)
         && negb (startsWith "ssh://git@github.com/" u)
         && negb (startsWith "git://github.com/" u)
      then ret emptyResponse
      else
        let data := exec github_url u in
        owner <- lift (match_index data 1) ;;
        repo <- lift (match_index data 2) ;;
        getData ("github-" +:+ owner +:+ "-" +:+ repo)
          (try_catch
             (emit (GithubCall owner repo) ;;
              githubInfo <-
                await (promise_catch (github_repos_get E owner repo)
                         (fun e =>
                            Obj [("data", Obj [("stargazers_count", Null);
                                               ("description", Null);
                                               ("name", Null);
                                               ("homepage", Null)])])) ;;
              d <- lift (get_prop githubInfo "data") ;;
              stars <- lift (get_prop d "stargazers_count") ;;
              description <- lift (get_prop d "description") ;;
              title <- lift (get_prop d "name") ;;
              url <- lift (get_prop d "homepage") ;;
              ret (Obj [("stars", stars); ("description", description);
                        ("title", title); ("url", url)]))
             (fun _ => ret emptyResponse))
  | _ => throw (TypeError "url.startsWith is not a function")
  end.

Definition getGitlabInfo (url : value) : M value :=
  let emptyResponse := emptyGitlab in
  match url with
  | Undefined | Null => ret emptyResponse
  | Str u =>
      if negb (startsWith "https://gitlab.com/" u) then ret emptyResponse
      else
        let data := exec gitlab_url u in
        owner <- lift (match_index data 1) ;;
        repo <- lift (match_index data 2) ;;
        getData ("gitlab-" +:+ owner +:+ "-" +:+ repo)
          (try_catch
             (emit (GitlabCall (owner +:+ "/" +:+ repo)) ;;
              gitlabInfo <-
                await (promise_catch (gitlab_show E (owner +:+ "/" +:+ repo))
                         (fun e =>
                            Obj [("star_count", Null); ("description", Null);
                                 ("name", Null); ("web_url", Null);
                                 ("tag_list", Arr [])])) ;;
              stars <- lift (get_prop gitlabInfo "star_count") ;;
              description <- lift (get_prop gitlabInfo "description") ;;
              title <- lift (get_prop gitlabInfo "name") ;;
              url <- lift (get_prop gitlabInfo "web_url") ;;
              tags <- lift (get_prop gitlabInfo "tag_list") ;;
              ret (Obj [("stars", stars); ("description", description);
                        ("title", title); ("url", url); ("tags", tags)]))
             (fun _ => ret emptyResponse))
  | _ => throw (TypeError "url.startsWith is not a function")
  end.

(** [writeProgress] where the standard output is a terminal, so that
    [clearLine] and [cursorTo] exist; what it prints is recorded as the
    position and the total. [Terminal.writeProgress] below is the function
    wherever the output goes. *)
Definition writeProgress (position total : nat) : M unit :=
  emit (Progress position total).

(** [item.repo || item.url] *)
Definition repo_or_url (item : value) : M value :=
  repo <- lift (get_prop item "repo") ;;
  if truthy repo then ret repo else lift (get_prop item "url").

Definition updateItem (item : value) : M value :=
  ks <- lift (Object_entries item) ;;
  item <- (if keys_include (keys ks) "npm"
           then npm <- lift (get_prop item "npm") ;;
                info <- getNpmInfo npm ;;
                lift (merge item info)
           else ret item) ;;
  u <- repo_or_url item ;;
  info <- getGithubInfo u ;;
  item <- lift (merge item info) ;;
  u <- repo_or_url item ;;
  info <- getGitlabInfo u ;;
  item <- lift (merge item info) ;;
  ret item.

(** [await Promise.allSettled(tasks)]: every task runs to its end, whether
    it fulfils or rejects. The tasks of a batch are run one after the other
    in the order of the catalog; the interleaving of their awaits is not
    modelled. *)
Fixpoint allSettled (tasks : list (M value)) : M (list (result value)) :=
  match tasks with
  | [] => ret []
  | t :: ts =>
      fun w =>
        let '(r, w') := t w in
        (rs <- allSettled ts ;; ret (r :: rs)) w'
  end.

(** The loop of [transform] over the batches. The bound is read again at
    every turn, as in the source; [fuel] bounds the number of turns. *)
Fixpoint batches (fuel i : nat) (parsed : list value) : M (list value) :=
  match fuel with
  | O => ret parsed
  | S fuel' =>
      if (i <? batch_count (length parsed))%nat then
        let tasks :=
          map updateItem (slice (i * chunkSize) ((i + 1) * chunkSize) parsed) in
        promise <- allSettled tasks ;;
        let parsed :=
          splice (i * chunkSize) chunkSize (map settled_value promise) parsed in
        writeProgress (Nat.min (length parsed) ((i + 1) * chunkSize))
                      (length parsed) ;;
        batches fuel' (S i) parsed
      else ret parsed
  end.

(** [transform(json, id)]; [null] is "no transformation". The duration the
    plugin prints is not modelled, only that it prints it. *)
Definition transform (json id : string) : M value :=
  if negb (endsWith "src/pages/components/components.json" id)
     || negb (filter E id)
  then ret Null
  else
    emit (Stdout "Starting...") ;;
    try_catch
      (parsed <- lift (parse_catalog E json) ;;
       parsed <- batches (batch_count (length parsed)) 0 parsed ;;
       emit Done ;;
       lift (jsonPlugin_transform E (JSON_stringify (Arr parsed)) id))
      (fun err =>
         let message := "Could not parse JSON file" in
         d <- lift (match_index (exec (Floating (Class digit))
                                      (exn_message err)) 0) ;;
         let position := parseInt d in
         emit (Warn message id position) ;;
         ret Null).

End WithEnv.

End Plugin.
Import Plugin.


(** ** Notions the properties are stated with *)

Module Notions.

(** A value without [undefined] anywhere inside. *)
Fixpoint undefined_free (v : value) : bool :=
  match v with
  | Undefined => false
  | Null | Bool _ | Num _ | Str _ => true
  | Arr l => forallb undefined_free l
  | Obj o =>
      (fix members (o : props) : bool :=
         match o with
         | [] => true
         | (_, x) :: o' => undefined_free x && members o'
         end) o
  end.

(** The address forms the hosting fetchers recognise. *)
Definition github_form (u : string) : bool :=
  startsWith "https://github.com/" u
  || startsWith "ssh://git@github.com/" u
  || startsWith "git://github.com/" u.

Definition gitlab_form (u : string) : bool :=
  startsWith "https://gitlab.com/" u.

(** The two hosting platforms, with the fetcher, the address forms and
    the empty record of each. *)
Inductive platform : Type := Github | Gitlab.

Definition form (p : platform) : string -> bool :=
  match p with
  | Github => github_form
  | Gitlab => gitlab_form
  end.

Definition fetcher (E : env) (p : platform) : value -> M value :=
  match p with
  | Github => getGithubInfo E
  | Gitlab => getGitlabInfo E
  end.

Definition emptyResponse (p : platform) : value :=
  match p with
  | Github => emptyGithub
  | Gitlab => emptyGitlab
  end.

Definition url_pattern (p : platform) : pattern :=
  match p with
  | Github => github_url
  | Gitlab => gitlab_url
  end.

(** An absent URL, or a URL of none of the forms. *)
Definition unrecognized (form : string -> bool) (url : value) : Prop :=
  match url with
  | Undefined | Null => True
  | Str u => form u = false
  | _ => False
  end.

(** Realistic names. A registry name is made of lower-case letters,
    digits and [-._~], with an optional scope [@scope/]; an owner or a
    repository of a hosting platform is made of letters, digits and
    [-_.]. *)
Definition lower (c : ascii) : bool :=
  (97 <=? nat_of_ascii c)%nat && (nat_of_ascii c <=? 122)%nat.

Definition upper (c : ascii) : bool :=
  (65 <=? nat_of_ascii c)%nat && (nat_of_ascii c <=? 90)%nat.

Definition one_of (s : string) (c : ascii) : bool :=
  existsb (Ascii.eqb c) (list_ascii_of_string s).

Definition npm_char (c : ascii) : bool :=
  lower c || digit c || one_of "-._~" c.

Definition host_char (c : ascii) : bool :=
  lower c || upper c || digit c || one_of "-_." c.

Fixpoint all_chars (p : ascii -> bool) (s : string) : bool :=
  match s with
  | EmptyString => true
  | String c s' => p c && all_chars p s'
  end.

(** The identifiers the fetchers hand to [getData]. *)
Inductive identifier : string -> Prop :=
| id_npm (name : string) :
    all_chars npm_char name = true ->
    identifier ("npm-" +:+ name)
| id_npm_scoped (scope name : string) :
    all_chars npm_char scope = true ->
    all_chars npm_char name = true ->
    identifier ("npm-" +:+ "@" +:+ scope +:+ "/" +:+ name)
| id_github (owner repo : string) :
    all_chars host_char owner = true ->
    all_chars host_char repo = true ->
    identifier ("github-" +:+ owner +:+ "-" +:+ repo)
| id_gitlab (owner repo : string) :
    all_chars host_char owner = true ->
    all_chars host_char repo = true ->
    identifier ("gitlab-" +:+ owner +:+ "-" +:+ repo).

(** An environment to run the plugin in: the remote services are out of
    reach, the build accepts every file, the JSON plugin hands back the
    document it is given, and the rest is as told. *)
Definition unreachable {A} : promise A :=
  Rejected (MkExn "Error" "unreachable").

Definition offline (catalog : result (list value)) (set_fault : bool) : env :=
  {| packageJson := fun _ => unreachable;
     github_repos_get := fun _ _ => unreachable;
     gitlab_show := fun _ => unreachable;
     cache_get_fault := fun _ => false;
     cache_set_fault := fun _ => set_fault;
     filter := fun _ => true;
     parse_catalog := fun _ => catalog;
     jsonPlugin_transform :=
       fun text _ =>
         match text with
         | Some j => Ok (of_json j)
         | None => Ok Undefined
         end |}.

Definition nothing_yet : world := MkWorld ∅ [].

(** The characters the tokens of [normalize] are recognised by: a text
    without a capital A and a capital S holds neither token. *)
Definition no_A (x : ascii) : bool := negb (Ascii.eqb x "A").
Definition no_S (x : ascii) : bool := negb (Ascii.eqb x "S").
Definition no_token_char (x : ascii) : bool := no_A x && no_S x.
Definition no_at_slash (x : ascii) : bool :=
  negb (Ascii.eqb x "@") && negb (Ascii.eqb x "/").

End Notions.
Import Notions.

(** ** The merge engine on a heap

    Objects and arrays are cells of a heap and values refer to them, so
    that two values may share a cell and an assignment to a property is
    seen through every reference to its object. This is [merge] once more,
    statement by statement, with its allocations, reads and writes. The
    pairs [Object.entries] allocates for the loop are not kept. *)

Module HeapMerge.

Abbreviation loc := nat.

Inductive hvalue : Type :=
| HUndefined
| HNull
| HBool (b : bool)
| HNum (n : Z)
| HStr (s : string)
| HRef (l : loc).

Definition hprops : Type := list (string * hvalue).

Inductive cell : Type :=
| CObj (o : hprops)
| CArr (elems : list hvalue).

(** A new cell goes to the end of the heap: its address is the length the
    heap had. *)
Abbreviation heap := (list cell).

Definition HM (A : Type) : Type := heap -> result A * heap.

Definition hret {A} (a : A) : HM A := fun h => (Ok a, h).
Definition hthrow {A} (e : exn) : HM A := fun h => (Throw e, h).

Definition hbind {A B} (c : HM A) (k : A -> HM B) : HM B :=
  fun h =>
    match c h with
    | (Ok a, h') => k a h'
    | (Throw e, h') => (Throw e, h')
    end.

Notation "x <~ c ;; k" := (hbind c (fun x => k))
  (at level 100, c at next level, right associativity).

Definition alloc (c : cell) : HM loc := fun h => (Ok (length h), h ++ [c]).

(** A reference out of the heap does not arise from the values of a
    program; reading through one is reported as an error of its own. *)
Definition read (l : loc) : HM cell :=
  fun h =>
    match h !! l with
    | Some c => (Ok c, h)
    | None => (Throw (MkExn "ReferenceError" "dangling reference"), h)
    end.

Definition write (l : loc) (c : cell) : HM unit :=
  fun h => (Ok tt, <[l := c]> h).

Definition hvalue_eqb (a b : hvalue) : bool :=
  match a, b with
  | HUndefined, HUndefined => true
  | HNull, HNull => true
  | HBool x, HBool y => Bool.eqb x y
  | HNum x, HNum y => (x =? y)%Z
  | HStr x, HStr y => String.eqb x y
  | HRef x, HRef y => (x =? y)%nat
  | _, _ => false
  end.

Definition own_entries_h (v : hvalue) : HM hprops :=
  match v with
  | HRef l =>
      c <~ read l ;;
      hret (match c with
            | CObj o => o
            | CArr elems => indexed elems
            end)
  | HStr s => hret (indexed (map HStr (chars s)))
  | _ => hret []
  end.

Definition Object_entries_h (v : hvalue) : HM hprops :=
  match v with
  | HUndefined | HNull =>
      hthrow (TypeError "Cannot convert undefined or null to object")
  | _ => own_entries_h v
  end.

(** The properties of the object at [l]. *)
Definition read_obj (l : loc) : HM hprops :=
  c <~ read l ;;
  hret (match c with
        | CObj o => o
        | CArr elems => indexed elems
        end).

Definition truthy_h (v : hvalue) : bool :=
  match v with
  | HUndefined | HNull => false
  | HBool b => b
  | HNum n => negb (n =? 0)%Z
  | HStr s => negb (String.eqb s "")
  | HRef _ => true
  end.

(** [Array.isArray(v)] *)
Definition is_array_h (v : hvalue) : HM bool :=
  match v with
  | HRef l =>
      c <~ read l ;;
      hret (match c with CArr _ => true | CObj _ => false end)
  | _ => hret false
  end.

Definition spread_h (v : hvalue) : HM (list hvalue) :=
  match v with
  | HRef l =>
      c <~ read l ;;
      match c with
      | CArr elems => hret elems
      | CObj _ => hthrow (TypeError "object is not iterable")
      end
  | HStr s => hret (map HStr (chars s))
  | _ => hthrow (TypeError "object is not iterable")
  end.

Definition is_hstr (s : string) (v : hvalue) : bool :=
  match v with HStr s' => String.eqb s s' | _ => false end.

Definition method_includes_h (tag : hvalue) (s : string) : HM bool :=
  match tag with
  | HStr t => hret (includes s t)
  | HRef l =>
      c <~ read l ;;
      match c with
      | CArr elems => hret (existsb (is_hstr s) elems)
      | CObj _ => hthrow (TypeError "tag.includes is not a function")
      end
  | HUndefined | HNull =>
      hthrow (TypeError "Cannot read properties of undefined (reading 'includes')")
  | _ => hthrow (TypeError "tag.includes is not a function")
  end.

Fixpoint filter_not_h (p : hvalue -> HM bool) (l : list hvalue)
  : HM (list hvalue) :=
  match l with
  | [] => hret []
  | x :: l' =>
      b <~ p x ;;
      r <~ filter_not_h p l' ;;
      hret (if b then r else x :: r)
  end.

(** [[...(newData.tags || []), ...value].filter(tag => !tag.includes('svelte'))]:
    the array of the literal and the array [filter] returns are
    allocated, and so is [[]] when the record has no tags. [o] holds the
    properties of the record. *)
Definition combined_tags_h (o : hprops) (value : hvalue) : HM loc :=
  let tags := default HUndefined (obj_get o "tags") in
  tags <~ (if truthy_h tags then hret tags
           else (empty <~ alloc (CArr []) ;; hret (HRef empty))) ;;
  old <~ spread_h tags ;;
  new <~ spread_h value ;;
  _ <~ alloc (CArr (old ++ new)) ;;
  kept <~ filter_not_h (fun tag => method_includes_h tag "svelte")
                       (old ++ new) ;;
  alloc (CArr kept).

(** What [merge] does with an entry whose value is neither [undefined]
    nor [null]. *)
Definition merge_present_h (newData : loc) (key : string) (value : hvalue)
  : HM unit :=
  (* value === []: the array of the comparison is allocated here *)
  fresh <~ alloc (CArr []) ;;
  if hvalue_eqb value (HRef fresh) || is_hstr "" value then hret tt
  else
    o <~ read_obj newData ;;
    if negb (keys_include (keys o) key) then
      write newData (CObj (obj_set key value o))
    else
      isArray <~ (if String.eqb key "tags" then is_array_h value
                  else hret false) ;;
      if isArray then
        filtered <~ combined_tags_h o value ;;
        o <~ read_obj newData ;;
        write newData (CObj (obj_set "tags" (HRef filtered) o))
      else hret tt.

(** The body of the [forEach] callback; [newData] is the address of the
    record being built. *)
Definition merge_entry_h (newData : loc) (kv : string * hvalue) : HM unit :=
  let '(key, value) := kv in
  match value with
  | HUndefined | HNull => hret tt
  | _ => merge_present_h newData key value
  end.

Fixpoint forEach_h (entries : hprops) (newData : loc) : HM unit :=
  match entries with
  | [] => hret tt
  | kv :: rest =>
      _ <~ merge_entry_h newData kv ;;
      forEach_h rest newData
  end.

Definition merge_h (base additional : hvalue) : HM hvalue :=
  newData <~ alloc (CObj []) ;;           (* {} *)
  o <~ own_entries_h base ;;              (* Object.assign({}, base) *)
  _ <~ write newData (CObj o) ;;
  entries <~ Object_entries_h additional ;;
  _ <~ forEach_h entries newData ;;
  hret (HRef newData).

(** The tree a value stands for in a heap, to a given depth. *)
Fixpoint reify (depth : nat) (h : heap) (v : hvalue) : value :=
  match v with
  | HUndefined => Undefined
  | HNull => Null
  | HBool b => Bool b
  | HNum n => Num n
  | HStr s => Str s
  | HRef l =>
      match depth with
      | O => Undefined
      | S d =>
          match h !! l with
          | Some (CObj o) => Obj (map (fun kv => (fst kv, reify d h (snd kv))) o)
          | Some (CArr elems) => Arr (map (reify d h) elems)
          | None => Undefined
          end
      end
  end.

(** A computation is framed by [n] when, run on a heap of at least [n]
    cells, it only adds cells and leaves the first [n] cells as they
    are, whether it returns or throws. *)
Definition framed {A} (n : nat) (c : HM A) : Prop :=
  forall (h h' : heap) (r : result A),
    n <= length h -> c h = (r, h') ->
    length h <= length h' /\ forall l, l < n -> h' !! l = h !! l.

End HeapMerge.
Import HeapMerge.

(** *** The tree of a heap value

    What relates the two embeddings of [merge]: the record [merge_h]
    builds in the heap stands for the tree [merge] returns. *)

Module Abstraction.

Definition reify_props (depth : nat) (h : heap) (o : hprops) : props :=
  map (fun kv => (fst kv, reify depth h (snd kv))) o.

(** A value that refers, if at all, to one of the first [n] cells. *)
Definition val_below (n : nat) (v : hvalue) : Prop :=
  match v with
  | HRef l => l < n
  | _ => True
  end.

Definition cell_values (c : cell) : list hvalue :=
  match c with
  | CObj o => map snd o
  | CArr elems => elems
  end.

(** The first [n] cells exist and refer to one another only. *)
Definition closed_below (n : nat) (h : heap) : Prop :=
  n <= length h
  /\ forall l c, l < n -> h !! l = Some c -> Forall (val_below n) (cell_values c).

(** Two outcomes that agree: both return, related values, or both throw
    the same exception. *)
Definition agree {A B} (R : A -> B -> Prop) (r : result A) (t : result B) : Prop :=
  match r, t with
  | Ok a, Ok b => R a b
  | Throw e, Throw e' => e = e'
  | _, _ => False
  end.

(** A heap that has the cells of [h0] and others after them. *)
Definition extends (h0 h : heap) : Prop :=
  length h0 <= length h /\ forall l, l < length h0 -> h !! l = h0 !! l.

(** The elements [kept] of an array stand for the tags [tags]. *)
Definition kept_as (h0 : heap) (d : nat) (kept : list hvalue)
    (tags : list value) : Prop :=
  tags = map (reify (S d) h0) kept /\ Forall (val_below (length h0)) kept.

(** A value of the record being built: a value of the first [n0] cells, or
    an array the call has allocated, of such values. *)
Definition fresh_array (n0 : nat) (h : heap) (v : hvalue) : Prop :=
  exists l elems,
    v = HRef l /\ n0 < l /\ h !! l = Some (CArr elems)
    /\ Forall (val_below n0) elems.

Definition stable (n0 : nat) (h : heap) (v : hvalue) : Prop :=
  val_below n0 v \/ fresh_array n0 h v.

(** What a step of the call does to the heap: it adds cells, and changes
    no cell but the record being built, which is the cell [n0]. *)
Definition grows (n0 : nat) (h h' : heap) : Prop :=
  length h <= length h'
  /\ forall l, l <> n0 -> l < length h -> h' !! l = h !! l.

(** The record being built is the cell after those of [h0]; [nd] is its
    tree, its properties being read to the depth [d + 2]. *)
Definition inv (h0 : heap) (d : nat) (h : heap) (nd : props) : Prop :=
  extends h0 h /\ length h0 < length h
  /\ exists o, h !! length h0 = Some (CObj o)
       /\ nd = reify_props (S (S d)) h o
       /\ Forall (fun kv => stable (length h0) h (snd kv)) o.

End Abstraction.
Import Abstraction.

(** ** A catalog to run the plugin on *)

Module Sample.

Definition component (n : nat) : value :=
  Obj [("title", Str ("component " +:+ pretty n))].

(** Twelve components. The second names a repository. The fourth links to
    the page of an organisation, which has the address form of GitHub and
    a single path segment. *)
Definition catalog : list value :=
  [component 0;
   Obj [("title", Str "component 1");
        ("repo", Str "https://github.com/sveltejs/svelte")];
   component 2;
   Obj [("title", Str "component 3");
        ("url", Str "https://github.com/sveltejs")]]
  ++ map component [4; 5; 6; 7; 8; 9; 10; 11]%nat.

(** What the loop of [transform] leaves of it when no remote service can
    be reached. *)
Definition enriched (v : value) : value :=
  match v with
  | Obj o => Obj (o ++ [("tags", Arr [])])
  | _ => v
  end.

Definition catalog_after : list value :=
  [enriched (component 0);
   enriched (Obj [("title", Str "component 1");
                  ("repo", Str "https://github.com/sveltejs/svelte")]);
   enriched (component 2);
   Undefined]
  ++ map (fun n => enriched (component n)) [4; 5; 6; 7; 8; 9; 10; 11]%nat.

Definition catalog_id : string :=
  "/site/src/pages/components/components.json".

(** An environment in which the registry and GitHub answer. *)
Definition online : env :=
  {| packageJson := fun _ =>
       Fulfilled
         (Obj [("name", Str "svelte-icons");
               ("description", Str "Icons");
               ("keywords", Arr [Str "svelte"; Str "icons"]);
               ("repository",
                Obj [("type", Str "git");
                     ("url", Str "git+https://github.com/foo/svelte-icons.git")])]);
     github_repos_get := fun _ repo =>
       Fulfilled
         (Obj [("data", Obj [("stargazers_count", Num 42);
                             ("description", Str "Icons for Svelte");
                             ("name", Str repo);
                             ("homepage", Null)])]);
     gitlab_show := fun _ => unreachable;
     cache_get_fault := fun _ => false;
     cache_set_fault := fun _ => false;
     filter := fun _ => true;
     parse_catalog := fun _ => Ok [];
     jsonPlugin_transform := fun _ _ => Ok Null |}.

End Sample.

(** ** The merge engine with prototypes *)

(** [merge] builds its record with [Object.assign({}, base)] and
    [newData[key] = value]. Both assign with the [[Set]] of the language,
    which sees the prototype chain: under the key [__proto__] it finds the
    accessor of [Object.prototype], whose setter changes the prototype of
    the record instead of giving it a property. The own properties of a
    record are enumerated with the array indices first, in ascending
    order, then the other keys in the order of their creation. The
    embedding [Merge.merge] above takes a record for the list of its own
    properties and appends a new one; [merge_p] below is [merge] on records
    that have a prototype. *)

Module Prototypes.

Inductive prototype : Type :=
| ObjectPrototype                  (* Object.prototype *)
| NoPrototype                      (* null *)
| Inherits (v : value).            (* an object or an array of the data *)

Record object : Type := MkObject { proto : prototype; own : props }.

(** An array index: the canonical text of an integer from 0 to 2^32 - 2. *)
Definition array_index (k : string) : option Z :=
  match k with
  | EmptyString => None
  | String c rest =>
      if Notions.all_chars digit k
         && (negb (Ascii.eqb c "0") || String.eqb rest "")
         && (parse_digits 0 k <=? 4294967294)%Z
      then Some (parse_digits 0 k)
      else None
  end.

(** A new own property: an array index goes to its place among the
    indices, which come first; another key goes last. *)
Fixpoint insert_index (n : Z) (k : string) (v : value) (o : props) : props :=
  match o with
  | [] => [(k, v)]
  | (k', v') :: o' =>
      match array_index k' with
      | Some n' =>
          if (n' <? n)%Z then (k', v') :: insert_index n k v o'
          else (k, v) :: o
      | None => (k, v) :: o
      end
  end.

Definition create_property (k : string) (v : value) (o : props) : props :=
  match array_index k with
  | Some n => insert_index n k v o
  | None => o ++ [(k, v)]
  end.

(** Whether a [[Set]] of [__proto__] on a record without such a property
    of its own reaches the accessor of [Object.prototype]: not when the
    chain ends before, and not when an object of the chain has a data
    property of that name, as an object that [JSON.parse] made can. *)
Definition reaches_setter (p : prototype) : bool :=
  match p with
  | ObjectPrototype => true
  | NoPrototype => false
  | Inherits (Obj po) => negb (keys_include (keys po) "__proto__")
  | Inherits _ => true
  end.

(** The setter of [__proto__]: an object or [null] becomes the prototype,
    any other value is ignored. *)
Definition set_prototype (v : value) (p : prototype) : prototype :=
  match v with
  | Obj _ | Arr _ => Inherits v
  | Null => NoPrototype
  | _ => p
  end.

(** [o[k] = v] on an ordinary, extensible object. *)
Definition set_property (k : string) (v : value) (o : object) : object :=
  if keys_include (keys (own o)) k then
    MkObject (proto o) (obj_set k v (own o))
  else if String.eqb k "__proto__" && reaches_setter (proto o) then
    MkObject (set_prototype v (proto o)) (own o)
  else MkObject (proto o) (create_property k v (own o)).

(** [Object.assign(target, source)] *)
Definition assign (target : object) (source : value) : object :=
  fold_left (fun t kv => set_property (fst kv) (snd kv) t)
            (own_entries source) target.

Definition merge_entry_p (newData : object) (kv : string * value)
  : result object :=
  let '(key, value) := kv in
  if skipped value then Ok newData
  else if negb (keys_include (keys (own newData)) key) then
    Ok (set_property key value newData)
  else if String.eqb key "tags" && is_array value then
    (* [tags] is an own property of [newData] here *)
    let! tags := combined_tags (own newData) value in
    Ok (set_property "tags" (Arr tags) newData)
  else Ok newData.

Fixpoint forEach_p (entries : props) (newData : object) : result object :=
  match entries with
  | [] => Ok newData
  | kv :: rest =>
      let! newData' := merge_entry_p newData kv in
      forEach_p rest newData'
  end.

Definition merge_p (base additional : value) : result object :=
  let newData := assign (MkObject ObjectPrototype []) base in
  let! entries := Object_entries additional in
  forEach_p entries newData.

(** A key that is neither [__proto__] nor an array index, and a record of
    such keys. *)
Definition ordinary_key (k : string) : bool :=
  negb (String.eqb k "__proto__")
  && match array_index k with Some _ => false | None => true end.

Definition ordinary (o : props) : bool :=
  forallb (fun kv => ordinary_key (fst kv)) o.

(** A record with a prototype and a list of own properties that read
    alike under every key but [__proto__]. *)
Definition alike (o : object) (nd : props) : Prop :=
  forall k, k <> "__proto__" -> obj_get (own o) k = obj_get nd k.

End Prototypes.
Import Prototypes.

(** ** The transformation and the terminal

    [writeProgress] begins with [process.stdout.clearLine()] and
    [process.stdout.cursorTo(0)], which exist when the standard output is a
    terminal and only then: elsewhere the first of them is [undefined]
    and the call throws. [Plugin.writeProgress], [Plugin.batches] and
    [Plugin.transform] above are the plugin on a terminal; here they are
    again with [isTTY], which tells whether the output is one. *)

Module Terminal.

Section WithOutput.

Variable E : env.
Variable isTTY : bool.               (* process.stdout.isTTY *)

Definition writeProgress (position total : nat) : M unit :=
  if isTTY then emit (Progress position total)
  else throw (TypeError "process.stdout.clearLine is not a function").

Fixpoint batches (fuel i : nat) (parsed : list value) : M (list value) :=
  match fuel with
  | O => ret parsed
  | S fuel' =>
      if (i <? batch_count (length parsed))%nat then
        let tasks :=
          map (updateItem E)
              (slice (i * chunkSize) ((i + 1) * chunkSize) parsed) in
        promise <- allSettled tasks ;;
        let parsed :=
          splice (i * chunkSize) chunkSize (map settled_value promise) parsed in
        writeProgress (Nat.min (length parsed) ((i + 1) * chunkSize))
                      (length parsed) ;;
        batches fuel' (S i) parsed
      else ret parsed
  end.

Definition transform (json id : string) : M value :=
  if negb (endsWith "src/pages/components/components.json" id)
     || negb (filter E id)
  then ret Null
  else
    emit (Stdout "Starting...") ;;
    try_catch
      (parsed <- lift (parse_catalog E json) ;;
       parsed <- batches (batch_count (length parsed)) 0 parsed ;;
       emit Done ;;
       lift (jsonPlugin_transform E (JSON_stringify (Arr parsed)) id))
      (fun err =>
         let message := "Could not parse JSON file" in
         d <- lift (match_index (exec (Floating (Class digit))
                                      (exn_message err)) 0) ;;
         let position := parseInt d in
         emit (Warn message id position) ;;
         ret Null).

End WithOutput.

End Terminal.

(** ** Further notions *)

Module Measures.

(** The key [getData] uses finds nothing it can return: the read fails,
    there is no entry, or the entry holds no JSON text. *)
Definition no_hit (E : env) (w : world) (k : string) : Prop :=
  cache_get_fault E k = true
  \/ cache w !! k = None
  \/ exists e, cache w !! k = Some e /\ data e = None.

(** The progress reports of a trace, oldest first. *)
Definition progress_reports (t : list event) : list (nat * nat) :=
  rev (omap (fun e => match e with
                      | Progress position total => Some (position, total)
                      | _ => None
                      end) t).


(** A path segment of a URL: some characters, none of them a slash. *)
Definition segment (s : string) : bool :=
  negb (String.eqb s "") && all_chars not_slash s.

(** What may follow the second segment: nothing, or a slash and more. *)
Definition path_rest (s : string) : bool :=
  match s with
  | EmptyString => true
  | String c _ => Ascii.eqb c "/"
  end.

(** The beginnings of the addresses a fetcher looks up. *)
Definition prefixes (p : platform) : list string :=
  match p with
  | Github => ["https://github.com/"; "ssh://git@github.com/";
               "git://github.com/"]
  | Gitlab => ["https://gitlab.com/"]
  end.

(** The identifier a fetcher hands to [getData], the request it sends
    and what the remote service answers to it. *)
Definition host_key (p : platform) (owner repo : string) : string :=
  match p with
  | Github => "github-" +:+ owner +:+ "-" +:+ repo
  | Gitlab => "gitlab-" +:+ owner +:+ "-" +:+ repo
  end.

Definition remote_call (p : platform) (owner repo : string) : event :=
  match p with
  | Github => GithubCall owner repo
  | Gitlab => GitlabCall (owner +:+ "/" +:+ repo)
  end.

Definition remote_answer (E : env) (p : platform) (owner repo : string)
  : promise value :=
  match p with
  | Github => github_repos_get E owner repo
  | Gitlab => gitlab_show E (owner +:+ "/" +:+ repo)
  end.

(** An entry of the additional record that gives [merge] a new key, given
    the keys already there. *)
Definition added (present : list string) (kv : string * value) : bool :=
  negb (skipped (snd kv)) && negb (keys_include present (fst kv)).

(** [item.repo || item.url] of a record. *)
Definition address (o : props) : value :=
  or_else (default Undefined (obj_get o "repo"))
          (default Undefined (obj_get o "url")).

(** A record of ordinary keys, each once, that names no source of data:
    no package, and no address a hosting fetcher looks up. Without a [__proto__] key
    its copies have the prototype of [{}], so that [repo] and [url] are
    read from its own properties. *)
Definition source_free (o : props) : Prop :=
  List.NoDup (keys o)
  /\ ordinary o = true
  /\ keys_include (keys o) "npm" = false
  /\ unrecognized github_form (address o)
  /\ unrecognized gitlab_form (address o).

(** The file [transform] is meant for, as its guard has it. *)
Definition is_catalog (E : env) (id : string) : bool :=
  endsWith "src/pages/components/components.json" id && filter E id.

Definition not_at (c : ascii) : bool := negb (Ascii.eqb c "@").

(** The effects of a lookup: reading and writing the cache, asking a
    remote service. *)
Definition remote_event (e : event) : bool :=
  match e with
  | RegistryCall _ | GithubCall _ _ | GitlabCall _ => true
  | _ => false
  end.

Definition lookup_event (e : event) : bool :=
  match e with
  | CacheGet _ | CacheSet _ _ => true
  | _ => remote_event e
  end.

Definition any_event (e : event) : bool := true.

Definition remote_calls (t : list event) : nat :=
  length (List.filter remote_event t).

(** A computation that only adds effects of the class [Q] to the trace,
    at most [n] of them requests to a remote service, whether it returns
    or throws. *)
Definition adds {A} (Q : event -> bool) (n : nat) (c : M A) : Prop :=
  forall w, exists new,
    trace (snd (c w)) = new ++ trace w
    /\ forallb Q new = true
    /\ remote_calls new <= n.

(** The effects of the loop of [transform]: lookups and progress
    reports. *)
Definition loop_event (e : event) : bool :=
  match e with
  | Progress _ _ => true
  | _ => lookup_event e
  end.

(** The progress reports of a catalog of [n] items from the batch [i] on:
    one for each batch, with the number of items done by then. *)
Definition reports_from (i n : nat) : list (nat * nat) :=
  map (fun j => (Nat.min n ((j + 1) * chunkSize), n))
      (seq i (batch_count n - i)).

(** An environment in which GitLab answers too. *)
Definition gitlab_online : env :=
  {| packageJson := packageJson Sample.online;
     github_repos_get := github_repos_get Sample.online;
     gitlab_show := fun path =>
       Fulfilled
         (Obj [("star_count", Num 7);
               ("description", Str "Vector graphics");
               ("name", Str "inkscape");
               ("web_url", Str ("https://gitlab.com/" +:+ path));
               ("tag_list", Arr [Str "svg"])]);
     cache_get_fault := cache_get_fault Sample.online;
     cache_set_fault := cache_set_fault Sample.online;
     filter := filter Sample.online;
     parse_catalog := parse_catalog Sample.online;
     jsonPlugin_transform := jsonPlugin_transform Sample.online |}.

(** An environment in which the catalog is parsed and the JSON plugin
    fails. *)
Definition plugin_fails : env :=
  {| packageJson := packageJson (offline (Ok Sample.catalog) false);
     github_repos_get := github_repos_get (offline (Ok Sample.catalog) false);
     gitlab_show := gitlab_show (offline (Ok Sample.catalog) false);
     cache_get_fault := cache_get_fault (offline (Ok Sample.catalog) false);
     cache_set_fault := cache_set_fault (offline (Ok Sample.catalog) false);
     filter := filter (offline (Ok Sample.catalog) false);
     parse_catalog := parse_catalog (offline (Ok Sample.catalog) false);
     jsonPlugin_transform :=
       fun _ _ => Throw (MkExn "Error" "Could not generate code (E42)") |}.

End Measures.
Import Measures.
(** * Properties *)

(** ** Objects *)

Section ObjectFacts.

Implicit Types (o : props) (k : string) (v : value).

Lemma obj_get_set_same o k v : obj_get (obj_set k v o) k = Some v.
Proof.
  induction o as [|[k' v'] o IH]; simpl.
  - now rewrite String.eqb_refl.
  - destruct (String.eqb k k') eqn:Hk; simpl.
    + now rewrite String.eqb_refl.
    + now rewrite Hk.
Qed.

Lemma obj_get_set_other o k k' v :
  k <> k' -> obj_get (obj_set k v o) k' = obj_get o k'.
Proof.
  intros Hne. induction o as [|[k0 v0] o IH]; simpl.
  - destruct (String.eqb k' k) eqn:Hk; [|reflexivity].
    apply String.eqb_eq in Hk. congruence.
  - destruct (String.eqb k k0) eqn:Hk; simpl.
    + apply String.eqb_eq in Hk. subst k0.
      destruct (String.eqb k' k) eqn:Hk'; [|reflexivity].
      apply String.eqb_eq in Hk'. congruence.
    + now rewrite IH.
Qed.

Lemma keys_include_get o k :
  keys_include (keys o) k = true <-> is_Some (obj_get o k).
Proof.
  unfold keys_include, keys.
  induction o as [|[k' v'] o IH]; simpl.
  - split; [discriminate | intros [? ?]; discriminate].
  - destruct (String.eqb k k'); simpl; [|exact IH].
    split; eauto.
Qed.

Lemma keys_include_get_none o k :
  keys_include (keys o) k = false <-> obj_get o k = None.
Proof.
  rewrite <- not_true_iff_false, keys_include_get.
  rewrite <- eq_None_not_Some. reflexivity.
Qed.

(** A key that is not among the keys of an object is not read from it. *)
Lemma obj_get_not_in o k : ~ In k (keys o) -> obj_get o k = None.
Proof.
  unfold keys.
  induction o as [|[k' v'] o IH]; simpl; [reflexivity|].
  intros Hn. destruct (String.eqb k k') eqn:Hk.
  - apply String.eqb_eq in Hk. subst k'. tauto.
  - apply IH. tauto.
Qed.

End ObjectFacts.

(** ** The merge engine *)

Section MergeFacts.

Implicit Types (newData entries : props) (key : string) (value : JS.value).

Lemma filter_not_strings (l : list string) :
  filter_not (fun tag => method_includes tag "svelte") (map Str l)
  = Ok (map Str (List.filter keeps_tag l)).
Proof.
  induction l as [|t l IH]; simpl; [reflexivity|].
  rewrite IH. simpl. unfold keeps_tag.
  destruct (includes "svelte" t); reflexivity.
Qed.

(** An entry under a key other than [tags] never throws and leaves the
    tags of the record alone. *)
Lemma merge_entry_not_tags newData key value :
  key <> "tags" ->
  exists newData',
    merge_entry newData (key, value) = Ok newData'
    /\ obj_get newData' "tags" = obj_get newData "tags".
Proof.
  intros Hne. unfold merge_entry.
  destruct (skipped value); [eauto|].
  destruct (negb (keys_include (keys newData) key)).
  - eexists; split; [reflexivity|]. now apply obj_get_set_other.
  - destruct (String.eqb key "tags") eqn:Hk.
    + apply String.eqb_eq in Hk. contradiction.
    + simpl. eauto.
Qed.

Lemma forEach_not_tags entries : forall newData,
  ~ In "tags" (keys entries) ->
  exists newData',
    forEach entries newData = Ok newData'
    /\ obj_get newData' "tags" = obj_get newData "tags".
Proof.
  induction entries as [|[key value] entries IH]; intros newData Hn.
  - simpl. eauto.
  - unfold keys in Hn. simpl in Hn.
    destruct (merge_entry_not_tags newData key value) as (nd1 & H1 & G1).
    { intros ->. tauto. }
    destruct (IH nd1) as (nd2 & H2 & G2).
    { unfold keys. tauto. }
    exists nd2. split.
    + change (forEach ((key, value) :: entries) newData)
        with (bindR (merge_entry newData (key, value)) (forEach entries)).
      rewrite H1. exact H2.
    + congruence.
Qed.

(** The entry under [tags], when both sides hold an array of strings. *)
Lemma merge_entry_tags newData (bt at_ : list string) :
  obj_get newData "tags" = Some (Arr (map Str bt)) ->
  merge_entry newData ("tags", Arr (map Str at_))
  = Ok (obj_set "tags"
          (Arr (map Str (List.filter keeps_tag (bt ++ at_)))) newData).
Proof.
  intros Hb. unfold merge_entry.
  assert (Hin : keys_include (keys newData) "tags" = true).
  { apply keys_include_get. rewrite Hb. eauto. }
  simpl skipped. cbv iota. rewrite Hin. simpl negb. cbv iota.
  simpl andb. cbv iota. unfold combined_tags. rewrite Hb. simpl.
  rewrite <- map_app, filter_not_strings. reflexivity.
Qed.

Lemma forEach_tags entries (bt at_ : list string) : forall newData,
  List.NoDup (keys entries) ->
  obj_get entries "tags" = Some (Arr (map Str at_)) ->
  obj_get newData "tags" = Some (Arr (map Str bt)) ->
  exists newData',
    forEach entries newData = Ok newData'
    /\ obj_get newData' "tags"
       = Some (Arr (map Str (List.filter keeps_tag (bt ++ at_)))).
Proof.
  induction entries as [|[key value] entries IH]; intros newData Hnd Ha Hb.
  - discriminate.
  - unfold keys in Hnd. simpl in Hnd. apply NoDup_cons_iff in Hnd.
    destruct Hnd as [Hfresh Hnd].
    change (forEach ((key, value) :: entries) newData)
      with (bindR (merge_entry newData (key, value)) (forEach entries)).
    cbn [obj_get] in Ha. destruct (String.eqb "tags" key) eqn:Hk.
    + apply String.eqb_eq in Hk. subst key. injection Ha as ->.
      rewrite (merge_entry_tags newData bt at_ Hb). simpl.
      destruct (forEach_not_tags entries
                  (obj_set "tags"
                     (Arr (map Str (List.filter keeps_tag (bt ++ at_))))
                     newData) Hfresh) as (nd2 & H2 & G2).
      exists nd2. split; [exact H2|].
      rewrite G2. apply obj_get_set_same.
    + assert (Hne : key <> "tags").
      { intros ->. now rewrite String.eqb_refl in Hk. }
      destruct (merge_entry_not_tags newData key value Hne) as (nd1 & H1 & G1).
      rewrite H1. simpl. apply IH; [exact Hnd | exact Ha | congruence].
Qed.

(** An entry leaves every property other than [tags] that the record
    already has as it is. *)
Lemma merge_entry_keeps newData key value newData' k :
  merge_entry newData (key, value) = Ok newData' ->
  k <> "tags" -> is_Some (obj_get newData k) ->
  obj_get newData' k = obj_get newData k.
Proof.
  unfold merge_entry. intros H Hk Hin.
  destruct (skipped value); [congruence|].
  destruct (keys_include (keys newData) key) eqn:Hkey; simpl in H.
  - destruct (String.eqb key "tags" && is_array value); [|congruence].
    destruct (combined_tags newData value); simpl in H; [|discriminate].
    injection H as <-. apply obj_get_set_other. congruence.
  - injection H as <-. apply obj_get_set_other.
    intros ->. apply keys_include_get_none in Hkey.
    rewrite Hkey in Hin. destruct Hin; discriminate.
Qed.

Lemma forEach_keeps entries k : forall newData newData',
  forEach entries newData = Ok newData' ->
  k <> "tags" -> is_Some (obj_get newData k) ->
  obj_get newData' k = obj_get newData k.
Proof.
  induction entries as [|[key value] entries IH]; intros newData newData' H Hk Hin.
  - simpl in H. congruence.
  - change (forEach ((key, value) :: entries) newData)
      with (bindR (merge_entry newData (key, value)) (forEach entries)) in H.
    destruct (merge_entry newData (key, value)) as [nd1|] eqn:H1;
      simpl in H; [|discriminate].
    pose proof (merge_entry_keeps _ _ _ _ k H1 Hk Hin) as G1.
    rewrite (IH nd1 newData' H Hk); [exact G1|].
    rewrite G1. exact Hin.
Qed.

Lemma string_array_strings v :
  string_array v = true -> exists l, v = Arr (map Str l).
Proof.
  destruct v as [| | | | |l|]; try discriminate. simpl. intros H.
  induction l as [|x l IH]; [exists []; reflexivity|].
  simpl in H. apply andb_prop in H. destruct H as [Hx Hl].
  destruct x; try discriminate.
  destruct (IH Hl) as [l' E]. injection E as ->.
  now exists (s :: l').
Qed.

Lemma strings_string_array (l : list string) :
  string_array (Arr (map Str l)) = true.
Proof. induction l; simpl; auto. Qed.

Lemma tags_typed_get o v :
  tags_typed o = true -> obj_get o "tags" = Some v -> string_array v = true.
Proof.
  induction o as [|[k x] o IH]; [discriminate|].
  unfold tags_typed. cbn [forallb obj_get fst snd].
  intros H Hg. apply andb_prop in H. destruct H as [Hx Ho].
  rewrite (String.eqb_sym k) in Hx.
  destruct (String.eqb "tags" k); [|exact (IH Ho Hg)].
  injection Hg as <-. exact Hx.
Qed.

Lemma tags_typed_set o k v :
  tags_typed o = true -> (k = "tags" -> string_array v = true) ->
  tags_typed (obj_set k v o) = true.
Proof.
  intros Ho Hv.
  assert (Hkv : negb (String.eqb k "tags") || string_array v = true).
  { destruct (String.eqb k "tags") eqn:Hk; [|reflexivity].
    apply String.eqb_eq in Hk. simpl. auto. }
  induction o as [|[k' x] o IH]; unfold tags_typed in *;
    cbn [obj_set forallb fst snd] in *.
  - now rewrite Hkv.
  - apply andb_prop in Ho. destruct Ho as [Hx Ho].
    destruct (String.eqb k k'); cbn [forallb fst snd].
    + now rewrite Hkv, Ho.
    + now rewrite Hx, IH.
Qed.

Lemma merge_entry_typed newData key value :
  tags_typed newData = true -> (key = "tags" -> string_array value = true) ->
  exists newData',
    merge_entry newData (key, value) = Ok newData'
    /\ tags_typed newData' = true.
Proof.
  intros Hnd Hv. unfold merge_entry.
  destruct (skipped value); [eauto|].
  destruct (keys_include (keys newData) key) eqn:Hin; cbn [negb].
  - destruct (String.eqb key "tags") eqn:Hk; [|simpl; eauto].
    apply String.eqb_eq in Hk. subst key.
    destruct (string_array_strings value (Hv eq_refl)) as [at_ ->].
    apply keys_include_get in Hin. destruct Hin as [old Hold].
    destruct (string_array_strings old (tags_typed_get _ _ Hnd Hold))
      as [bt ->].
    pose proof (merge_entry_tags newData bt at_ Hold) as H.
    unfold merge_entry in H. cbn [skipped] in H.
    eexists. split.
    + assert (Hin : keys_include (keys newData) "tags" = true).
      { apply keys_include_get. rewrite Hold. eauto. }
      rewrite Hin in H. exact H.
    + apply tags_typed_set; [exact Hnd|]. intros _. apply strings_string_array.
  - eexists. split; [reflexivity|]. now apply tags_typed_set.
Qed.

Lemma forEach_typed entries : forall newData,
  tags_typed newData = true -> tags_typed entries = true ->
  exists newData', forEach entries newData = Ok newData'.
Proof.
  induction entries as [|[key value] entries IH]; intros newData Hnd He.
  - simpl. eauto.
  - unfold tags_typed in He. cbn [forallb fst snd] in He.
    apply andb_prop in He. destruct He as [Hkv He].
    destruct (merge_entry_typed newData key value Hnd) as (nd1 & H1 & T1).
    { intros ->. exact Hkv. }
    change (forEach ((key, value) :: entries) newData)
      with (bindR (merge_entry newData (key, value)) (forEach entries)).
    rewrite H1. simpl. now apply IH.
Qed.

(** ** C6 and C7 *)

(** C6. When base and additional both hold an array of strings under
    [tags], [merge] returns a record whose tags are the tags of base
    followed by the tags of additional, without the tags that contain
    "svelte" and otherwise in that order. *)
Theorem merge_tags_concat_filter (base additional : props) (bt at_ : list string) :
  obj_get base "tags" = Some (Arr (map Str bt)) ->
  obj_get additional "tags" = Some (Arr (map Str at_)) ->
  List.NoDup (keys additional) ->
  exists newData,
    merge (Obj base) (Obj additional) = Ok (Obj newData)
    /\ obj_get newData "tags"
       = Some (Arr (map Str (List.filter keeps_tag (bt ++ at_)))).
Proof.
  intros Hb Ha Hnd. unfold merge. cbn [Object_entries own_entries bindR].
  destruct (forEach_tags additional bt at_ base Hnd Ha Hb) as (nd & H & G).
  exists nd. rewrite H. split; [reflexivity | exact G].
Qed.

Lemma merge_tags_concat_filter_witness :
  (obj_get [("tags", Arr [Str "ui"; Str "svelte-icons"])] "tags"
   = Some (Arr (map Str ["ui"; "svelte-icons"]))
   /\ obj_get [("tags", Arr [Str "framework"; Str "svelte"])] "tags"
      = Some (Arr (map Str ["framework"; "svelte"]))
   /\ List.NoDup (keys [("tags", Arr [Str "framework"; Str "svelte"])]))
  /\ exists newData,
       merge (Obj [("tags", Arr [Str "ui"; Str "svelte-icons"])])
             (Obj [("tags", Arr [Str "framework"; Str "svelte"])])
       = Ok (Obj newData)
       /\ obj_get newData "tags" = Some (Arr [Str "ui"; Str "framework"]).
Proof.
  assert (Hnd : List.NoDup (keys [("tags", Arr [Str "framework"; Str "svelte"])])).
  { repeat constructor. simpl. tauto. }
  split; [split; [reflexivity | split; [reflexivity | exact Hnd]]|].
  exact (merge_tags_concat_filter
           [("tags", Arr [Str "ui"; Str "svelte-icons"])]
           [("tags", Arr [Str "framework"; Str "svelte"])]
           ["ui"; "svelte-icons"] ["framework"; "svelte"]
           eq_refl eq_refl Hnd).
Defined.

End MergeFacts.

(** ** The merge engine with prototypes *)

Section PrototypeFacts.

Implicit Types (o : object) (nd : props) (k key : string) (v : value).

Lemma insert_index_get n k v (l : props) k' :
  obj_get l k = None ->
  obj_get (insert_index n k v l) k'
  = if String.eqb k' k then Some v else obj_get l k'.
Proof.
  induction l as [|[k0 v0] l IH]; intros Hnone; cbn [insert_index obj_get].
  - reflexivity.
  - cbn [obj_get] in Hnone. destruct (String.eqb k k0) eqn:Hk0; [discriminate|].
    assert (Hhead : obj_get ((k, v) :: (k0, v0) :: l) k'
                    = if String.eqb k' k then Some v
                      else if String.eqb k' k0 then Some v0 else obj_get l k')
      by reflexivity.
    destruct (array_index k0) as [n'|]; [|exact Hhead].
    destruct (n' <? n)%Z; [|exact Hhead].
    cbn [obj_get]. rewrite (IH Hnone).
    destruct (String.eqb k' k0) eqn:Hk'; [|reflexivity].
    apply String.eqb_eq in Hk'. subst k'.
    rewrite String.eqb_sym, Hk0. reflexivity.
Qed.

Lemma obj_get_app_one (l : props) k v k' :
  obj_get (l ++ [(k, v)]) k'
  = match obj_get l k' with
    | Some x => Some x
    | None => if String.eqb k' k then Some v else None
    end.
Proof.
  induction l as [|[k0 v0] l IH]; cbn [app obj_get]; [reflexivity|].
  now destruct (String.eqb k' k0).
Qed.

Lemma create_property_get k v (l : props) k' :
  obj_get l k = None ->
  obj_get (create_property k v l) k'
  = if String.eqb k' k then Some v else obj_get l k'.
Proof.
  intros Hnone. unfold create_property.
  destruct (array_index k) as [n|]; [now apply insert_index_get|].
  rewrite obj_get_app_one. destruct (String.eqb k' k) eqn:Hk.
  - apply String.eqb_eq in Hk. subst k'. now rewrite Hnone.
  - now destruct (obj_get l k').
Qed.

(** An assignment leaves the own properties under the other keys. *)
Lemma set_property_other k v o k' :
  k' <> k -> obj_get (own (set_property k v o)) k' = obj_get (own o) k'.
Proof.
  intros Hne. unfold set_property.
  destruct (keys_include (keys (own o)) k) eqn:Hin; cbn [own].
  - apply obj_get_set_other. congruence.
  - destruct (String.eqb k "__proto__" && reaches_setter (proto o));
      cbn [own]; [reflexivity|].
    rewrite create_property_get by now apply keys_include_get_none.
    apply String.eqb_neq in Hne. now rewrite Hne.
Qed.

(** Under a key other than [__proto__] an assignment gives the record an
    own property with the value. *)
Lemma set_property_same k v o :
  k <> "__proto__" -> obj_get (own (set_property k v o)) k = Some v.
Proof.
  intros Hne. unfold set_property.
  destruct (keys_include (keys (own o)) k) eqn:Hin; cbn [own].
  - apply obj_get_set_same.
  - apply String.eqb_neq in Hne. rewrite Hne. cbn [andb own].
    rewrite create_property_get by now apply keys_include_get_none.
    now rewrite String.eqb_refl.
Qed.

Lemma alike_keys_include o nd k :
  alike o nd -> k <> "__proto__" ->
  keys_include (keys (own o)) k = keys_include (keys nd) k.
Proof.
  intros Ha Hk. specialize (Ha k Hk).
  destruct (keys_include (keys nd) k) eqn:Hnd.
  - apply keys_include_get. rewrite Ha. now apply keys_include_get.
  - apply keys_include_get_none. rewrite Ha.
    now apply keys_include_get_none.
Qed.

Lemma alike_set o nd k v :
  alike o nd -> alike (set_property k v o) (obj_set k v nd).
Proof.
  intros Ha k' Hk'. destruct (String.eqb k' k) eqn:Hk.
  - apply String.eqb_eq in Hk. subst k'.
    now rewrite set_property_same, obj_get_set_same.
  - apply String.eqb_neq in Hk.
    rewrite set_property_other by exact Hk.
    rewrite obj_get_set_other by congruence. now apply Ha.
Qed.

Lemma alike_set_proto o nd v :
  alike o nd -> alike (set_property "__proto__" v o) nd.
Proof.
  intros Ha k Hk. rewrite set_property_other by exact Hk. now apply Ha.
Qed.

Lemma alike_set_proto_r o nd v :
  alike o nd -> alike o (obj_set "__proto__" v nd).
Proof.
  intros Ha k Hk. rewrite obj_get_set_other by congruence. now apply Ha.
Qed.

Lemma merge_entry_alike o nd key value :
  alike o nd ->
  agree alike (merge_entry_p o (key, value)) (merge_entry nd (key, value)).
Proof.
  intros Ha. unfold merge_entry_p, merge_entry.
  destruct (skipped value); [exact Ha|].
  destruct (String.eqb key "__proto__") eqn:Hp.
  - apply String.eqb_eq in Hp. subst key.
    cbn [String.eqb Ascii.eqb Bool.eqb andb].
    destruct (keys_include (keys (own o)) "__proto__"),
             (keys_include (keys nd) "__proto__"); cbn [negb agree].
    + exact Ha.
    + now apply alike_set_proto_r.
    + now apply alike_set_proto.
    + now apply alike_set_proto, alike_set_proto_r.
  - apply String.eqb_neq in Hp.
    rewrite (alike_keys_include o nd key Ha Hp).
    destruct (keys_include (keys nd) key); cbn [negb].
    + destruct (String.eqb key "tags" && is_array value) eqn:Ht;
        [|exact Ha].
      unfold combined_tags. rewrite (Ha "tags") by discriminate.
      destruct (let! old := spread (or_else (default Undefined
                                               (obj_get nd "tags")) (Arr []))
                in let! new := spread value
                   in filter_not (fun tag => method_includes tag "svelte")
                        (old ++ new)) as [tags|e]; cbn [bindR agree];
        [|reflexivity].
      now apply alike_set.
    + now apply alike_set.
Qed.

Lemma forEach_alike entries : forall o nd,
  alike o nd -> agree alike (forEach_p entries o) (forEach entries nd).
Proof.
  induction entries as [|[key value] entries IH]; intros o nd Ha.
  - exact Ha.
  - cbn [forEach_p forEach].
    pose proof (merge_entry_alike o nd key value Ha) as Hstep.
    destruct (merge_entry_p o (key, value)) as [o1|e1],
             (merge_entry nd (key, value)) as [nd1|e2];
      cbn [agree bindR] in *; try contradiction.
    + now apply IH.
    + exact Hstep.
Qed.

(** The copy [Object.assign] makes of a record reads as the record under
    every key but [__proto__]. *)
Lemma assign_get (entries : props) : forall o k,
  List.NoDup (keys entries) -> k <> "__proto__" ->
  obj_get (own (fold_left (fun t kv => set_property (fst kv) (snd kv) t)
                  entries o)) k
  = match obj_get entries k with
    | Some x => Some x
    | None => obj_get (own o) k
    end.
Proof.
  induction entries as [|[k0 v0] entries IH]; intros o k Hnd Hk;
    [reflexivity|].
  cbn [keys map fst] in Hnd. apply List.NoDup_cons_iff in Hnd as [Hnotin Hnd].
  cbn [fold_left fst snd obj_get]. rewrite (IH _ k Hnd Hk).
  destruct (String.eqb k k0) eqn:Hk0.
  - apply String.eqb_eq in Hk0. subst k0.
    rewrite (obj_get_not_in entries k Hnotin). now apply set_property_same.
  - apply String.eqb_neq in Hk0.
    now rewrite (set_property_other k0 v0 o k Hk0).
Qed.

(** [merge_p] and [merge] return together and throw together; the
    records they return read alike under every key but [__proto__]. *)
Lemma merge_p_alike (base : props) (additional : value) :
  List.NoDup (keys base) ->
  agree (fun r t => exists nd, t = Obj nd /\ alike r nd)
        (merge_p (Obj base) additional) (merge (Obj base) additional).
Proof.
  intros Hnd. unfold merge_p, merge, assign. cbn [own_entries].
  destruct (Object_entries additional) as [entries|e]; cbn [bindR agree];
    [|reflexivity].
  assert (Ha : alike (fold_left (fun t kv => set_property (fst kv) (snd kv) t)
                        base (MkObject ObjectPrototype [])) base).
  { intros k Hk. rewrite (assign_get base _ k Hnd Hk). cbn [own obj_get].
    now destruct (obj_get base k). }
  pose proof (forEach_alike entries _ base Ha) as Hrun.
  destruct (forEach_p entries _) as [o|e1],
           (forEach entries base) as [nd|e2];
    cbn [agree bindR] in *; try contradiction.
  - exists nd. now split.
  - exact Hrun.
Qed.

(** On records of ordinary keys an assignment is [obj_set]. *)
Lemma set_property_ordinary k v nd :
  ordinary_key k = true ->
  set_property k v (MkObject ObjectPrototype nd)
  = MkObject ObjectPrototype (obj_set k v nd).
Proof.
  unfold ordinary_key, set_property. intros Ho.
  apply andb_prop in Ho as [Hp Hi]. cbn [own proto].
  destruct (keys_include (keys nd) k) eqn:Hin; [reflexivity|].
  apply negb_true_iff in Hp. rewrite Hp. cbn [andb]. f_equal.
  unfold create_property. destruct (array_index k); [discriminate|].
  apply keys_include_get_none in Hin. clear -Hin.
  induction nd as [|[k' v'] nd IH]; [reflexivity|].
  cbn [obj_get obj_set app] in *. destruct (String.eqb k k'); [discriminate|].
  now rewrite IH.
Qed.

Lemma assign_ordinary (entries : props) : forall nd,
  ordinary entries = true ->
  fold_left (fun t kv => set_property (fst kv) (snd kv) t) entries
    (MkObject ObjectPrototype nd)
  = MkObject ObjectPrototype
      (fold_left (fun l kv => obj_set (fst kv) (snd kv) l) entries nd).
Proof.
  induction entries as [|[k v] entries IH]; intros nd Ho; [reflexivity|].
  cbn [ordinary forallb fst] in Ho. apply andb_prop in Ho as [Hk Ho].
  cbn [fold_left fst snd]. rewrite set_property_ordinary by exact Hk.
  now apply IH.
Qed.

Lemma fold_obj_set (entries : props) : forall nd,
  List.NoDup (keys nd ++ keys entries) ->
  fold_left (fun l kv => obj_set (fst kv) (snd kv) l) entries nd
  = nd ++ entries.
Proof.
  induction entries as [|[k v] entries IH]; intros nd Hnd.
  - cbn. now rewrite app_nil_r.
  - cbn [fold_left fst snd keys map] in *.
    assert (Hnew : obj_get nd k = None).
    { apply obj_get_not_in. intros Hin.
      apply List.NoDup_remove_2 in Hnd. apply Hnd.
      apply in_or_app. now left. }
    assert (Hset : obj_set k v nd = nd ++ [(k, v)]).
    { clear -Hnew. induction nd as [|[k' v'] nd IH]; [reflexivity|].
      cbn [obj_get obj_set app] in *.
      destruct (String.eqb k k'); [discriminate|]. now rewrite IH. }
    rewrite Hset, IH; [now rewrite <- app_assoc|].
    unfold keys. rewrite map_app, <- app_assoc. exact Hnd.
Qed.

Lemma merge_entry_ordinary nd key value :
  ordinary_key key = true ->
  merge_entry_p (MkObject ObjectPrototype nd) (key, value)
  = match merge_entry nd (key, value) with
    | Ok nd' => Ok (MkObject ObjectPrototype nd')
    | Throw e => Throw e
    end.
Proof.
  intros Hk. unfold merge_entry_p, merge_entry. cbn [own].
  destruct (skipped value); [reflexivity|].
  destruct (negb (keys_include (keys nd) key)).
  - now rewrite set_property_ordinary.
  - destruct (String.eqb key "tags" && is_array value); [|reflexivity].
    destruct (combined_tags nd value) as [tags|e]; cbn [bindR];
      [|reflexivity].
    now rewrite set_property_ordinary.
Qed.

Lemma forEach_ordinary entries : forall nd,
  ordinary entries = true ->
  forEach_p entries (MkObject ObjectPrototype nd)
  = match forEach entries nd with
    | Ok nd' => Ok (MkObject ObjectPrototype nd')
    | Throw e => Throw e
    end.
Proof.
  induction entries as [|[key value] entries IH]; intros nd Ho;
    [reflexivity|].
  cbn [ordinary forallb fst] in Ho. apply andb_prop in Ho as [Hk Ho].
  cbn [forEach_p forEach]. rewrite merge_entry_ordinary by exact Hk.
  destruct (merge_entry nd (key, value)) as [nd1|e]; cbn [bindR];
    [now apply IH | reflexivity].
Qed.

(** On records of ordinary keys [merge_p] is [merge]: the record keeps
    the prototype of [{}] and its own properties are those [merge] lists,
    in that order. *)
Lemma merge_p_ordinary (base additional : props) :
  List.NoDup (keys base) ->
  ordinary base = true -> ordinary additional = true ->
  merge_p (Obj base) (Obj additional)
  = match merge (Obj base) (Obj additional) with
    | Ok (Obj nd) => Ok (MkObject ObjectPrototype nd)
    | Ok _ => Throw (TypeError "not a record")
    | Throw e => Throw e
    end.
Proof.
  intros Hnd Hb Ha. unfold merge_p, merge, assign.
  cbn [own_entries Object_entries bindR].
  rewrite assign_ordinary by exact Hb.
  rewrite fold_obj_set by exact Hnd. cbn [app].
  rewrite forEach_ordinary by exact Ha.
  now destruct (forEach additional base).
Qed.

(** C7, as the code has it. A key other than [tags] and [__proto__] that
    base has keeps the value it has in base, whatever additional holds and
    whatever other keys the two records have: every record that [merge]
    returns has the base value as its own property under that key, and
    [merge] does return a record when the tags of both records are arrays
    of strings. *)
Theorem merge_p_base_wins (base additional : props) (key : string) :
  List.NoDup (keys base) ->
  key <> "tags" -> key <> "__proto__" -> is_Some (obj_get base key) ->
  (forall r, merge_p (Obj base) (Obj additional) = Ok r ->
             obj_get (own r) key = obj_get base key)
  /\ (tags_typed base = true -> tags_typed additional = true ->
      exists r, merge_p (Obj base) (Obj additional) = Ok r).
Proof.
  intros Hnd Hk Hp Hin.
  pose proof (merge_p_alike base (Obj additional) Hnd) as Hsim.
  unfold merge in Hsim. cbn [Object_entries own_entries bindR] in Hsim.
  split.
  - intros r Hr. rewrite Hr in Hsim.
    destruct (forEach additional base) as [nd|e] eqn:Hf;
      cbn [bindR agree] in Hsim; [|contradiction].
    destruct Hsim as (nd' & [= <-] & Ha).
    rewrite (Ha key Hp).
    exact (forEach_keeps additional key base nd Hf Hk Hin).
  - intros Hb Ha. destruct (forEach_typed additional base Hb Ha) as [nd Hf].
    rewrite Hf in Hsim. cbn [bindR] in Hsim.
    destruct (merge_p (Obj base) (Obj additional)) as [r|e];
      cbn [agree] in Hsim; [eauto | contradiction].
Qed.

Lemma merge_p_base_wins_witness :
  (List.NoDup (keys [("title", Str "A")])
   /\ "title" <> "tags" /\ "title" <> "__proto__"
   /\ is_Some (obj_get [("title", Str "A")] "title"))
  /\ exists r,
       merge_p (Obj [("title", Str "A")]) (Obj [("title", Str "B")]) = Ok r
       /\ obj_get (own r) "title" = Some (Str "A").
Proof.
  assert (Hnd : List.NoDup (keys [("title", Str "A")])).
  { apply List.NoDup_cons_iff. split; [intros []|constructor]. }
  assert (Hk : "title" <> "tags") by discriminate.
  assert (Hp : "title" <> "__proto__") by discriminate.
  assert (Hin : is_Some (obj_get [("title", Str "A")] "title"))
    by (eexists; reflexivity).
  split; [tauto|].
  destruct (merge_p_base_wins [("title", Str "A")] [("title", Str "B")]
              "title" Hnd Hk Hp Hin) as [Hpart Htotal].
  destruct (Htotal eq_refl eq_refl) as [r Hr].
  exists r. split; [exact Hr | exact (Hpart r Hr)].
Defined.

(** C7, as stated, fails under the key [__proto__], which a record that
    [JSON.parse] made can have as a property of its own: the copy that
    [Object.assign] makes does not have it. A text under the key is
    ignored by the setter; an object under it becomes the prototype of
    the record [merge] returns. The other keys are kept. *)
Lemma merge_p_base_wins_counterexample :
  let base := [("__proto__", Str "x"); ("title", Str "A")] in
  let changed := Obj [("url", Str "https://gitlab.com/a/b")] in
  ("__proto__" <> "tags" /\ is_Some (obj_get base "__proto__"))
  /\ merge_p (Obj base) (Obj [("title", Str "B")])
     = Ok (MkObject ObjectPrototype [("title", Str "A")])
  /\ obj_get [("title", Str "A")] "__proto__" <> obj_get base "__proto__"
  /\ merge_p (Obj [("__proto__", changed); ("title", Str "A")])
             (Obj [("title", Str "B")])
     = Ok (MkObject (Inherits changed) [("title", Str "A")]).
Proof.
  cbv zeta. split; [split; [discriminate | eexists; reflexivity]|].
  split; [reflexivity|]. split; [discriminate | reflexivity].
Qed.

End PrototypeFacts.


(** ** The cache-backed fetch wrapper *)

Section GetDataFacts.

Variable E : env.

(** What a call does when the cache has nothing under the key, whether or
    not the read fails: it runs the producer after the read. *)
Lemma getData_miss key (producer : M JS.value) w :
  cache w !! normalize key = None ->
  getData E key producer w
  = (generatedValue <- producer ;;
     _ <- cache_set E (normalize key)
            (MkEntry (JSON_stringify generatedValue) (normalize key)) ;;
     ret generatedValue)
      (MkWorld (cache w) (CacheGet (normalize key) :: trace w)).
Proof.
  intros Hmiss. unfold getData, try_catch, cache_get.
  unfold bind at 1 2 3 4. unfold emit at 1. cbn [cache].
  destruct (cache_get_fault E (normalize key)); cbn [await throw ret].
  - reflexivity.
  - rewrite Hmiss. reflexivity.
Qed.

(** What a call does when the cache holds a readable entry under the key:
    it reads the cache and returns the document of the entry. *)
Lemma getData_hit key (producer : M JS.value) w e j :
  cache_get_fault E (normalize key) = false ->
  cache w !! normalize key = Some e -> data e = Some j ->
  getData E key producer w
  = (Ok (of_json j), MkWorld (cache w) (CacheGet (normalize key) :: trace w)).
Proof.
  intros Hf Hhit Hdata. unfold getData, try_catch, cache_get.
  unfold bind at 1 2 3 4. unfold emit at 1. cbn [cache].
  rewrite Hf. cbn [await ret]. rewrite Hhit. unfold bind, lift.
  rewrite Hdata. reflexivity.
Qed.

End GetDataFacts.

(** ** JSON documents *)

Section ValueInduction.

Variable P : JS.value -> Prop.
Hypothesis HUndefined : P Undefined.
Hypothesis HNull : P Null.
Hypothesis HBool : forall b, P (Bool b).
Hypothesis HNum : forall n, P (Num n).
Hypothesis HStr : forall s, P (Str s).
Hypothesis HArr : forall l, Forall P l -> P (Arr l).
Hypothesis HObj : forall o, Forall (fun kv => P (snd kv)) o -> P (Obj o).

Fixpoint value_nested_ind (v : JS.value) : P v :=
  match v with
  | Undefined => HUndefined
  | Null => HNull
  | Bool b => HBool b
  | Num n => HNum n
  | Str s => HStr s
  | Arr l =>
      HArr l ((fix elems (l : list JS.value) : Forall P l :=
                 match l with
                 | [] => @List.Forall_nil _ _
                 | x :: l' => @List.Forall_cons _ _ _ _ (value_nested_ind x) (elems l')
                 end) l)
  | Obj o =>
      HObj o ((fix members (o : props) : Forall (fun kv => P (snd kv)) o :=
                 match o with
                 | [] => @List.Forall_nil _ _
                 | (k, x) :: o' =>
                     @List.Forall_cons _ _ (k, x) _ (value_nested_ind x) (members o')
                 end) o)
  end.

End ValueInduction.

(** A value without [undefined] inside is printed, and read back as it
    was. *)
Lemma JSON_round_trip (v : JS.value) :
  undefined_free v = true ->
  exists j, JSON_stringify v = Some j /\ of_json j = v.
Proof.
  induction v as [| | b | n | s | l IH | o IH] using value_nested_ind;
    intros Hv; try discriminate; try (eexists; split; reflexivity).
  - exists (JArr (map (fun x => default JNull (JSON_stringify x)) l)).
    split; [reflexivity|]. cbn [of_json]. f_equal.
    cbn [undefined_free] in Hv.
    induction IH as [|x l Hx _ IHl]; [reflexivity|].
    cbn [forallb] in Hv. apply andb_prop in Hv. destruct Hv as [Hvx Hvl].
    cbn [map]. destruct (Hx Hvx) as (j & Hj & Hback).
    rewrite Hj. cbn [default]. unfold id. rewrite Hback.
    f_equal. exact (IHl Hvl).
  - cbn [undefined_free] in Hv. cbn [JSON_stringify].
    eexists. split; [reflexivity|]. cbn [of_json]. f_equal.
    induction IH as [|[k x] o Hx _ IHo]; [reflexivity|].
    apply andb_prop in Hv. destruct Hv as [Hvx Hvo].
    cbn [snd] in Hx. destruct (Hx Hvx) as (j & Hj & Hback).
    rewrite Hj, Hback. f_equal. exact (IHo Hvo).
Qed.

(** ** C9 and C3 *)

(** C9. When the cache has nothing under the key and the write of the
    cache fails, [getData] still returns the value of the producer: the
    failed write is recorded, stores nothing and is not raised. *)
Theorem getData_survives_write_fault
    (E : env) (key : string) (producer : M JS.value) (w w1 : world) (v : JS.value) :
  cache w !! normalize key = None ->
  cache_set_fault E (normalize key) = true ->
  producer (MkWorld (cache w) (CacheGet (normalize key) :: trace w)) = (Ok v, w1) ->
  getData E key producer w
  = (Ok v,
     MkWorld (cache w1)
       (CacheSet (normalize key) (MkEntry (JSON_stringify v) (normalize key))
          :: trace w1)).
Proof.
  intros Hmiss Hfault Hp. rewrite (getData_miss E key producer w Hmiss).
  unfold bind at 1. rewrite Hp.
  unfold bind, cache_set, emit, ret. cbn [cache trace].
  rewrite Hfault. reflexivity.
Qed.

Lemma getData_survives_write_fault_witness :
  let E := offline (Ok []) true in
  let producer : M JS.value := emit (RegistryCall (Str "x")) ;; ret emptyNpm in
  let w1 := MkWorld ∅ [RegistryCall (Str "x"); CacheGet "npm-x"] in
  (cache nothing_yet !! normalize "npm-x" = None
   /\ cache_set_fault E (normalize "npm-x") = true
   /\ producer (MkWorld (cache nothing_yet)
                  (CacheGet (normalize "npm-x") :: trace nothing_yet))
      = (Ok emptyNpm, w1))
  /\ getData E "npm-x" producer nothing_yet
     = (Ok emptyNpm,
        MkWorld ∅
          [CacheSet "npm-x" (MkEntry (JSON_stringify emptyNpm) "npm-x");
           RegistryCall (Str "x"); CacheGet "npm-x"]).
Proof.
  intros E producer w1.
  assert (H1 : cache nothing_yet !! normalize "npm-x" = None) by reflexivity.
  assert (H2 : cache_set_fault E (normalize "npm-x") = true) by reflexivity.
  assert (H3 : producer (MkWorld (cache nothing_yet)
                           (CacheGet (normalize "npm-x") :: trace nothing_yet))
               = (Ok emptyNpm, w1)) by reflexivity.
  split; [split; [exact H1 | split; [exact H2 | exact H3]]|].
  exact (getData_survives_write_fault E "npm-x" producer nothing_yet w1
           emptyNpm H1 H2 H3).
Defined.

(** C3, as the code has it. When the producer fulfils with a value other
    than [undefined] (a value that [JSON.stringify] turns into a text), and
    neither the read nor the write of the cache fails on the key, a first
    call on a cache with nothing under the key runs the producer once,
    stores the text of its value and returns the value; a second call with
    that key returns the value of the stored text after a read of the
    cache and nothing else, whatever producer it is given: no producer is
    run again. The second value is the first when the first has no
    [undefined] inside. *)
Theorem getData_twice
    (E : env) (key : string) (producer : M JS.value) (w w1 : world)
    (v : JS.value) (j : json) :
  cache_get_fault E (normalize key) = false ->
  cache_set_fault E (normalize key) = false ->
  cache w !! normalize key = None ->
  producer (MkWorld (cache w) (CacheGet (normalize key) :: trace w)) = (Ok v, w1) ->
  JSON_stringify v = Some j ->
  let e := MkEntry (Some j) (normalize key) in
  let w2 := MkWorld (<[normalize key := e]> (cache w1))
                    (CacheSet (normalize key) e :: trace w1) in
  getData E key producer w = (Ok v, w2)
  /\ (forall producer' : M JS.value,
        getData E key producer' w2
        = (Ok (of_json j),
           MkWorld (cache w2) (CacheGet (normalize key) :: trace w2)))
  /\ (undefined_free v = true -> of_json j = v).
Proof.
  intros Hget Hset Hmiss Hp Hj e w2. split; [|split].
  - rewrite (getData_miss E key producer w Hmiss).
    unfold bind at 1. rewrite Hp.
    unfold bind, cache_set, emit, ret. cbn [cache trace].
    rewrite Hset, Hj. reflexivity.
  - intros producer'.
    apply (getData_hit E key producer' w2 e j Hget).
    + subst w2. cbn [cache]. apply lookup_insert_eq.
    + reflexivity.
  - intros Hv. destruct (JSON_round_trip v Hv) as (j' & Hj' & Hback).
    rewrite Hj in Hj'. injection Hj' as <-. exact Hback.
Qed.

Lemma getData_twice_witness :
  let E := offline (Ok []) false in
  let v := Obj [("description", Str "Icons"); ("tags", Arr [Str "icons"]);
                ("url", Undefined); ("repo", Null); ("title", Str "x")] in
  let j := JObj [("description", JStr "Icons"); ("tags", JArr [JStr "icons"]);
                 ("repo", JNull); ("title", JStr "x")] in
  let producer : M JS.value := emit (RegistryCall (Str "x")) ;; ret v in
  let w1 := MkWorld ∅ [RegistryCall (Str "x"); CacheGet "npm-x"] in
  let e := MkEntry (Some j) "npm-x" in
  let w2 := MkWorld (<["npm-x" := e]> ∅)
              [CacheSet "npm-x" e; RegistryCall (Str "x"); CacheGet "npm-x"] in
  (cache_get_fault E (normalize "npm-x") = false
   /\ cache_set_fault E (normalize "npm-x") = false
   /\ cache nothing_yet !! normalize "npm-x" = None
   /\ producer (MkWorld (cache nothing_yet)
                  (CacheGet (normalize "npm-x") :: trace nothing_yet))
      = (Ok v, w1)
   /\ JSON_stringify v = Some j)
  /\ getData E "npm-x" producer nothing_yet = (Ok v, w2)
  /\ getData E "npm-x" producer w2
     = (Ok (Obj [("description", Str "Icons"); ("tags", Arr [Str "icons"]);
                 ("repo", Null); ("title", Str "x")]),
        MkWorld (cache w2) (CacheGet "npm-x" :: trace w2)).
Proof.
  intros E v j producer w1 e w2.
  assert (H1 : cache_get_fault E (normalize "npm-x") = false) by reflexivity.
  assert (H2 : cache_set_fault E (normalize "npm-x") = false) by reflexivity.
  assert (H3 : cache nothing_yet !! normalize "npm-x" = None) by reflexivity.
  assert (H4 : producer (MkWorld (cache nothing_yet)
                           (CacheGet (normalize "npm-x") :: trace nothing_yet))
               = (Ok v, w1)) by reflexivity.
  assert (H5 : JSON_stringify v = Some j) by reflexivity.
  split; [repeat (split; [assumption|]); assumption|].
  destruct (getData_twice E "npm-x" producer nothing_yet w1 v j
              H1 H2 H3 H4 H5) as (Hfirst & Hsecond & _).
  split; [exact Hfirst | exact (Hsecond producer)].
Defined.

(** C3, as stated, fails on the record a fetcher builds. [getNpmInfo]
    gives a package without a homepage a record whose [url] is
    [undefined]: the first call returns it, the second returns the record
    of the stored text, which has no [url]. The two differ, for [getData]
    on such a producer and for [getNpmInfo] itself. A producer that
    fulfils with [undefined] stores an entry without a text and is run
    again by the second call. *)
Lemma getData_twice_counterexample :
  let E := offline (Ok []) false in
  let partial : M JS.value :=
    emit (RegistryCall (Str "x")) ;;
    ret (Obj [("url", Undefined); ("title", Str "x")]) in
  let nothing : M JS.value :=
    emit (RegistryCall (Str "x")) ;; ret Undefined in
  let stored := MkEntry None "npm-x" in
  (fst (getData E "npm-x" partial nothing_yet)
   = Ok (Obj [("url", Undefined); ("title", Str "x")])
   /\ fst (getData E "npm-x" partial
             (snd (getData E "npm-x" partial nothing_yet)))
      = Ok (Obj [("title", Str "x")])
   /\ Obj [("title", Str "x")] <> Obj [("url", Undefined); ("title", Str "x")])
  /\ (fst (getNpmInfo Sample.online (Str "svelte-icons") nothing_yet)
      = Ok (Obj [("description", Str "Icons");
                 ("tags", Arr [Str "svelte"; Str "icons"]);
                 ("url", Undefined);
                 ("repo", Str "https://github.com/foo/svelte-icons");
                 ("title", Str "svelte-icons")])
      /\ fst (getNpmInfo Sample.online (Str "svelte-icons")
                (snd (getNpmInfo Sample.online (Str "svelte-icons") nothing_yet)))
         = Ok (Obj [("description", Str "Icons");
                    ("tags", Arr [Str "svelte"; Str "icons"]);
                    ("repo", Str "https://github.com/foo/svelte-icons");
                    ("title", Str "svelte-icons")]))
  /\ trace (snd (getData E "npm-x" nothing
                   (snd (getData E "npm-x" nothing nothing_yet))))
     = [CacheSet "npm-x" stored; RegistryCall (Str "x"); CacheGet "npm-x";
        CacheSet "npm-x" stored; RegistryCall (Str "x"); CacheGet "npm-x"].
Proof.
  cbv zeta. split; [split; [vm_compute; reflexivity|]|].
  - split; [vm_compute; reflexivity | discriminate].
  - split; [split; vm_compute; reflexivity | vm_compute; reflexivity].
Qed.

(** ** The hosting fetchers *)

(** C8. On an absent URL, and on a URL that has none of the address forms
    of the platform, a hosting fetcher returns the empty record and leaves
    the world as it is: no cache read, no cache write, no remote call. *)
Theorem hosting_fetcher_short_circuits
    (E : env) (p : platform) (url : JS.value) (w : world) :
  unrecognized (form p) url ->
  fetcher E p url w = (Ok (emptyResponse p), w).
Proof.
  destruct p, url as [| | | | u | |]; cbn [unrecognized form fetcher];
    intros H; try contradiction; try reflexivity.
  - unfold github_form in H.
    apply orb_false_elim in H. destruct H as [H H3].
    apply orb_false_elim in H. destruct H as [H1 H2].
    unfold getGithubInfo. rewrite H1, H2, H3. reflexivity.
  - unfold gitlab_form in H. unfold getGitlabInfo. rewrite H. reflexivity.
Qed.

Lemma hosting_fetcher_short_circuits_witness :
  unrecognized (form Github) (Str "https://example.com/x")
  /\ fetcher (offline (Ok []) false) Github (Str "https://example.com/x")
       nothing_yet
     = (Ok emptyGithub, nothing_yet).
Proof.
  assert (H : unrecognized (form Github) (Str "https://example.com/x"))
    by reflexivity.
  split; [exact H|].
  exact (hosting_fetcher_short_circuits (offline (Ok []) false) Github
           (Str "https://example.com/x") nothing_yet H).
Defined.

(** C1. A URL that has the address form of the platform and that the
    pattern of the fetcher does not match, as one with fewer than two path
    segments, passes the guard of the fetcher: the fetcher rejects with
    the [TypeError] of reading the groups of [null], before any cache or
    remote access. *)
Theorem hosting_fetcher_rejects_unmatched
    (E : env) (p : platform) (u : string) (w : world) :
  form p u = true ->
  exec (url_pattern p) u = None ->
  fetcher E p (Str u) w
  = (Throw (TypeError "Cannot read properties of null (reading '1')"), w).
Proof.
  intros Hform Hexec. destruct p; cbn [form fetcher url_pattern] in *.
  - unfold getGithubInfo. unfold github_form in Hform.
    rewrite <- !negb_orb, Hform. cbn [negb].
    rewrite Hexec. reflexivity.
  - unfold getGitlabInfo. unfold gitlab_form in Hform.
    rewrite Hform. cbn [negb]. rewrite Hexec. reflexivity.
Qed.

Lemma hosting_fetcher_rejects_unmatched_witness :
  (form Github "https://github.com/foo" = true
   /\ exec (url_pattern Github) "https://github.com/foo" = None)
  /\ fetcher (offline (Ok []) false) Github (Str "https://github.com/foo")
       nothing_yet
     = (Throw (TypeError "Cannot read properties of null (reading '1')"),
        nothing_yet).
Proof.
  assert (H1 : form Github "https://github.com/foo" = true)
    by (vm_compute; reflexivity).
  assert (H2 : exec (url_pattern Github) "https://github.com/foo" = None)
    by (vm_compute; reflexivity).
  split; [split; [exact H1 | exact H2]|].
  exact (hosting_fetcher_rejects_unmatched (offline (Ok []) false) Github
           "https://github.com/foo" nothing_yet H1 H2).
Defined.

Example hosting_fetchers_reject_short_path (E : env) (w : world) :
  getGithubInfo E (Str "https://github.com/foo") w
  = (Throw (TypeError "Cannot read properties of null (reading '1')"), w)
  /\ getGitlabInfo E (Str "https://gitlab.com/foo") w
     = (Throw (TypeError "Cannot read properties of null (reading '1')"), w)
  /\ getGithubInfo E (Str "https://github.com/") w
     = (Throw (TypeError "Cannot read properties of null (reading '1')"), w).
Proof. repeat split; vm_compute; reflexivity. Qed.

(** Apart from such a URL, and from a URL that is not a string, the
    fetchers do fulfil: [getData] fulfils when its producer does, the
    producers of the fetchers catch what they throw, and the groups of a
    matched pattern can be read. *)
Lemma getData_fulfils (E : env) (key : string) (producer : M JS.value) :
  (forall w, exists v w', producer w = (Ok v, w')) ->
  forall w, exists v w', getData E key producer w = (Ok v, w').
Proof.
  intros Hp w. unfold getData, try_catch, cache_get.
  unfold bind at 1 2 3 4. unfold emit at 1. cbn [cache].
  set (w0 := MkWorld (cache w) (CacheGet (normalize key) :: trace w)).
  assert (Hmiss : exists v w',
             (generatedValue <- producer ;;
              _ <- cache_set E (normalize key)
                     (MkEntry (JSON_stringify generatedValue) (normalize key)) ;;
              ret generatedValue) w0 = (Ok v, w')).
  { destruct (Hp w0) as (v & w1 & Hv). unfold bind at 1. rewrite Hv.
    unfold bind, cache_set, emit, ret.
    destruct (cache_set_fault E (normalize key)); eauto. }
  destruct (cache_get_fault E (normalize key)); cbn [await throw ret];
    [exact Hmiss|].
  destruct (cache w !! normalize key) as [e|]; [|exact Hmiss].
  unfold bind, lift, JSON_parse, ret.
  destruct (data e); [eauto | exact Hmiss].
Qed.

Lemma try_catch_fulfils (c : M JS.value) (v0 : JS.value) (w : world) :
  exists v w', try_catch c (fun _ => ret v0) w = (Ok v, w').
Proof. unfold try_catch, ret. destruct (c w) as [[v|e] w']; eauto. Qed.

Lemma getNpmInfo_fulfils (E : env) (packageName : JS.value) (w : world) :
  exists v w', getNpmInfo E packageName w = (Ok v, w').
Proof.
  unfold getNpmInfo. apply getData_fulfils. intros w0.
  apply try_catch_fulfils.
Qed.

Lemma hosting_fetcher_fulfils_on_match
    (E : env) (p : platform) (u : string) (w : world) :
  exec (url_pattern p) u <> None ->
  exists v w', fetcher E p (Str u) w = (Ok v, w').
Proof.
  intros Hm. destruct p; cbn [fetcher url_pattern] in *.
  - unfold getGithubInfo.
    destruct (negb (startsWith "https://github.com/" u)
              && negb (startsWith "ssh://git@github.com/" u)
              && negb (startsWith "git://github.com/" u));
      [unfold ret; eauto|].
    destruct (exec github_url u) as [m|]; [|contradiction].
    unfold bind at 1 2. unfold lift, match_index.
    apply getData_fulfils. intros w0. apply try_catch_fulfils.
  - unfold getGitlabInfo.
    destruct (negb (startsWith "https://gitlab.com/" u));
      [unfold ret; eauto|].
    destruct (exec gitlab_url u) as [m|]; [|contradiction].
    unfold bind at 1 2. unfold lift, match_index.
    apply getData_fulfils. intros w0. apply try_catch_fulfils.
Qed.

(** The pattern of a fetcher does match a URL with two path segments. *)
Example github_url_groups :
  exec github_url "https://github.com/foo/bar"
  = Some ["https://github.com/foo/bar"; "foo"; "bar"]
  /\ exec github_url "ssh://git@github.com/foo/bar/tree/main"
     = Some ["ssh://git@github.com/foo/bar"; "foo"; "bar"]
  /\ exec gitlab_url "https://gitlab.com/foo/bar"
     = Some ["https://gitlab.com/foo/bar"; "foo"; "bar"]
  /\ exec github_url "https://github.com/foo" = None
  /\ exec github_url "https://github.com/foo/" = None.
Proof. repeat split; vm_compute; reflexivity. Qed.

(** ** The key normalizer *)

Section ReplaceChar.

(** [replace] on a pattern of one character [c], with a replacement whose
    third character [m] is a marker: it differs from the two characters
    before it, and the texts under consideration do not contain it. *)
Variables (c a0 a1 m : ascii) (rest : string).
Hypothesis a0_m : a0 <> m.
Hypothesis a1_m : a1 <> m.

Let rep : string := String a0 (String a1 (String m rest)).
Let R : string -> string := replace (String c EmptyString) rep.
Let free (x : ascii) : bool := negb (Ascii.eqb x m).

Lemma replace_char_nil : R EmptyString = EmptyString.
Proof. reflexivity. Qed.

Lemma replace_char_hit s : R (String c s) = rep +:+ s.
Proof.
  unfold R. cbn [replace String.prefix String.length skip_chars].
  destruct (ascii_dec c c) as [_|Hn]; [|contradiction].
  destruct s; reflexivity.
Qed.

Lemma replace_char_pass b s : b <> c -> R (String b s) = String b (R s).
Proof.
  intros Hb. unfold R. cbn [replace String.prefix].
  destruct (ascii_dec c b) as [->|_]; [contradiction|reflexivity].
Qed.

Lemma replace_char_cases s :
  s = EmptyString
  \/ (exists s', s = String c s' /\ R s = rep +:+ s')
  \/ (exists b s', b <> c /\ s = String b s' /\ R s = String b (R s')).
Proof.
  destruct s as [|b s']; [now left|]. right.
  destruct (ascii_dec b c) as [->|Hb].
  - left. exists s'. split; [reflexivity | apply replace_char_hit].
  - right. exists b, s'. repeat split; [exact Hb | now apply replace_char_pass].
Qed.

Lemma free_head b s : all_chars free (String b s) = true -> b <> m.
Proof.
  cbn [all_chars]. intros H. apply andb_prop in H. destruct H as [H _].
  unfold free in H. intros ->. now rewrite Ascii.eqb_refl in H.
Qed.

Lemma free_tail b s : all_chars free (String b s) = true -> all_chars free s = true.
Proof. cbn [all_chars]. intros H. apply andb_prop in H. tauto. Qed.

(** A text without the marker that does not start with [c] is not
    rewritten to a text that starts with the replacement. *)
Lemma replace_char_not_rep b t x :
  b <> c -> all_chars free (String b t) = true ->
  R (String b t) <> rep +:+ x.
Proof.
  intros Hb Hfree Heq. rewrite (replace_char_pass b t Hb) in Heq.
  unfold rep in Heq. cbn [String.append] in Heq.
  injection Heq as _ Heq. apply free_tail in Hfree.
  destruct (replace_char_cases t) as [->|[(t' & -> & Ht)|(b' & t' & Hb' & -> & Ht)]].
  - discriminate.
  - rewrite Ht in Heq. unfold rep in Heq. cbn [String.append] in Heq.
    injection Heq as _ Heq. congruence.
  - rewrite Ht in Heq. injection Heq as _ Heq.
    pose proof (free_tail _ _ Hfree) as Hfree'.
    destruct (replace_char_cases t') as [->|[(t'' & -> & Ht')|(b'' & t'' & Hb'' & -> & Ht')]].
    + discriminate.
    + rewrite Ht' in Heq. unfold rep in Heq. cbn [String.append] in Heq.
      injection Heq as Heq _. congruence.
    + rewrite Ht' in Heq. injection Heq as Heq _.
      apply free_head in Hfree'. congruence.
Qed.

Lemma append_cancel (p s t : string) : p +:+ s = p +:+ t -> s = t.
Proof.
  induction p as [|x p IH]; cbn [String.append]; [tauto|].
  intros H. injection H as H. exact (IH H).
Qed.

Lemma replace_char_injective s : forall t,
  all_chars free s = true -> all_chars free t = true ->
  R s = R t -> s = t.
Proof.
  induction s as [|b s IH]; intros t Hs Ht Heq.
  - destruct (replace_char_cases t) as [->|[(t' & -> & Hr)|(b' & t' & Hb' & -> & Hr)]].
    + reflexivity.
    + rewrite Hr in Heq. discriminate.
    + rewrite Hr in Heq. discriminate.
  - destruct (ascii_dec b c) as [->|Hb].
    + rewrite replace_char_hit in Heq.
      destruct (replace_char_cases t) as [->|[(t' & -> & Hr)|(b' & t' & Hb' & -> & Hr)]].
      * discriminate.
      * rewrite Hr in Heq. apply append_cancel in Heq. now subst.
      * symmetry in Heq. now apply replace_char_not_rep in Heq.
    + destruct (replace_char_cases t) as [->|[(t' & -> & Hr)|(b' & t' & Hb' & -> & Hr)]].
      * rewrite (replace_char_pass b s Hb) in Heq. discriminate.
      * rewrite Hr in Heq. now apply replace_char_not_rep in Heq.
      * rewrite (replace_char_pass b s Hb), Hr in Heq.
        injection Heq as -> Heq. f_equal.
        apply IH; [exact (free_tail _ _ Hs) | exact (free_tail _ _ Ht) | exact Heq].
Qed.

End ReplaceChar.

Section AllChars.

Implicit Types (p q : ascii -> bool) (s t : string).

Lemma all_chars_app p s t :
  all_chars p (s +:+ t) = all_chars p s && all_chars p t.
Proof.
  induction s as [|x s IH]; [reflexivity|].
  change (all_chars p (String x s +:+ t))
    with (p x && all_chars p (s +:+ t)).
  cbn [all_chars]. now rewrite IH, andb_assoc.
Qed.

Lemma all_chars_impl p q s :
  (forall x, p x = true -> q x = true) ->
  all_chars p s = true -> all_chars q s = true.
Proof.
  intros Hpq. induction s as [|x s IH]; cbn [all_chars]; [reflexivity|].
  intros H. apply andb_prop in H. destruct H as [Hx Hs].
  now rewrite (Hpq x Hx), (IH Hs).
Qed.

(** A text in which the character does not occur is left as it is. *)
Lemma replace_absent (c : ascii) (rep : string) s :
  all_chars (fun x => negb (Ascii.eqb x c)) s = true ->
  replace (String c EmptyString) rep s = s.
Proof.
  induction s as [|x s IH]; [reflexivity|].
  cbn [all_chars]. intros H. apply andb_prop in H. destruct H as [Hx Hs].
  cbn [replace String.prefix].
  destruct (ascii_dec c x) as [->|_].
  - now rewrite Ascii.eqb_refl in Hx.
  - now rewrite (IH Hs).
Qed.

Lemma replace_all_chars p (c : ascii) (rep : string) s :
  all_chars p rep = true -> all_chars p s = true ->
  all_chars p (replace (String c EmptyString) rep s) = true.
Proof.
  intros Hrep. induction s as [|x s IH]; [reflexivity|].
  cbn [all_chars]. intros H. apply andb_prop in H. destruct H as [Hx Hs].
  cbn [replace String.prefix String.length skip_chars].
  destruct (ascii_dec c x) as [->|_].
  - replace (if String.prefix "" s then rep +:+ s else String x (replace (String x "") rep s))
      with (rep +:+ s) by (destruct s; reflexivity).
    now rewrite all_chars_app, Hrep, Hs.
  - cbn [all_chars]. now rewrite Hx, (IH Hs).
Qed.

End AllChars.

(** [normalize] is injective on the texts without a capital A or S. *)
Lemma normalize_injective_lower (s t : string) :
  all_chars no_token_char s = true -> all_chars no_token_char t = true ->
  normalize s = normalize t -> s = t.
Proof.
  intros Hs Ht Heq. unfold normalize in Heq.
  assert (HA : forall u, all_chars no_token_char u = true ->
                         all_chars no_A u = true).
  { intros u. apply all_chars_impl. intros x Hx.
    unfold no_token_char in Hx. apply andb_prop in Hx. tauto. }
  assert (HS : forall u, all_chars no_token_char u = true ->
                         all_chars no_S (replace "@" "--AT--" u) = true).
  { intros u Hu. apply replace_all_chars; [reflexivity|].
    revert Hu. apply all_chars_impl. intros x Hx.
    unfold no_token_char in Hx. apply andb_prop in Hx. tauto. }
  apply (replace_char_injective "/" "-" "-" "S" "LASH--") in Heq;
    [|discriminate|discriminate|now apply HS|now apply HS].
  apply (replace_char_injective "@" "-" "-" "A" "T--") in Heq;
    [exact Heq|discriminate|discriminate|now apply HA|now apply HA].
Qed.

(** [normalize] leaves a text without [@] and [/] as it is. *)
Lemma normalize_plain (s : string) :
  all_chars no_at_slash s = true -> normalize s = s.
Proof.
  intros Hs. unfold normalize.
  rewrite (replace_absent "@" "--AT--" s).
  - apply replace_absent. revert Hs. apply all_chars_impl. intros x Hx.
    unfold no_at_slash in Hx. apply andb_prop in Hx. tauto.
  - revert Hs. apply all_chars_impl. intros x Hx.
    unfold no_at_slash in Hx. apply andb_prop in Hx. tauto.
Qed.

Lemma npm_char_no_token (x : ascii) : npm_char x = true -> no_token_char x = true.
Proof.
  destruct x as [[] [] [] [] [] [] [] []]; vm_compute; congruence.
Qed.

Lemma host_char_plain (x : ascii) : host_char x = true -> no_at_slash x = true.
Proof.
  destruct x as [[] [] [] [] [] [] [] []]; vm_compute; congruence.
Qed.

(** An identifier of the registry starts with [n] and has no capital A or
    S; an identifier of a hosting platform starts with [g] and has neither
    [@] nor [/]. *)
Lemma identifier_class (s : string) :
  identifier s ->
  (all_chars no_token_char s = true /\ exists s', s = String "n" s')
  \/ (all_chars no_at_slash s = true /\ exists s', s = String "g" s').
Proof.
  intros [name Hn | scope name Hs Hn | owner repo Ho Hr | owner repo Ho Hr].
  - left. split; [|eexists; reflexivity].
    rewrite all_chars_app. apply andb_true_intro. split; [reflexivity|].
    revert Hn. apply all_chars_impl, npm_char_no_token.
  - left. split; [|eexists; reflexivity].
    rewrite !all_chars_app. repeat (apply andb_true_intro; split);
      try reflexivity;
      [revert Hs | revert Hn]; apply all_chars_impl, npm_char_no_token.
  - right. split; [|eexists; reflexivity].
    rewrite !all_chars_app. repeat (apply andb_true_intro; split);
      try reflexivity;
      [revert Ho | revert Hr]; apply all_chars_impl, host_char_plain.
  - right. split; [|eexists; reflexivity].
    rewrite !all_chars_app. repeat (apply andb_true_intro; split);
      try reflexivity;
      [revert Ho | revert Hr]; apply all_chars_impl, host_char_plain.
Qed.

Lemma normalize_keeps_n (s : string) :
  exists u, normalize (String "n" s) = String "n" u.
Proof.
  unfold normalize.
  rewrite (replace_char_pass "@" "-" "-" "A" "T--" "n" s) by discriminate.
  rewrite (replace_char_pass "/" "-" "-" "S" "LASH--" "n") by discriminate.
  eauto.
Qed.

(** C4. Two distinct identifiers of the fetchers, made of realistic names,
    have distinct cache keys. *)
Theorem normalize_injective_on_identifiers (s t : string) :
  identifier s -> identifier t -> s <> t -> normalize s <> normalize t.
Proof.
  intros Hs Ht Hne Heq. apply Hne.
  destruct (identifier_class s Hs) as [[Cs (s' & Es)]|[Ps (s' & Es)]];
    destruct (identifier_class t Ht) as [[Ct (t' & Et)]|[Pt (t' & Et)]].
  - now apply normalize_injective_lower.
  - exfalso. subst s t. rewrite (normalize_plain _ Pt) in Heq.
    destruct (normalize_keeps_n s') as [u Hu]. rewrite Hu in Heq. discriminate.
  - exfalso. subst s t. rewrite (normalize_plain _ Ps) in Heq.
    destruct (normalize_keeps_n t') as [u Hu]. rewrite Hu in Heq. discriminate.
  - now rewrite (normalize_plain s Ps), (normalize_plain t Pt) in Heq.
Qed.

Lemma normalize_injective_on_identifiers_witness :
  (identifier "npm-@sveltejs/kit" /\ identifier "npm-sveltejs-kit"
   /\ "npm-@sveltejs/kit" <> "npm-sveltejs-kit")
  /\ normalize "npm-@sveltejs/kit" <> normalize "npm-sveltejs-kit".
Proof.
  assert (H1 : identifier "npm-@sveltejs/kit")
    by exact (id_npm_scoped "sveltejs" "kit" eq_refl eq_refl).
  assert (H2 : identifier "npm-sveltejs-kit")
    by exact (id_npm "sveltejs-kit" eq_refl).
  assert (H3 : "npm-@sveltejs/kit" <> "npm-sveltejs-kit") by discriminate.
  split; [split; [exact H1 | split; [exact H2 | exact H3]]|].
  exact (normalize_injective_on_identifiers _ _ H1 H2 H3).
Defined.

Example normalize_scoped :
  normalize "npm-@sveltejs/kit" = "npm---AT--sveltejs--SLASH--kit".
Proof. reflexivity. Qed.

(** Outside the realistic names the tokens do collide with the text they
    stand for, and only the first [@] and [/] of a key are replaced. *)
Example normalize_collision :
  normalize "npm-@a" = normalize "npm---AT--a"
  /\ normalize "npm-@a/b/c" = "npm---AT--a--SLASH--b/c".
Proof. split; reflexivity. Qed.

(** ** The merge engine on a heap *)

Section Frame.

Lemma framed_ret {A} n (a : A) : framed n (hret a).
Proof. intros h h' r _ [= _ <-]. auto. Qed.

Lemma framed_throw {A} n e : framed n (@hthrow A e).
Proof. intros h h' r _ [= _ <-]. auto. Qed.

Lemma framed_bind {A B} n (c : HM A) (k : A -> HM B) :
  framed n c -> (forall a, framed n (k a)) -> framed n (hbind c k).
Proof.
  intros Hc Hk h h' r Hn. unfold hbind.
  destruct (c h) as [[a|e] h1] eqn:Ec; intros Hr.
  - destruct (Hc _ _ _ Hn Ec) as [Hlen1 Hsame1].
    destruct (Hk a h1 h' r) as [Hlen2 Hsame2]; [lia | exact Hr |].
    split; [lia|]. intros l Hl. rewrite Hsame2, Hsame1; auto.
  - injection Hr as <- <-. exact (Hc _ _ _ Hn Ec).
Qed.

Lemma framed_alloc n (c : cell) : framed n (alloc c).
Proof.
  intros h h' r Hn [= _ <-]. rewrite length_app. cbn [length].
  split; [lia|]. intros l Hl. apply lookup_app_l. lia.
Qed.

Lemma framed_read n (l : loc) : framed n (read l).
Proof.
  intros h h' r _. unfold read. destruct (h !! l); intros [= _ <-]; auto.
Qed.

Lemma framed_write n (l : loc) (c : cell) : n <= l -> framed n (write l c).
Proof.
  intros Hl h h' r _ [= _ <-]. rewrite length_insert.
  split; [lia|]. intros l' Hl'. apply list_lookup_insert_ne. lia.
Qed.

Lemma framed_if {A} n (b : bool) (c1 c2 : HM A) :
  framed n c1 -> framed n c2 -> framed n (if b then c1 else c2).
Proof. destruct b; auto. Qed.

Ltac framed_step :=
  first
    [ apply framed_bind; [|intros ?]
    | apply framed_if
    | apply framed_ret
    | apply framed_throw
    | apply framed_alloc
    | apply framed_read
    | apply framed_write; assumption
    | match goal with
      | |- framed _ (match ?x with _ => _ end) => destruct x
      end ].

Lemma framed_own_entries n v : framed n (own_entries_h v).
Proof. unfold own_entries_h. repeat framed_step. Qed.

Lemma framed_Object_entries n v : framed n (Object_entries_h v).
Proof.
  unfold Object_entries_h.
  destruct v; try apply framed_throw; apply framed_own_entries.
Qed.

Lemma framed_read_obj n l : framed n (read_obj l).
Proof. unfold read_obj. repeat framed_step. Qed.

Lemma framed_is_array n v : framed n (is_array_h v).
Proof. unfold is_array_h. repeat framed_step. Qed.

Lemma framed_spread n v : framed n (spread_h v).
Proof. unfold spread_h. repeat framed_step. Qed.

Lemma framed_method_includes n tag s : framed n (method_includes_h tag s).
Proof. unfold method_includes_h. repeat framed_step. Qed.

Lemma framed_filter_not n (p : hvalue -> HM bool) l :
  (forall x, framed n (p x)) -> framed n (filter_not_h p l).
Proof.
  intros Hp. induction l as [|x l IH]; cbn [filter_not_h].
  - apply framed_ret.
  - apply framed_bind; [apply Hp|intros b].
    apply framed_bind; [exact IH|intros r]. apply framed_ret.
Qed.

Lemma framed_combined_tags n (o : hprops) value :
  framed n (combined_tags_h o value).
Proof.
  unfold combined_tags_h. cbv zeta.
  apply framed_bind.
  { apply framed_if; [apply framed_ret|].
    apply framed_bind; [apply framed_alloc|intros ?; apply framed_ret]. }
  intros tags.
  apply framed_bind; [apply framed_spread|intros old].
  apply framed_bind; [apply framed_spread|intros new].
  apply framed_bind; [apply framed_alloc|intros _].
  apply framed_bind; [|intros kept; apply framed_alloc].
  apply framed_filter_not. intros x. apply framed_method_includes.
Qed.

(** An entry writes to the record being built and to nothing older. *)
Lemma framed_merge_present n newData key value :
  n <= newData -> framed n (merge_present_h newData key value).
Proof.
  intros Hn. unfold merge_present_h.
  apply framed_bind; [apply framed_alloc|intros fresh].
  apply framed_if; [apply framed_ret|].
  apply framed_bind; [apply framed_read_obj|intros o].
  apply framed_if; [now apply framed_write|].
  apply framed_bind.
  { apply framed_if; [apply framed_is_array | apply framed_ret]. }
  intros isArray. apply framed_if; [|apply framed_ret].
  apply framed_bind; [apply framed_combined_tags|intros filtered].
  apply framed_bind; [apply framed_read_obj|intros o'].
  now apply framed_write.
Qed.

Lemma framed_merge_entry n newData kv :
  n <= newData -> framed n (merge_entry_h newData kv).
Proof.
  intros Hn. destruct kv as [key value]. unfold merge_entry_h.
  destruct value; try apply framed_ret; now apply framed_merge_present.
Qed.

Lemma framed_forEach n newData entries :
  n <= newData -> framed n (forEach_h entries newData).
Proof.
  intros Hn. induction entries as [|kv entries IH]; cbn [forEach_h].
  - apply framed_ret.
  - apply framed_bind; [now apply framed_merge_entry | intros _; exact IH].
Qed.

(** C10. [merge] leaves every cell that exists when it is called as it
    is, whether it returns or throws, so that no property of base, of
    additional or of anything else is changed; and the record it returns
    is a cell of its own, allocated by the call. *)
Theorem merge_h_frame (base additional : hvalue) (h h' : heap) (r : result hvalue) :
  merge_h base additional h = (r, h') ->
  (forall l c, h !! l = Some c -> h' !! l = Some c)
  /\ (forall v, r = Ok v -> v = HRef (length h) /\ length h < length h').
Proof.
  unfold merge_h. unfold hbind at 1. unfold alloc at 1.
  set (newData := length h).
  set (rest :=
         o <~ own_entries_h base ;;
         _ <~ write newData (CObj o) ;;
         entries <~ Object_entries_h additional ;;
         _ <~ forEach_h entries newData ;;
         hret (HRef newData)).
  intros Hrun.
  assert (Hframed : framed newData rest).
  { unfold rest.
    apply framed_bind; [apply framed_own_entries|intros o].
    apply framed_bind; [now apply framed_write|intros _].
    apply framed_bind; [apply framed_Object_entries|intros entries].
    apply framed_bind; [now apply framed_forEach|intros _].
    apply framed_ret. }
  destruct (Hframed (h ++ [CObj []]) h' r) as [Hlen Hsame].
  { rewrite length_app. unfold newData. lia. }
  { exact Hrun. }
  rewrite length_app in Hlen. cbn [length] in Hlen. split.
  - intros l c Hl. rewrite Hsame.
    + rewrite lookup_app_l; [exact Hl|]. now apply lookup_lt_Some in Hl.
    + apply lookup_lt_Some in Hl. exact Hl.
  - intros v ->. split; [|unfold newData in *; lia].
    unfold rest, hbind in Hrun.
    destruct (own_entries_h base _) as [[o|] h1]; [|discriminate].
    destruct (write newData (CObj o) h1) as [[[]|] h2]; [|discriminate].
    destruct (Object_entries_h additional h2) as [[entries|] h3];
      [|discriminate].
    destruct (forEach_h entries newData h3) as [[[]|] h4]; [|discriminate].
    unfold hret in Hrun. now injection Hrun as <- _.
Qed.

Lemma merge_h_frame_witness :
  let h0 : heap :=
    [CArr [HStr "ui"; HStr "svelte-icons"]; CObj [("tags", HRef 0)];
     CArr [HStr "framework"; HStr "svelte"]; CObj [("tags", HRef 2)]] in
  let h1 : heap :=
    h0 ++ [CObj [("tags", HRef 7)]; CArr [];
           CArr [HStr "ui"; HStr "svelte-icons"; HStr "framework"; HStr "svelte"];
           CArr [HStr "ui"; HStr "framework"]] in
  merge_h (HRef 1) (HRef 3) h0 = (Ok (HRef 4), h1)
  /\ (forall l c, h0 !! l = Some c -> h1 !! l = Some c)
  /\ (HRef 4 = HRef (length h0) /\ length h0 < length h1).
Proof.
  intros h0 h1.
  assert (Hrun : merge_h (HRef 1) (HRef 3) h0 = (Ok (HRef 4), h1))
    by (vm_compute; reflexivity).
  split; [exact Hrun|].
  destruct (merge_h_frame (HRef 1) (HRef 3) h0 h1 (Ok (HRef 4)) Hrun)
    as [Hsame Hfresh].
  split; [exact Hsame | exact (Hfresh (HRef 4) eq_refl)].
Defined.

End Frame.

(** ** The two embeddings of the merge engine *)

Section Refinement.

(** The heap [h0] the call starts from, of [n0] cells that refer to one
    another only. *)
Variable h0 : heap.
Local Abbreviation n0 := (length h0).
Hypothesis h0_closed : closed_below n0 h0.

Local Abbreviation extends := (Abstraction.extends h0).

Lemma extends_refl : extends h0.
Proof. split; [lia | auto]. Qed.

Lemma old_cell (l : loc) :
  l < n0 -> exists c, h0 !! l = Some c /\ Forall (val_below n0) (cell_values c).
Proof.
  intros Hl. destruct (lookup_lt_is_Some_2 h0 l Hl) as [c Hc].
  exists c. split; [exact Hc|]. destruct h0_closed as [_ Hcl]. eauto.
Qed.

(** The tree of a value of [h0] is the same in every heap that extends
    [h0]. *)
Lemma reify_old (h : heap) (depth : nat) : forall v,
  extends h -> val_below n0 v -> reify depth h v = reify depth h0 v.
Proof.
  intros v [_ Hsame]. revert v.
  induction depth as [|d IH]; intros v Hv; destruct v as [| | | | |l];
    try reflexivity.
  cbn [val_below] in Hv. cbn [reify]. rewrite (Hsame l Hv).
  destruct (old_cell l Hv) as (c & -> & Hc).
  destruct c as [o|elems]; cbn [cell_values] in Hc; f_equal.
  - induction o as [|[k x] o IHo]; [reflexivity|].
    cbn [map fst snd] in *. apply Forall_cons in Hc. destruct Hc as [Hx Ho].
    rewrite (IH x Hx). f_equal. exact (IHo Ho).
  - induction elems as [|x elems IHe]; [reflexivity|].
    cbn [map] in *. apply Forall_cons in Hc. destruct Hc as [Hx He].
    rewrite (IH x Hx). f_equal. exact (IHe He).
Qed.

(** The depth at which the properties of a record are read; their
    elements are read one level less deep, at a depth of at least one. *)
Variable d : nat.
Local Abbreviation D := (S (S d)).

Lemma is_str_reify (s : string) (k : nat) (h : heap) (x : hvalue) :
  is_str s (reify k h x) = is_hstr s x.
Proof.
  destruct k as [|k], x as [| | | | |l]; try reflexivity.
  cbn [reify]. destruct (h !! l) as [[o|elems]|]; reflexivity.
Qed.

Lemma existsb_is_str (s : string) (k : nat) (h : heap) (elems : list hvalue) :
  existsb (is_str s) (map (reify k h) elems) = existsb (is_hstr s) elems.
Proof.
  induction elems as [|x elems IH]; [reflexivity|].
  cbn [map existsb]. now rewrite is_str_reify, IH.
Qed.

(** Reading an old cell of a heap that extends [h0]. *)
Lemma read_old (h : heap) (l : loc) :
  extends h -> l < n0 ->
  exists c, h0 !! l = Some c /\ read l h = (Ok c, h)
            /\ Forall (val_below n0) (cell_values c).
Proof.
  intros [_ Hsame] Hl. destruct (old_cell l Hl) as (c & Hc & Hbelow).
  exists c. split; [exact Hc|]. split; [|exact Hbelow].
  unfold read. now rewrite (Hsame l Hl), Hc.
Qed.

Lemma method_includes_sim (h : heap) (x : hvalue) (s : string) :
  extends h -> val_below n0 x ->
  exists r, method_includes_h x s h = (r, h)
            /\ agree eq r (method_includes (reify (S d) h0 x) s).
Proof.
  intros Hext Hx. destruct x as [| | | | |l]; cbn [method_includes_h reify];
    try (eexists; split; [reflexivity|]; cbn; reflexivity).
  cbn [val_below] in Hx.
  destruct (read_old h l Hext Hx) as (c & Hc & Hread & _).
  unfold hbind. rewrite Hread, Hc.
  destruct c as [o|elems]; eexists; (split; [reflexivity|]); cbn.
  - reflexivity.
  - symmetry. apply existsb_is_str.
Qed.

Local Abbreviation kept_as := (Abstraction.kept_as h0 d).

Lemma filter_not_sim (h : heap) (l : list hvalue) :
  extends h -> Forall (val_below n0) l ->
  exists r,
    filter_not_h (fun tag => method_includes_h tag "svelte") l h = (r, h)
    /\ agree kept_as r
         (filter_not (fun tag => method_includes tag "svelte")
            (map (reify (S d) h0) l)).
Proof.
  intros Hext. induction l as [|x l IH]; intros Hl.
  - eexists. split; [reflexivity|]. cbn. split; [reflexivity | constructor].
  - apply Forall_cons in Hl. destruct Hl as [Hx Hl].
    destruct (method_includes_sim h x "svelte" Hext Hx) as (rb & Hrun & Hrb).
    destruct (IH Hl) as (rl & Hrunl & Hrl).
    cbn [filter_not_h filter_not map]. unfold hbind at 1. rewrite Hrun.
    destruct rb as [b|e],
      (method_includes (reify (S d) h0 x) "svelte") as [b'|e'];
      cbn in Hrb; try contradiction; subst.
    + unfold hbind at 1. rewrite Hrunl. cbn [bindR].
      destruct rl as [kept|e],
        (filter_not (fun tag => method_includes tag "svelte")
           (map (reify (S d) h0) l)) as [tags|e'];
        cbn in Hrl; try contradiction.
      * destruct Hrl as [-> Hkept]. eexists. split; [reflexivity|].
        cbn. destruct b'; split; cbn [map]; auto.
      * subst. eexists. split; [reflexivity|]. reflexivity.
    + eexists. split; [reflexivity|]. reflexivity.
Qed.

Local Abbreviation stable := (Abstraction.stable n0).
Local Abbreviation grows := (Abstraction.grows n0).

Lemma grows_refl h : grows h h.
Proof. split; auto. Qed.

Lemma grows_trans h1 h2 h3 : grows h1 h2 -> grows h2 h3 -> grows h1 h3.
Proof.
  intros [L1 S1] [L2 S2]. split; [lia|].
  intros l Hl Hlt. rewrite S2 by lia. now apply S1.
Qed.

Lemma grows_alloc h c : grows h (h ++ [c]).
Proof.
  split; [rewrite length_app; lia|].
  intros l _ Hl. now apply lookup_app_l.
Qed.

Lemma grows_write h c : grows h (<[n0 := c]> h).
Proof.
  split; [now rewrite length_insert|].
  intros l Hl _. apply list_lookup_insert_ne. congruence.
Qed.

Lemma grows_extends h h' : extends h -> grows h h' -> extends h'.
Proof.
  intros [Hn Hsame] [Hlen Hg]. split; [lia|].
  intros l Hl. rewrite Hg by lia. now apply Hsame.
Qed.

Lemma grows_stable h h' v : grows h h' -> stable h v -> stable h' v.
Proof.
  intros [_ Hg] [Hv|(l & elems & -> & Hl & Hcell & Helems)]; [now left|].
  right. exists l, elems. repeat split; auto.
  rewrite Hg; [exact Hcell | lia | now apply lookup_lt_Some in Hcell].
Qed.

Lemma reify_stable h k v :
  extends h -> stable h v ->
  reify k h v
  = match v with
    | HRef l =>
        if (l <? n0)%nat then reify k h0 v
        else match k, h !! l with
             | S k', Some (CArr elems) => Arr (map (reify k' h0) elems)
             | _, _ => Undefined
             end
    | _ => reify k h0 v
    end.
Proof.
  intros Hext [Hv|(l & elems & -> & Hl & Hcell & Helems)].
  - rewrite (reify_old h k v Hext Hv). destruct v as [| | | | |l]; auto.
    cbn [val_below] in Hv. apply Nat.ltb_lt in Hv. now rewrite Hv.
  - assert (Hge : (l <? n0)%nat = false) by (apply Nat.ltb_ge; lia).
    rewrite Hge. destruct k as [|k]; [reflexivity|].
    cbn [reify]. rewrite Hcell. f_equal.
    apply map_ext_Forall. revert Helems. apply List.Forall_impl.
    intros x Hx. now apply reify_old.
Qed.

Lemma reify_grows h h' k v :
  extends h -> grows h h' -> stable h v -> reify k h' v = reify k h v.
Proof.
  intros Hext Hg Hv.
  rewrite (reify_stable h' k v (grows_extends h h' Hext Hg)
             (grows_stable h h' v Hg Hv)).
  rewrite (reify_stable h k v Hext Hv).
  destruct v as [| | | | |l]; try reflexivity.
  destruct (l <? n0)%nat eqn:Hl; [reflexivity|].
  destruct Hv as [Hv|(l' & elems & [= ->] & Hl' & Hcell & _)].
  - cbn [val_below] in Hv. apply Nat.ltb_ge in Hl. lia.
  - destruct Hg as [_ Hg]. rewrite Hg; [reflexivity | lia |].
    now apply lookup_lt_Some in Hcell.
Qed.

Lemma reify_props_grows h h' k (o : hprops) :
  extends h -> grows h h' -> Forall (fun kv => stable h (snd kv)) o ->
  reify_props k h' o = reify_props k h o.
Proof.
  intros Hext Hg Ho. unfold reify_props. apply map_ext_Forall.
  revert Ho. apply List.Forall_impl. intros [key x] Hx. cbn [fst snd] in *.
  f_equal. now apply reify_grows.
Qed.

Lemma keys_reify_props k h (o : hprops) : keys (reify_props k h o) = keys o.
Proof.
  unfold keys, reify_props. rewrite map_map. apply map_ext. now intros [].
Qed.

Lemma obj_get_reify_props k h (o : hprops) key :
  obj_get (reify_props k h o) key = reify k h <$> obj_get o key.
Proof.
  induction o as [|[key' x] o IH]; [reflexivity|].
  cbn [reify_props map obj_get fst snd].
  destruct (String.eqb key key'); [reflexivity | exact IH].
Qed.

Lemma obj_set_reify_props k h (o : hprops) key v :
  reify_props k h (obj_set key v o)
  = obj_set key (reify k h v) (reify_props k h o).
Proof.
  induction o as [|[key' x] o IH]; [reflexivity|].
  cbn [reify_props map obj_set fst snd].
  destruct (String.eqb key key'); cbn [map fst snd]; [reflexivity|].
  f_equal. exact IH.
Qed.

Lemma obj_set_stable h (o : hprops) key v :
  Forall (fun kv => stable h (snd kv)) o -> stable h v ->
  Forall (fun kv => stable h (snd kv)) (obj_set key v o).
Proof.
  intros Ho Hv. induction o as [|[key' x] o IH]; cbn [obj_set].
  - constructor; [exact Hv | constructor].
  - apply Forall_cons in Ho. destruct Ho as [Hx Ho].
    destruct (String.eqb key key'); constructor; auto.
Qed.

Lemma obj_get_stable h (o : hprops) key v :
  Forall (fun kv => stable h (snd kv)) o -> obj_get o key = Some v ->
  stable h v.
Proof.
  intros Ho. induction o as [|[key' x] o IH]; [discriminate|].
  apply Forall_cons in Ho. destruct Ho as [Hx Ho]. cbn [obj_get].
  destruct (String.eqb key key'); [|now apply IH].
  now intros [= <-].
Qed.

Lemma reify_S_ref k h l :
  reify (S k) h (HRef l)
  = match h !! l with
    | Some (CObj o) => Obj (reify_props k h o)
    | Some (CArr elems) => Arr (map (reify k h) elems)
    | None => Undefined
    end.
Proof. reflexivity. Qed.

(** The tree of a stable reference is an object or an array. *)
Lemma reify_ref h l :
  extends h -> stable h (HRef l) ->
  exists c, h !! l = Some c
    /\ Forall (val_below n0) (cell_values c)
    /\ reify D h (HRef l)
       = match c with
         | CObj o => Obj (reify_props (S d) h0 o)
         | CArr elems => Arr (map (reify (S d) h0) elems)
         end.
Proof.
  intros Hext [Hv|(l' & elems & [= <-] & Hl & Hcell & Helems)].
  - cbn [val_below] in Hv.
    destruct (read_old h l Hext Hv) as (c & Hc & Hread & Hbelow).
    exists c. pose proof Hext as [_ Hsame].
    split; [now rewrite (Hsame l Hv)|]. split; [exact Hbelow|].
    rewrite (reify_old h D (HRef l) Hext Hv).
    rewrite reify_S_ref, Hc. destruct c; reflexivity.
  - exists (CArr elems). split; [exact Hcell|]. split; [exact Helems|].
    rewrite reify_S_ref, Hcell. f_equal.
    apply map_ext_Forall. revert Helems. apply List.Forall_impl.
    intros x Hx. now apply reify_old.
Qed.

Lemma truthy_sim h v :
  extends h -> stable h v -> truthy (reify D h v) = truthy_h v.
Proof.
  intros Hext Hv. destruct v as [| | | | |l]; try reflexivity.
  destruct (reify_ref h l Hext Hv) as (c & _ & _ & ->).
  destruct c; reflexivity.
Qed.

Lemma chars_below (s : string) : Forall (val_below n0) (map HStr (chars s)).
Proof. apply Forall_forall. intros x Hx. apply list_elem_of_In, in_map_iff in Hx.
  destruct Hx as (c & <- & _). exact I. Qed.

Lemma spread_sim h v :
  extends h -> stable h v ->
  exists r, spread_h v h = (r, h) /\ agree kept_as r (spread (reify D h v)).
Proof.
  intros Hext Hv. destruct v as [| | | | s|l];
    try (eexists; split; [reflexivity|]; reflexivity).
  - eexists. split; [reflexivity|]. cbn. split; [|apply chars_below].
    now rewrite map_map.
  - destruct (reify_ref h l Hext Hv) as (c & Hc & Hbelow & ->).
    cbn [spread_h]. unfold hbind, read. rewrite Hc.
    destruct c as [o|elems]; eexists; (split; [reflexivity|]); cbn.
    + reflexivity.
    + split; [reflexivity | exact Hbelow].
Qed.

Local Abbreviation inv := (Abstraction.inv h0 d).

Lemma inv_alloc h nd c : inv h nd -> inv (h ++ [c]) nd.
Proof.
  intros (Hext & Hlen & o & Ho & -> & Hst).
  pose proof (grows_alloc h c) as Hg.
  split; [exact (grows_extends _ _ Hext Hg)|].
  split; [rewrite length_app; lia|].
  exists o. split; [now rewrite lookup_app_l|].
  split; [symmetry; now apply reify_props_grows|].
  revert Hst. apply List.Forall_impl. intros kv. now apply grows_stable.
Qed.

Lemma inv_write h nd o key v :
  inv h nd -> h !! n0 = Some (CObj o) -> stable h v ->
  inv (<[n0 := CObj (obj_set key v o)]> h) (obj_set key (reify D h v) nd).
Proof.
  intros (Hext & Hlen & o' & Ho' & -> & Hst) Ho Hv.
  rewrite Ho in Ho'. injection Ho' as <-.
  pose proof (grows_write h (CObj (obj_set key v o))) as Hg.
  pose proof (obj_set_stable h o key v Hst Hv) as Hst'.
  split; [exact (grows_extends _ _ Hext Hg)|].
  split; [now rewrite length_insert|].
  exists (obj_set key v o). split; [now apply list_lookup_insert_eq|].
  split.
  - rewrite (reify_props_grows h _ D _ Hext Hg Hst').
    symmetry. apply obj_set_reify_props.
  - revert Hst'. apply List.Forall_impl. intros kv. now apply grows_stable.
Qed.

Lemma read_obj_inv h nd :
  inv h nd ->
  exists o, read_obj n0 h = (Ok o, h) /\ h !! n0 = Some (CObj o)
            /\ nd = reify_props D h o
            /\ Forall (fun kv => stable h (snd kv)) o.
Proof.
  intros (Hext & Hlen & o & Ho & Hnd & Hst). exists o.
  split; [|auto]. unfold read_obj, hbind, read. now rewrite Ho.
Qed.

(** The guard of [merge], on a value that is not absent. *)
Lemma skipped_sim (h : heap) value :
  n0 < length h -> val_below n0 value ->
  value <> HUndefined -> value <> HNull ->
  skipped (reify D h0 value)
  = hvalue_eqb value (HRef (length h)) || is_hstr "" value.
Proof.
  intros Hlen Hv Hu Hn. destruct value as [| | b|n|s|l]; try congruence;
    try reflexivity.
  cbn [val_below] in Hv.
  destruct (old_cell l Hv) as (c & Hc & _).
  rewrite reify_S_ref, Hc. cbn [hvalue_eqb is_hstr].
  assert (Hne : (l =? length h)%nat = false) by (apply Nat.eqb_neq; lia).
  rewrite Hne. destruct c; reflexivity.
Qed.

Lemma is_array_sim (h : heap) value :
  extends h -> val_below n0 value ->
  is_array_h value h = (Ok (is_array (reify D h0 value)), h).
Proof.
  intros Hext Hv. destruct value as [| | | | |l]; try reflexivity.
  cbn [val_below] in Hv.
  destruct (read_old h l Hext Hv) as (c & Hc & Hread & _).
  cbn [is_array_h]. unfold hbind. rewrite Hread.
  rewrite reify_S_ref, Hc. destruct c; reflexivity.
Qed.

Lemma lookup_snoc (h : heap) (c : cell) : (h ++ [c]) !! length h = Some c.
Proof. rewrite lookup_app_r by lia. now rewrite Nat.sub_diag. Qed.

(** The array of the combined tags stands for the tags [merge] combines. *)
Lemma combined_tags_sim (h : heap) nd o value :
  inv h nd -> h !! n0 = Some (CObj o) -> val_below n0 value ->
  exists r h',
    combined_tags_h o value h = (r, h')
    /\ agree (fun filtered tags =>
                inv h' nd /\ h' !! n0 = Some (CObj o)
                /\ stable h' (HRef filtered)
                /\ reify D h' (HRef filtered) = Arr tags)
             r (combined_tags nd (reify D h0 value)).
Proof.
  intros Hinv Ho Hv. unfold combined_tags_h, combined_tags. cbv zeta.
  pose proof Hinv as (Hext & Hlen & o' & Ho' & Hnd & Hst).
  rewrite Ho in Ho'. injection Ho' as <-.
  set (tags0 := default HUndefined (obj_get o "tags")).
  assert (Hst0 : stable h tags0).
  { unfold tags0. destruct (obj_get o "tags") as [t|] eqn:Ht; cbn.
    - exact (obj_get_stable h o "tags" t Hst Ht).
    - now left. }
  assert (Hpure0 : default Undefined (obj_get nd "tags") = reify D h tags0).
  { rewrite Hnd, obj_get_reify_props. unfold tags0.
    destruct (obj_get o "tags"); reflexivity. }
  rewrite Hpure0. unfold or_else. rewrite (truthy_sim h tags0 Hext Hst0).
  (* the heap and the tags after [newData.tags || []] *)
  assert (Hor : exists tags1 h1,
    (if truthy_h tags0 then hret tags0
     else (empty <~ alloc (CArr []) ;; hret (HRef empty))) h = (Ok tags1, h1)
    /\ inv h1 nd /\ h1 !! n0 = Some (CObj o) /\ stable h1 tags1
    /\ (if truthy_h tags0 then reify D h tags0 else Arr [])
       = reify D h1 tags1).
  { destruct (truthy_h tags0).
    - exists tags0, h. split; [reflexivity|]. split; [exact Hinv|].
      split; [exact Ho|]. split; [exact Hst0 | reflexivity].
    - exists (HRef (length h)), (h ++ [CArr []]).
      pose proof (inv_alloc h nd (CArr []) Hinv) as Hinv1.
      split; [reflexivity|]. split; [exact Hinv1|].
      split; [now rewrite lookup_app_l|].
      assert (Hfresh : stable (h ++ [CArr []]) (HRef (length h))).
      { right. exists (length h), [].
        split; [reflexivity|]. split; [exact Hlen|].
        split; [apply lookup_snoc | constructor]. }
      split; [exact Hfresh|].
      destruct Hinv1 as (Hext1 & _).
      destruct (reify_ref _ _ Hext1 Hfresh) as (c & Hc & _ & ->).
      rewrite lookup_snoc in Hc. now injection Hc as <-. }
  destruct Hor as (tags1 & h1 & Hrun1 & Hinv1 & Ho1 & Hst1 & Hpure1).
  unfold hbind at 1. rewrite Hrun1, Hpure1.
  pose proof Hinv1 as (Hext1 & Hlen1 & _).
  destruct (spread_sim h1 tags1 Hext1 Hst1) as (rold & Hrunold & Hold).
  unfold hbind at 1. rewrite Hrunold.
  destruct rold as [old|e], (spread (reify D h1 tags1)) as [old_p|e'];
    cbn in Hold; try contradiction;
    [|subst; eexists _, _; split; [reflexivity | reflexivity]].
  destruct Hold as [-> Hold]. cbn [bindR].
  destruct (spread_sim h1 value Hext1 (or_introl Hv)) as (rnew & Hrunnew & Hnew).
  rewrite (reify_old h1 D value Hext1 Hv) in Hnew.
  unfold hbind at 1. rewrite Hrunnew.
  destruct rnew as [new|e], (spread (reify D h0 value)) as [new_p|e'];
    cbn in Hnew; try contradiction;
    [|subst; eexists _, _; split; [reflexivity | reflexivity]].
  destruct Hnew as [-> Hnew]. cbn [bindR].
  unfold hbind at 1. unfold alloc at 1.
  set (h2 := h1 ++ [CArr (old ++ new)]).
  pose proof (inv_alloc h1 nd (CArr (old ++ new)) Hinv1) as Hinv2.
  fold h2 in Hinv2. pose proof Hinv2 as (Hext2 & Hlen2 & _).
  assert (Hall : Forall (val_below n0) (old ++ new))
    by (apply Forall_app; auto).
  destruct (filter_not_sim h2 (old ++ new) Hext2 Hall) as (rk & Hrunk & Hk).
  rewrite map_app in Hk.
  unfold hbind at 1. rewrite Hrunk.
  destruct rk as [kept|e],
    (filter_not (fun tag => method_includes tag "svelte")
       (map (reify (S d) h0) old ++ map (reify (S d) h0) new)) as [kept_p|e'];
    cbn in Hk; try contradiction;
    [|subst; eexists _, _; split; [reflexivity | reflexivity]].
  destruct Hk as [-> Hkept].
  eexists _, _. split; [reflexivity|]. cbn [agree].
  pose proof (inv_alloc h2 nd (CArr kept) Hinv2) as Hinv3.
  split; [exact Hinv3|].
  split.
  { rewrite lookup_app_l by lia. unfold h2. now rewrite lookup_app_l. }
  assert (Hfresh : stable (h2 ++ [CArr kept]) (HRef (length h2))).
  { right. exists (length h2), kept.
    split; [reflexivity|]. split; [exact Hlen2|].
    split; [apply lookup_snoc | exact Hkept]. }
  split; [exact Hfresh|].
  destruct Hinv3 as (Hext3 & _).
  destruct (reify_ref _ _ Hext3 Hfresh) as (c & Hc & _ & ->).
  rewrite lookup_snoc in Hc. now injection Hc as <-.
Qed.

(** An entry of [additional], on the record being built. *)
Lemma merge_present_sim (h : heap) nd key value :
  inv h nd -> val_below n0 value ->
  value <> HUndefined -> value <> HNull ->
  exists r h',
    merge_present_h n0 key value h = (r, h')
    /\ agree (fun _ nd' => inv h' nd') r
             (merge_entry nd (key, reify D h0 value)).
Proof.
  intros Hinv Hv Hu Hn. unfold merge_present_h, merge_entry.
  pose proof Hinv as (_ & Hlen & _).
  rewrite (skipped_sim h value Hlen Hv Hu Hn).
  unfold hbind at 1. unfold alloc at 1.
  pose proof (inv_alloc h nd (CArr []) Hinv) as Hinv1.
  set (h1 := h ++ [CArr []]) in *.
  destruct (hvalue_eqb value (HRef (length h)) || is_hstr "" value).
  { exists (Ok tt), h1. split; [reflexivity | exact Hinv1]. }
  destruct (read_obj_inv h1 nd Hinv1) as (o & Hread & Ho & Hnd & Hst).
  pose proof Hinv1 as (Hext1 & Hlen1 & _).
  unfold hbind at 1. rewrite Hread.
  replace (keys nd) with (keys o) by (rewrite Hnd; symmetry; apply keys_reify_props).
  destruct (keys_include (keys o) key); cbn [negb].
  - (* the record has the key *)
    destruct (String.eqb key "tags") eqn:Hk; cbn [andb].
    + unfold hbind at 1. rewrite (is_array_sim h1 value Hext1 Hv).
      destruct (is_array (reify D h0 value)).
      * destruct (combined_tags_sim h1 nd o value Hinv1 Ho Hv)
          as (r & h2 & Hrun & Hr).
        unfold hbind at 1. rewrite Hrun.
        destruct r as [filtered|e],
          (combined_tags nd (reify D h0 value)) as [tags|e'];
          cbn [agree] in Hr; try contradiction;
          [|subst; exists (Throw e'), h2; split; reflexivity].
        destruct Hr as (Hinv2 & Ho2 & Hst2 & Htags). cbn [bindR].
        assert (Hread2 : read_obj n0 h2 = (Ok o, h2))
          by (unfold read_obj, hbind, read; now rewrite Ho2).
        unfold hbind at 1. rewrite Hread2.
        eexists (Ok tt), _. split; [reflexivity|]. cbn [agree].
        rewrite <- Htags.
        exact (inv_write h2 nd o "tags" (HRef filtered) Hinv2 Ho2 Hst2).
      * exists (Ok tt), h1. split; [reflexivity | exact Hinv1].
    + exists (Ok tt), h1. split; [reflexivity | exact Hinv1].
  - (* a new key *)
    eexists (Ok tt), _. split; [reflexivity|]. cbn [agree].
    rewrite <- (reify_old h1 D value Hext1 Hv).
    exact (inv_write h1 nd o key value Hinv1 Ho (or_introl Hv)).
Qed.

Lemma merge_entry_sim (h : heap) nd key value :
  inv h nd -> val_below n0 value ->
  exists r h',
    merge_entry_h n0 (key, value) h = (r, h')
    /\ agree (fun _ nd' => inv h' nd') r
             (merge_entry nd (key, reify D h0 value)).
Proof.
  intros Hinv Hv.
  destruct value as [| | b|n|s|l];
    try (apply merge_present_sim; [assumption | assumption | discriminate
                                  | discriminate]);
    (exists (Ok tt), h; split; [reflexivity | exact Hinv]).
Qed.

Lemma forEach_sim (entries : hprops) : forall (h : heap) nd,
  inv h nd -> Forall (fun kv => val_below n0 (snd kv)) entries ->
  exists r h',
    forEach_h entries n0 h = (r, h')
    /\ agree (fun _ nd' => inv h' nd') r
             (forEach (reify_props D h0 entries) nd).
Proof.
  induction entries as [|[key value] entries IH]; intros h nd Hinv He.
  - exists (Ok tt), h. split; [reflexivity | exact Hinv].
  - apply Forall_cons in He. destruct He as [Hv He]. cbn [snd] in Hv.
    destruct (merge_entry_sim h nd key value Hinv Hv) as (r & h1 & Hrun & Hr).
    cbn [forEach_h].
    change (forEach (reify_props D h0 ((key, value) :: entries)) nd)
      with (bindR (merge_entry nd (key, reify D h0 value))
                  (forEach (reify_props D h0 entries))).
    unfold hbind at 1. rewrite Hrun.
    destruct r as [[]|e], (merge_entry nd (key, reify D h0 value)) as [nd1|e'];
      cbn [agree] in Hr; try contradiction.
    + cbn [bindR]. exact (IH h1 nd1 Hr He).
    + subst. exists (Throw e'), h1. split; reflexivity.
Qed.

Lemma imap_keys_map {V W} (f : V -> W) (l : list V) : forall g : nat -> string,
  imap (fun i x => (g i, x)) (map f l)
  = map (fun kv => (fst kv, f (snd kv))) (imap (fun i x => (g i, x)) l).
Proof.
  induction l as [|x l IH]; intros g; [reflexivity|].
  cbn [map imap fst snd]. f_equal. exact (IH (fun i => g (S i))).
Qed.

Lemma indexed_map {V W} (f : V -> W) (l : list V) :
  indexed (map f l) = map (fun kv => (fst kv, f (snd kv))) (indexed l).
Proof. apply imap_keys_map. Qed.

Lemma imap_keys_below (l : list hvalue) : forall g : nat -> string,
  Forall (val_below n0) l ->
  Forall (fun kv => val_below n0 (snd kv)) (imap (fun i x => (g i, x)) l).
Proof.
  induction l as [|x l IH]; intros g Hl; [constructor|].
  apply Forall_cons in Hl. destruct Hl as [Hx Hl].
  cbn [imap]. constructor; [exact Hx | exact (IH (fun i => g (S i)) Hl)].
Qed.

Lemma indexed_below (l : list hvalue) :
  Forall (val_below n0) l ->
  Forall (fun kv => val_below n0 (snd kv)) (indexed l).
Proof. apply imap_keys_below. Qed.

(** The own properties of a value of [h0]. *)
Lemma own_entries_sim (h : heap) v :
  extends h -> val_below n0 v ->
  exists o, own_entries_h v h = (Ok o, h)
            /\ own_entries (reify (S D) h0 v) = reify_props D h0 o
            /\ Forall (fun kv => val_below n0 (snd kv)) o.
Proof.
  intros Hext Hv. destruct v as [| | | | s|l];
    try (exists []; split; [reflexivity|]; split; [reflexivity | constructor]).
  - exists (indexed (map HStr (chars s))). split; [reflexivity|]. split.
    + cbn [reify own_entries]. unfold reify_props.
      rewrite <- (indexed_map (reify D h0)), map_map. reflexivity.
    + apply indexed_below, chars_below.
  - cbn [val_below] in Hv.
    destruct (read_old h l Hext Hv) as (c & Hc & Hread & Hbelow).
    cbn [own_entries_h]. unfold hbind. rewrite Hread.
    rewrite reify_S_ref, Hc. destruct c as [o|elems]; cbn [cell_values] in Hbelow.
    + exists o. split; [reflexivity|]. split; [reflexivity|].
      apply Forall_forall. intros [k x] Hin. cbn [snd].
      rewrite Forall_forall in Hbelow. apply Hbelow.
      apply list_elem_of_In. apply list_elem_of_In in Hin.
      apply in_map_iff. now exists (k, x).
    + exists (indexed elems). split; [reflexivity|]. split.
      * cbn [own_entries]. unfold reify_props. apply indexed_map.
      * now apply indexed_below.
Qed.

Lemma merge_sim (base additional : hvalue) :
  val_below n0 base -> val_below n0 additional ->
  exists r h',
    merge_h base additional h0 = (r, h')
    /\ agree (fun v t => t = reify (S D) h' v) r
             (merge (reify (S D) h0 base) (reify (S D) h0 additional)).
Proof.
  intros Hb Ha. unfold merge_h, merge.
  unfold hbind at 1. unfold alloc at 1.
  set (h1 := h0 ++ [CObj []]).
  assert (Hext1 : extends h1).
  { split; [unfold h1; rewrite length_app; lia|].
    intros l Hl. unfold h1. now rewrite lookup_app_l. }
  destruct (own_entries_sim h1 base Hext1 Hb) as (o & Hrun & Hpure & Ho).
  unfold hbind at 1. rewrite Hrun, Hpure.
  unfold hbind at 1. unfold write at 1.
  set (h2 := <[n0 := CObj o]> h1).
  assert (Hlen1 : n0 < length h1) by (unfold h1; rewrite length_app; cbn; lia).
  assert (Hinv2 : inv h2 (reify_props D h0 o)).
  { assert (Hext2 : extends h2).
    { split; [unfold h2; rewrite length_insert; lia|].
      intros l Hl. unfold h2. rewrite list_lookup_insert_ne by lia.
      now apply Hext1. }
    split; [exact Hext2|]. split; [unfold h2; now rewrite length_insert|].
    exists o. split; [unfold h2; now apply list_lookup_insert_eq|].
    split.
    - unfold reify_props. apply map_ext_Forall. revert Ho.
      apply List.Forall_impl. intros [k x] Hx. cbn [fst snd] in *.
      f_equal. symmetry. now apply reify_old.
    - revert Ho. apply List.Forall_impl. intros kv Hkv. now left. }
  pose proof Hinv2 as (Hext2 & _).
  assert (Hentries : exists r,
    Object_entries_h additional h2 = (r, h2)
    /\ agree (fun entries entries_p =>
                entries_p = reify_props D h0 entries
                /\ Forall (fun kv => val_below n0 (snd kv)) entries)
             r (Object_entries (reify (S D) h0 additional))).
  { destruct (own_entries_sim h2 additional Hext2 Ha) as (es & Hes & Hp & Hbelow).
    destruct additional as [| | | | |l];
      try (exists (Throw (TypeError "Cannot convert undefined or null to object"));
           split; reflexivity);
      try (exists (Ok es); split; [exact Hes|]; cbn [agree];
           split; [exact Hp | exact Hbelow]).
    exists (Ok es). split; [exact Hes|].
    cbn [val_below] in Ha. destruct (old_cell l Ha) as (c & Hc & _).
    rewrite reify_S_ref, Hc in Hp |- *.
    destruct c; cbn [Object_entries agree]; split; auto. }
  destruct Hentries as (re & Hrune & Hre).
  unfold hbind at 1. rewrite Hrune.
  destruct re as [entries|e],
    (Object_entries (reify (S D) h0 additional)) as [entries_p|e'];
    cbn [agree] in Hre; try contradiction;
    [|subst; exists (Throw e'), h2; split; reflexivity].
  destruct Hre as [-> Hbelow]. cbn [bindR].
  destruct (forEach_sim entries h2 _ Hinv2 Hbelow) as (rf & h3 & Hrunf & Hrf).
  unfold hbind at 1. rewrite Hrunf.
  destruct rf as [[]|e], (forEach (reify_props D h0 entries) (reify_props D h0 o))
    as [nd'|e']; cbn [agree] in Hrf; try contradiction;
    [|subst; exists (Throw e'), h3; split; reflexivity].
  exists (Ok (HRef n0)), h3. split; [reflexivity|]. cbn [bindR agree].
  destruct Hrf as (_ & _ & o' & Ho' & -> & _).
  now rewrite reify_S_ref, Ho'.
Qed.

End Refinement.

(** [merge_h] refines [merge]: on a heap whose cells refer to one another
    only, [merge_h] returns a record that stands for the tree [merge]
    returns on the trees of its arguments, and throws what [merge] throws.
    The trees are read to a depth of at least three: a record, its
    properties, the elements of its arrays. *)
Theorem merge_h_refines (h0 : heap) (d : nat) (base additional : hvalue) :
  closed_below (length h0) h0 ->
  val_below (length h0) base -> val_below (length h0) additional ->
  exists r h',
    merge_h base additional h0 = (r, h')
    /\ agree (fun v t => t = reify (3 + d) h' v) r
             (merge (reify (3 + d) h0 base) (reify (3 + d) h0 additional)).
Proof. intros Hc Hb Ha. exact (merge_sim h0 Hc d base additional Hb Ha). Qed.

(** The two embeddings on the example of the specification. *)
Example merge_h_on_the_example :
  let h0 : heap :=
    [CArr [HStr "ui"; HStr "svelte-icons"]; CObj [("tags", HRef 0)];
     CArr [HStr "framework"; HStr "svelte"]; CObj [("tags", HRef 2)]] in
  reify 3 h0 (HRef 1) = Obj [("tags", Arr [Str "ui"; Str "svelte-icons"])]
  /\ reify 3 h0 (HRef 3) = Obj [("tags", Arr [Str "framework"; Str "svelte"])]
  /\ reify 3 (snd (merge_h (HRef 1) (HRef 3) h0)) (HRef 4)
     = Obj [("tags", Arr [Str "ui"; Str "framework"])].
Proof. repeat split; vm_compute; reflexivity. Qed.

(** ** The batch scheduler and the entry point *)

Section SchedulerFacts.

Variable E : env.

(** Every task of a batch settles: [allSettled] fulfils with one result
    for each task. *)
Lemma allSettled_settles (tasks : list (M JS.value)) : forall w,
  exists rs w', allSettled tasks w = (Ok rs, w') /\ length rs = length tasks.
Proof.
  induction tasks as [|t ts IH]; intros w; cbn [allSettled].
  - exists [], w. split; reflexivity.
  - destruct (t w) as [r w1]. destruct (IH w1) as (rs & w2 & Hrs & Hlen).
    exists (r :: rs), w2. unfold bind, ret. rewrite Hrs.
    split; [reflexivity | cbn [length]; now rewrite Hlen].
Qed.

Lemma batch_start_in_range (i n : nat) :
  (i <? batch_count n)%nat = true -> i * chunkSize < n.
Proof.
  unfold batch_count, chunkSize. intros H. apply Nat.ltb_lt in H.
  pose proof (Nat.div_mod_eq (n + (10 - 1)) 10) as Hdm.
  pose proof (Nat.mod_upper_bound (n + (10 - 1)) 10) as Hmod. lia.
Qed.

Lemma splice_batch_length (i : nat) (items parsed : list JS.value) :
  i * chunkSize < length parsed ->
  length items
  = length (slice (i * chunkSize) ((i + 1) * chunkSize) parsed) ->
  length (splice (i * chunkSize) chunkSize items parsed) = length parsed.
Proof.
  unfold splice, slice, chunkSize. intros Hi Hitems.
  rewrite !length_app, Hitems, !length_firstn, !length_skipn. lia.
Qed.

(** A turn of the loop leaves the catalog as long as it was and never
    throws: the loop fulfils with a catalog of the same length. *)
Lemma batches_length (fuel : nat) : forall i parsed w,
  exists parsed' w',
    batches E fuel i parsed w = (Ok parsed', w')
    /\ length parsed' = length parsed.
Proof.
  induction fuel as [|fuel IH]; intros i parsed w; cbn [batches].
  - exists parsed, w. split; reflexivity.
  - destruct (i <? batch_count (length parsed))%nat eqn:Hi.
    + destruct (allSettled_settles
                  (map (updateItem E)
                     (slice (i * chunkSize) ((i + 1) * chunkSize) parsed)) w)
        as (rs & w1 & Hrs & Hlen).
      unfold bind at 1. rewrite Hrs.
      unfold bind at 1. unfold writeProgress, emit at 1.
      set (parsed1 := splice (i * chunkSize) chunkSize
                        (map settled_value rs) parsed).
      assert (Hlen1 : length parsed1 = length parsed).
      { apply splice_batch_length; [now apply batch_start_in_range|].
        now rewrite !length_map in *. }
      destruct (IH (S i) parsed1
                  (MkWorld (cache w1)
                     (Progress (Nat.min (length parsed1) ((i + 1) * chunkSize))
                               (length parsed1) :: trace w1)))
        as (parsed' & w' & Hrun & Hlen').
      exists parsed', w'. split; [exact Hrun | congruence].
    + exists parsed, w. split; reflexivity.
Qed.

(** The fuel [transform] gives the loop is enough: with it, and with any
    larger fuel, the loop stops because its condition fails. *)
Lemma batches_fuel (fuel : nat) : forall i parsed w extra,
  batch_count (length parsed) - i <= fuel ->
  batches E (fuel + extra) i parsed w = batches E fuel i parsed w.
Proof.
  induction fuel as [|fuel IH]; intros i parsed w extra Hfuel.
  - assert (Hstop : (i <? batch_count (length parsed))%nat = false)
      by (apply Nat.ltb_ge; lia).
    destruct extra; cbn [batches Nat.add]; [reflexivity|].
    now rewrite Hstop.
  - cbn [batches Nat.add].
    destruct (i <? batch_count (length parsed))%nat eqn:Hi; [|reflexivity].
    destruct (allSettled_settles
                (map (updateItem E)
                   (slice (i * chunkSize) ((i + 1) * chunkSize) parsed)) w)
      as (rs & w1 & Hrs & Hlen).
    unfold bind at 1 3. rewrite Hrs.
    unfold bind at 1 2. unfold writeProgress, emit.
    apply IH.
    rewrite splice_batch_length;
      [lia | now apply batch_start_in_range | now rewrite !length_map in *].
Qed.

Lemma lookup_map {A B} (f : A -> B) (l : list A) (i : nat) :
  map f l !! i = f <$> l !! i.
Proof.
  revert i. induction l as [|x l IH]; intros [|i]; cbn; auto.
Qed.

(** Each result of [allSettled] is the outcome of the task at its place,
    run in some world. *)
Lemma allSettled_positions (f : JS.value -> M JS.value) (items : list JS.value) :
  forall w rs w',
    allSettled (map f items) w = (Ok rs, w') ->
    forall j item, items !! j = Some item ->
      exists wj, rs !! j = Some (fst (f item wj)).
Proof.
  induction items as [|x items IH]; intros w rs w' Hrun j item Hj.
  - discriminate.
  - cbn [map allSettled] in Hrun.
    destruct (f x w) as [r w1] eqn:Hx.
    destruct (allSettled_settles (map f items) w1) as (rs1 & w2 & Hrs1 & _).
    unfold bind, ret in Hrun. rewrite Hrs1 in Hrun.
    injection Hrun as <- <-.
    destruct j as [|j]; cbn in Hj |- *.
    + injection Hj as <-. exists w. now rewrite Hx.
    + exact (IH w1 rs1 w2 Hrs1 j item Hj).
Qed.

Lemma slice_lookup {A} (from to j : nat) (l : list A) :
  j < to - from -> slice from to l !! j = l !! (from + j).
Proof.
  intros Hj. unfold slice.
  rewrite (lookup_take_lt (skipn from l) (to - from) j Hj).
  apply lookup_drop.
Qed.

Lemma splice_lookup {A} (start count k : nat) (items l : list A) :
  start <= length l ->
  splice start count items l !! k
  = if (k <? start)%nat then l !! k
    else if (k <? start + length items)%nat then items !! (k - start)
    else l !! (count + (k - length items)).
Proof.
  intros Hstart. unfold splice.
  assert (Hlen : length (firstn start l) = start)
    by (rewrite length_firstn; lia).
  destruct (k <? start)%nat eqn:H1.
  - apply Nat.ltb_lt in H1. rewrite lookup_app_l by lia.
    now apply lookup_take_lt.
  - apply Nat.ltb_ge in H1. rewrite lookup_app_r by lia. rewrite Hlen.
    destruct (k <? start + length items)%nat eqn:H2.
    + apply Nat.ltb_lt in H2. now rewrite lookup_app_l by lia.
    + apply Nat.ltb_ge in H2. rewrite lookup_app_r by lia.
      rewrite lookup_drop. f_equal. lia.
Qed.

(** The loop, from its turn [i] on: the places below the batch [i] have
    been replaced, the others hold what the catalog held. *)
Lemma batches_from (orig : list JS.value) (fuel : nat) : forall i cur w,
  length cur = length orig ->
  batch_count (length orig) - i <= fuel ->
  (forall k item, orig !! k = Some item ->
     if (k <? i * chunkSize)%nat
     then exists wk,
            cur !! k = Some (settled_value (fst (updateItem E item wk)))
     else cur !! k = Some item) ->
  exists parsed' w',
    batches E fuel i cur w = (Ok parsed', w')
    /\ length parsed' = length orig
    /\ forall k item, orig !! k = Some item ->
         exists wk,
           parsed' !! k = Some (settled_value (fst (updateItem E item wk))).
Proof.
  assert (Hdone : forall (i : nat) (cur : list JS.value),
    batch_count (length orig) <= i ->
    (forall k item, orig !! k = Some item ->
       if (k <? i * chunkSize)%nat
       then exists wk,
              cur !! k = Some (settled_value (fst (updateItem E item wk)))
       else cur !! k = Some item) ->
    forall k item, orig !! k = Some item ->
      exists wk,
        cur !! k = Some (settled_value (fst (updateItem E item wk)))).
  { intros i cur Hi Hinv k item Hk. specialize (Hinv k item Hk).
    assert (Hlt : (k <? i * chunkSize)%nat = true).
    { apply Nat.ltb_lt. apply lookup_lt_Some in Hk.
      unfold batch_count, chunkSize in *.
      pose proof (Nat.div_mod_eq (length orig + (10 - 1)) 10).
      pose proof (Nat.mod_upper_bound (length orig + (10 - 1)) 10). lia. }
    now rewrite Hlt in Hinv. }
  induction fuel as [|fuel IH]; intros i cur w Hlen Hfuel Hinv.
  - exists cur, w. split; [reflexivity|]. split; [exact Hlen|].
    apply (Hdone i cur); [lia | exact Hinv].
  - cbn [batches].
    destruct (i <? batch_count (length cur))%nat eqn:Hi.
    + pose proof (batch_start_in_range i (length cur) Hi) as Hstart.
      set (items := slice (i * chunkSize) ((i + 1) * chunkSize) cur).
      destruct (allSettled_settles (map (updateItem E) items) w)
        as (rs & w1 & Hrs & Hrslen).
      unfold bind at 1. rewrite Hrs.
      unfold bind at 1. unfold writeProgress, emit at 1.
      set (cur1 := splice (i * chunkSize) chunkSize (map settled_value rs) cur).
      assert (Hitems : length items = Nat.min chunkSize (length cur - i * chunkSize)).
      { unfold items, slice. rewrite length_firstn, length_skipn.
        unfold chunkSize. lia. }
      assert (Hlen1 : length cur1 = length cur).
      { apply splice_batch_length; [exact Hstart|].
        rewrite !length_map in *. exact Hrslen. }
      apply IH; [congruence | rewrite Hlen in *; lia |].
      intros k item Hk. specialize (Hinv k item Hk).
      unfold cur1. rewrite splice_lookup by lia.
      rewrite length_map, Hrslen, length_map, Hitems.
      pose proof (lookup_lt_Some _ _ _ Hk) as Hkn.
      destruct (k <? i * chunkSize)%nat eqn:H1.
      * apply Nat.ltb_lt in H1.
        assert (H1' : (k <? S i * chunkSize)%nat = true)
          by (apply Nat.ltb_lt; unfold chunkSize in *; lia).
        rewrite H1'. exact Hinv.
      * apply Nat.ltb_ge in H1.
        destruct (k <? i * chunkSize
                       + Nat.min chunkSize (length cur - i * chunkSize))%nat
          eqn:H2.
        -- apply Nat.ltb_lt in H2.
           assert (H1' : (k <? S i * chunkSize)%nat = true)
             by (apply Nat.ltb_lt; unfold chunkSize in *; lia).
           rewrite H1'.
           assert (Hitem : items !! (k - i * chunkSize) = Some item).
           { unfold items. rewrite slice_lookup by (unfold chunkSize in *; lia).
             replace (i * chunkSize + (k - i * chunkSize)) with k by lia.
             exact Hinv. }
           destruct (allSettled_positions (updateItem E) items w rs w1 Hrs
                       _ item Hitem) as [wk Hwk].
           exists wk. now rewrite lookup_map, Hwk.
        -- apply Nat.ltb_ge in H2.
           assert (H1' : (k <? S i * chunkSize)%nat = false)
             by (apply Nat.ltb_ge; unfold chunkSize in *; lia).
           rewrite H1'. rewrite <- Hinv. f_equal.
           unfold chunkSize in *. lia.
    + apply Nat.ltb_ge in Hi. rewrite Hlen in Hi.
      exists cur, w. split; [reflexivity|]. split; [exact Hlen|].
      apply (Hdone i cur); [lia | exact Hinv].
Qed.

(** The loop of [transform] fulfils with a catalog of the same length,
    in which every place holds the settled value of the task of the item
    that was at that place. *)
Lemma batches_positions (parsed : list JS.value) (w : world) :
  exists parsed' w',
    batches E (batch_count (length parsed)) 0 parsed w = (Ok parsed', w')
    /\ length parsed' = length parsed
    /\ forall k item, parsed !! k = Some item ->
         exists wk,
           parsed' !! k = Some (settled_value (fst (updateItem E item wk))).
Proof.
  apply batches_from; [reflexivity | lia |].
  intros k item Hk. exact Hk.
Qed.

End SchedulerFacts.

(** ** C2 and C5 *)

Import Sample.

(** C2. When the task of an item rejects, in whatever world it is run,
    the loop of [transform] fulfils with a catalog of the same length in
    which the place of the item holds [undefined]: neither the item as it
    was nor a record. *)
Theorem rejected_task_leaves_undefined
    (E : env) (parsed : list JS.value) (k : nat) (item : JS.value) (w : world) :
  parsed !! k = Some item ->
  (forall w0, exists e, fst (updateItem E item w0) = Throw e) ->
  exists parsed' w',
    batches E (batch_count (length parsed)) 0 parsed w = (Ok parsed', w')
    /\ length parsed' = length parsed
    /\ parsed' !! k = Some Undefined.
Proof.
  intros Hk Hrej.
  destruct (batches_positions E parsed w) as (parsed' & w' & Hrun & Hlen & Hpos).
  exists parsed', w'. split; [exact Hrun|]. split; [exact Hlen|].
  destruct (Hpos k item Hk) as [wk Hwk]. rewrite Hwk.
  destruct (Hrej wk) as [e He]. now rewrite He.
Qed.

Lemma rejected_task_leaves_undefined_witness :
  let E := offline (Ok catalog) false in
  let item := Obj [("title", Str "component 3");
                   ("url", Str "https://github.com/sveltejs")] in
  (catalog !! 3%nat = Some item
   /\ forall w0, exists e, fst (updateItem E item w0) = Throw e)
  /\ exists parsed' w',
       batches E (batch_count (length catalog)) 0 catalog nothing_yet
       = (Ok parsed', w')
       /\ length parsed' = length catalog
       /\ parsed' !! 3%nat = Some Undefined.
Proof.
  intros E item.
  assert (H1 : catalog !! 3%nat = Some item) by reflexivity.
  assert (H2 : forall w0, exists e, fst (updateItem E item w0) = Throw e).
  { intros w0.
    exists (TypeError "Cannot read properties of null (reading '1')").
    vm_compute. reflexivity. }
  split; [split; [exact H1 | exact H2]|].
  exact (rejected_task_leaves_undefined E catalog 3 item nothing_yet H1 H2).
Defined.

(** The run of the sample catalog with every remote service out of reach.
    The component whose remote call fails comes out with nothing filled
    in; the component whose task rejects comes out as [undefined] and is
    handed to the JSON plugin as [null]; the second batch is processed. *)
Example sample_catalog_run :
  let E := offline (Ok catalog) false in
  let run := batches E (batch_count (length catalog)) 0 catalog nothing_yet in
  fst run = Ok catalog_after
  /\ nth 3 catalog_after Null = Undefined
  /\ trace (snd run)
     = [Progress 12 12; Progress 10 12;
        CacheSet "github-sveltejs-svelte"
          (MkEntry (JSON_stringify emptyGithub) "github-sveltejs-svelte");
        GithubCall "sveltejs" "svelte"; CacheGet "github-sveltejs-svelte"]
  /\ fst (transform E "[]" catalog_id nothing_yet)
     = Ok (Arr (<[3%nat := Null]> catalog_after)).
Proof. cbv zeta. repeat split; vm_compute; reflexivity. Qed.

(** An item enriched from the registry and from GitHub: its title stays,
    its tags are combined and filtered, the repository the registry names
    is the one GitHub is asked about. *)
Example updateItem_online :
  fst (updateItem online
         (Obj [("title", Str "Icons!"); ("npm", Str "svelte-icons");
               ("tags", Arr [Str "ui"])])
         nothing_yet)
  = Ok (Obj [("title", Str "Icons!"); ("npm", Str "svelte-icons");
             ("tags", Arr [Str "ui"; Str "icons"]);
             ("description", Str "Icons");
             ("repo", Str "https://github.com/foo/svelte-icons");
             ("stars", Num 42)]).
Proof. vm_compute. reflexivity. Qed.

Section TransformFacts.

Variable E : env.

(** The first digit of a text, as [/[\d]/.exec] finds it. *)
Lemma exec_digit_none (msg : string) :
  all_chars (fun x => negb (digit x)) msg = true ->
  exec (Floating (Class digit)) msg = None.
Proof.
  unfold exec, find. induction msg as [|x msg IH]; [reflexivity|].
  cbn [all_chars]. intros H. apply andb_prop in H. destruct H as [Hx Hmsg].
  cbn [search match_here rmatch].
  destruct (digit x); [discriminate|].
  destruct (search (Class digit) msg) as [[[pre m] rest]|]; [|reflexivity].
  specialize (IH Hmsg). discriminate.
Qed.

(** What [transform] does with a catalog that the engine does not parse,
    on a file it is meant for. *)
Lemma transform_parse_error (json id : string) (w : world) (e : exn) :
  endsWith "src/pages/components/components.json" id = true ->
  filter E id = true ->
  parse_catalog E json = Throw e ->
  transform E json id w
  = (d <- lift (match_index (exec (Floating (Class digit)) (exn_message e)) 0) ;;
     emit (Warn "Could not parse JSON file" id (parseInt d)) ;;
     ret Null)
      (MkWorld (cache w) (Stdout "Starting..." :: trace w)).
Proof.
  intros Hid Hfilter Hparse. unfold transform.
  rewrite Hid, Hfilter. cbn [negb orb].
  unfold bind at 1. unfold emit at 1. unfold try_catch.
  unfold bind at 1. unfold lift at 1. rewrite Hparse. reflexivity.
Qed.

(** C5. When the message of the parse error holds no digit, as the message
    of the engine for a truncated text does not, [transform] on a file it
    is meant for rejects with the [TypeError] of reading the match of
    [null]: it has printed its start and emits no warning. *)
Theorem transform_rejects_without_digit
    (json id : string) (w : world) (e : exn) :
  endsWith "src/pages/components/components.json" id = true ->
  filter E id = true ->
  parse_catalog E json = Throw e ->
  exec (Floating (Class digit)) (exn_message e) = None ->
  transform E json id w
  = (Throw (TypeError "Cannot read properties of null (reading '0')"),
     MkWorld (cache w) (Stdout "Starting..." :: trace w)).
Proof.
  intros Hid Hfilter Hparse Hdigit.
  rewrite (transform_parse_error json id w e Hid Hfilter Hparse).
  unfold bind, lift. rewrite Hdigit. reflexivity.
Qed.

(** When the message holds a digit, [transform] warns and returns [null];
    the position of the warning is the first digit of the message. *)
Lemma transform_warns_with_digit
    (json id : string) (w : world) (e : exn) (d : string) (rest : list string) :
  endsWith "src/pages/components/components.json" id = true ->
  filter E id = true ->
  parse_catalog E json = Throw e ->
  exec (Floating (Class digit)) (exn_message e) = Some (d :: rest) ->
  transform E json id w
  = (Ok Null,
     MkWorld (cache w)
       (Warn "Could not parse JSON file" id (parseInt d)
          :: Stdout "Starting..." :: trace w)).
Proof.
  intros Hid Hfilter Hparse Hdigit.
  rewrite (transform_parse_error json id w e Hid Hfilter Hparse).
  unfold bind, lift. rewrite Hdigit. reflexivity.
Qed.

End TransformFacts.

Lemma transform_rejects_without_digit_witness :
  let E := offline (Throw (SyntaxError "Unexpected end of JSON input")) false in
  (endsWith "src/pages/components/components.json" catalog_id = true
   /\ filter E catalog_id = true
   /\ parse_catalog E "[{" = Throw (SyntaxError "Unexpected end of JSON input")
   /\ exec (Floating (Class digit)) "Unexpected end of JSON input" = None)
  /\ transform E "[{" catalog_id nothing_yet
     = (Throw (TypeError "Cannot read properties of null (reading '0')"),
        MkWorld ∅ [Stdout "Starting..."]).
Proof.
  intros E.
  assert (H1 : endsWith "src/pages/components/components.json" catalog_id = true)
    by (vm_compute; reflexivity).
  assert (H2 : filter E catalog_id = true) by reflexivity.
  assert (H3 : parse_catalog E "[{"
               = Throw (SyntaxError "Unexpected end of JSON input"))
    by reflexivity.
  assert (H4 : exec (Floating (Class digit))
                 (exn_message (SyntaxError "Unexpected end of JSON input"))
               = None)
    by (vm_compute; reflexivity).
  split; [split; [exact H1 | split; [exact H2 | split; [exact H3 | exact H4]]]|].
  exact (transform_rejects_without_digit E "[{" catalog_id nothing_yet
           (SyntaxError "Unexpected end of JSON input") H1 H2 H3 H4).
Defined.

(** The position of a warning is one digit: the first of the message. *)
Example transform_warning_position :
  transform
    (offline (Throw (SyntaxError "Unexpected token } in JSON at position 15"))
       false)
    "[}" catalog_id nothing_yet
  = (Ok Null,
     MkWorld ∅ [Warn "Could not parse JSON file" catalog_id (Some 1%Z);
                Stdout "Starting..."]).
Proof. vm_compute. reflexivity. Qed.

(** * Further properties *)

(** ** The cache-backed fetch wrapper *)

Section GetDataMore.

Variable E : env.

(** Without a hit, a call runs its producer after the read. *)
Lemma getData_no_hit key (producer : M JS.value) w :
  no_hit E w (normalize key) ->
  getData E key producer w
  = (generatedValue <- producer ;;
     _ <- cache_set E (normalize key)
            (MkEntry (JSON_stringify generatedValue) (normalize key)) ;;
     ret generatedValue)
      (MkWorld (cache w) (CacheGet (normalize key) :: trace w)).
Proof.
  intros Hno. unfold getData, try_catch, cache_get.
  unfold bind at 1 2 3 4. unfold emit at 1. cbn [cache].
  destruct Hno as [Hf|[Hnone|(e & He & Hdata)]].
  - rewrite Hf. reflexivity.
  - destruct (cache_get_fault E (normalize key)); cbn [await throw ret];
      [reflexivity|]. rewrite Hnone. reflexivity.
  - destruct (cache_get_fault E (normalize key)); cbn [await throw ret];
      [reflexivity|]. rewrite He. unfold bind, lift. rewrite Hdata.
    reflexivity.
Qed.

(** A call either returns what the cache holds, after the read alone, or
    runs its producer after the read. *)
Lemma getData_cases key (producer : M JS.value) w :
  (exists v, getData E key producer w
             = (Ok v, MkWorld (cache w) (CacheGet (normalize key) :: trace w)))
  \/ getData E key producer w
     = (generatedValue <- producer ;;
        _ <- cache_set E (normalize key)
               (MkEntry (JSON_stringify generatedValue) (normalize key)) ;;
        ret generatedValue)
         (MkWorld (cache w) (CacheGet (normalize key) :: trace w)).
Proof.
  destruct (cache_get_fault E (normalize key)) eqn:Hf.
  { right. apply getData_no_hit. now left. }
  destruct (cache w !! normalize key) as [e|] eqn:He.
  - destruct (data e) as [j|] eqn:Hdata.
    + left. exists (of_json j). now apply (getData_hit E key producer w e j).
    + right. apply getData_no_hit. right. right. eauto.
  - right. apply getData_no_hit. right. now left.
Qed.

End GetDataMore.

(** X1. On a hit, [getData] returns the document the cache holds after one
    read of the cache: whatever the producer is, it is not run, and the
    cache is not written. *)
Theorem getData_hit_skips_producer
    (E : env) (key : string) (w : world) (e : entry) (j : json) :
  cache_get_fault E (normalize key) = false ->
  cache w !! normalize key = Some e ->
  data e = Some j ->
  forall producer : M JS.value,
    getData E key producer w
    = (Ok (of_json j), MkWorld (cache w) (CacheGet (normalize key) :: trace w)).
Proof.
  intros Hf He Hdata producer. exact (getData_hit E key producer w e j Hf He Hdata).
Qed.

Lemma getData_hit_skips_producer_witness :
  let E := offline (Ok []) false in
  let e := MkEntry (Some (JStr "cached")) "npm-x" in
  let w := MkWorld (<["npm-x" := e]> ∅) [] in
  (cache_get_fault E (normalize "npm-x") = false
   /\ cache w !! normalize "npm-x" = Some e
   /\ data e = Some (JStr "cached"))
  /\ getData E "npm-x" (throw (MkExn "Error" "not run")) w
     = (Ok (Str "cached"), MkWorld (cache w) [CacheGet "npm-x"]).
Proof.
  intros E e w.
  assert (H1 : cache_get_fault E (normalize "npm-x") = false) by reflexivity.
  assert (H2 : cache w !! normalize "npm-x" = Some e) by reflexivity.
  assert (H3 : data e = Some (JStr "cached")) by reflexivity.
  split; [split; [exact H1 | split; [exact H2 | exact H3]]|].
  exact (getData_hit_skips_producer E "npm-x" w e (JStr "cached") H1 H2 H3
           (throw (MkExn "Error" "not run"))).
Defined.

(** X2. A read of the cache that fails, and an entry that holds no JSON
    text, are taken for a miss: [getData] runs the producer, returns its
    value and, the write succeeding, puts a new entry under the key. *)
Theorem getData_read_failure_falls_through
    (E : env) (key : string) (producer : M JS.value) (w w1 : world) (v : JS.value) :
  cache_get_fault E (normalize key) = true
  \/ (exists e, cache w !! normalize key = Some e /\ data e = None) ->
  cache_set_fault E (normalize key) = false ->
  producer (MkWorld (cache w) (CacheGet (normalize key) :: trace w)) = (Ok v, w1) ->
  let e := MkEntry (JSON_stringify v) (normalize key) in
  getData E key producer w
  = (Ok v, MkWorld (<[normalize key := e]> (cache w1))
             (CacheSet (normalize key) e :: trace w1)).
Proof.
  intros Hbad Hset Hp e.
  rewrite (getData_no_hit E key producer w) by (unfold no_hit; tauto).
  unfold bind at 1. rewrite Hp.
  unfold bind, cache_set, emit, ret. cbn [cache trace].
  rewrite Hset. reflexivity.
Qed.

Lemma getData_read_failure_falls_through_witness :
  let E := offline (Ok []) false in
  let stale := MkEntry None "npm-x" in
  let w := MkWorld (<["npm-x" := stale]> ∅) [] in
  let producer : M JS.value := ret (Str "fresh") in
  let e := MkEntry (Some (JStr "fresh")) "npm-x" in
  ((cache_get_fault E (normalize "npm-x") = true
    \/ exists e0, cache w !! normalize "npm-x" = Some e0 /\ data e0 = None)
   /\ cache_set_fault E (normalize "npm-x") = false
   /\ producer (MkWorld (cache w) (CacheGet (normalize "npm-x") :: trace w))
      = (Ok (Str "fresh"), MkWorld (cache w) [CacheGet "npm-x"]))
  /\ getData E "npm-x" producer w
     = (Ok (Str "fresh"),
        MkWorld (<["npm-x" := e]> (cache w))
          [CacheSet "npm-x" e; CacheGet "npm-x"]).
Proof.
  intros E stale w producer e.
  assert (H1 : cache_get_fault E (normalize "npm-x") = true
               \/ exists e0, cache w !! normalize "npm-x" = Some e0
                             /\ data e0 = None).
  { right. exists stale. split; reflexivity. }
  assert (H2 : cache_set_fault E (normalize "npm-x") = false) by reflexivity.
  assert (H3 : producer (MkWorld (cache w)
                           (CacheGet (normalize "npm-x") :: trace w))
               = (Ok (Str "fresh"), MkWorld (cache w) [CacheGet "npm-x"]))
    by reflexivity.
  split; [split; [exact H1 | split; [exact H2 | exact H3]]|].
  exact (getData_read_failure_falls_through E "npm-x" producer w
           (MkWorld (cache w) [CacheGet "npm-x"]) (Str "fresh") H1 H2 H3).
Defined.

(** X3. Without a hit, a producer that rejects makes [getData] reject with
    the same exception, in the world the producer left: nothing is
    written to the cache. *)
Theorem getData_producer_rejection
    (E : env) (key : string) (producer : M JS.value) (w w1 : world) (e : exn) :
  no_hit E w (normalize key) ->
  producer (MkWorld (cache w) (CacheGet (normalize key) :: trace w)) = (Throw e, w1) ->
  getData E key producer w = (Throw e, w1).
Proof.
  intros Hno Hp. rewrite (getData_no_hit E key producer w Hno).
  unfold bind at 1. now rewrite Hp.
Qed.

Lemma getData_producer_rejection_witness :
  let E := offline (Ok []) false in
  let oops := MkExn "Error" "unreachable" in
  (no_hit E nothing_yet (normalize "npm-x")
   /\ throw oops (MkWorld (cache nothing_yet)
                    (CacheGet (normalize "npm-x") :: trace nothing_yet))
      = (@Throw JS.value oops, MkWorld ∅ [CacheGet "npm-x"]))
  /\ getData E "npm-x" (throw oops) nothing_yet
     = (Throw oops, MkWorld ∅ [CacheGet "npm-x"]).
Proof.
  intros E oops.
  assert (H1 : no_hit E nothing_yet (normalize "npm-x"))
    by (right; left; reflexivity).
  assert (H2 : throw oops (MkWorld (cache nothing_yet)
                             (CacheGet (normalize "npm-x") :: trace nothing_yet))
               = (@Throw JS.value oops, MkWorld ∅ [CacheGet "npm-x"]))
    by reflexivity.
  split; [split; [exact H1 | exact H2]|].
  exact (getData_producer_rejection E "npm-x" (throw oops) nothing_yet
           (MkWorld ∅ [CacheGet "npm-x"]) oops H1 H2).
Defined.

(** X4. [getData] touches the cache under its own key only: an entry
    under another key that the producer leaves alone is the same after
    the call, whether the call returns or throws. *)
Theorem getData_cache_frame
    (E : env) (key k' : string) (producer : M JS.value) (w w' : world)
    (r : result JS.value) :
  k' <> normalize key ->
  (forall w0 r0 w1, producer w0 = (r0, w1) -> cache w1 !! k' = cache w0 !! k') ->
  getData E key producer w = (r, w') ->
  cache w' !! k' = cache w !! k'.
Proof.
  intros Hk Hp Hrun.
  destruct (getData_cases E key producer w) as [[v Hhit]|Hmiss].
  - rewrite Hhit in Hrun. now injection Hrun as _ <-.
  - rewrite Hmiss in Hrun. unfold bind at 1 in Hrun.
    destruct (producer _) as [[v|e] w1] eqn:Hrunp.
    + apply Hp in Hrunp. cbn [cache] in Hrunp.
      unfold bind, cache_set, emit, ret in Hrun. cbn [cache trace] in Hrun.
      destruct (cache_set_fault E (normalize key));
        injection Hrun as _ <-; cbn [cache]; [exact Hrunp|].
      rewrite lookup_insert_ne by congruence. exact Hrunp.
    + apply Hp in Hrunp. injection Hrun as _ <-. exact Hrunp.
Qed.

Lemma getData_cache_frame_witness :
  let E := offline (Ok []) false in
  let e := MkEntry (Some (JStr "other")) "github-a-b" in
  let w := MkWorld (<["github-a-b" := e]> ∅) [] in
  let producer : M JS.value := ret emptyNpm in
  let stored := MkEntry (JSON_stringify emptyNpm) "npm-x" in
  let w' := MkWorld (<["npm-x" := stored]> (cache w))
              [CacheSet "npm-x" stored; CacheGet "npm-x"] in
  ("github-a-b" <> normalize "npm-x"
   /\ (forall w0 r0 w1, producer w0 = (r0, w1) ->
         cache w1 !! "github-a-b" = cache w0 !! "github-a-b")
   /\ getData E "npm-x" producer w = (Ok emptyNpm, w'))
  /\ cache w' !! "github-a-b" = cache w !! "github-a-b".
Proof.
  intros E e w producer stored w'.
  assert (H1 : "github-a-b" <> normalize "npm-x") by discriminate.
  assert (H2 : forall w0 r0 w1, producer w0 = (r0, w1) ->
                 cache w1 !! "github-a-b" = cache w0 !! "github-a-b").
  { intros w0 r0 w1 [= _ <-]. reflexivity. }
  assert (H3 : getData E "npm-x" producer w = (Ok emptyNpm, w'))
    by reflexivity.
  split; [split; [exact H1 | split; [exact H2 | exact H3]]|].
  exact (getData_cache_frame E "npm-x" "github-a-b" producer w w'
           (Ok emptyNpm) H1 H2 H3).
Defined.

(** ** The key normalizer *)

Lemma append_assoc (a b c : string) : (a +:+ b) +:+ c = a +:+ b +:+ c.
Proof.
  induction a as [|x a IH]; [reflexivity|].
  change (String x ((a +:+ b) +:+ c) = String x (a +:+ b +:+ c)).
  now rewrite IH.
Qed.

(** [replace] on a pattern of one character rewrites its first
    occurrence and keeps what stands before and after it. *)
Lemma replace_first (c : ascii) (rep p q : string) :
  all_chars (fun x => negb (Ascii.eqb x c)) p = true ->
  replace (String c EmptyString) rep (p +:+ String c q) = p +:+ rep +:+ q.
Proof.
  induction p as [|x p IH]; intros Hp.
  - change (EmptyString +:+ String c q) with (String c q).
    cbn [replace String.prefix String.length skip_chars].
    destruct (ascii_dec c c) as [_|Hn]; [|contradiction].
    destruct q; reflexivity.
  - cbn [all_chars] in Hp. apply andb_prop in Hp as [Hx Hp].
    change (String x p +:+ String c q) with (String x (p +:+ String c q)).
    cbn [replace String.prefix].
    destruct (ascii_dec c x) as [->|_];
      [now rewrite Ascii.eqb_refl in Hx|].
    rewrite (IH Hp). reflexivity.
Qed.

Lemma no_at_slash_split (p : string) :
  all_chars no_at_slash p = true ->
  all_chars not_at p = true /\ all_chars not_slash p = true.
Proof.
  intros Hp. split; revert Hp; apply all_chars_impl; intros x Hx;
    unfold no_at_slash in Hx; apply andb_prop in Hx; tauto.
Qed.

(** X5. [normalize] rewrites the first [@] and the first [/] of a key
    and nothing else. With [p] free of both: in [p@q/r] and in [p/q@r],
    where [q] is free of the second of the two, the two occurrences shown
    become [--AT--] and [--SLASH--] while [p], [q] and all of [r], with
    whatever [@] and [/] it holds, stay as they are; a key with one of
    the two only has that one rewritten; a key with neither is kept. *)
Theorem normalize_replaces_first_only (p q r : string) :
  all_chars no_at_slash p = true ->
  (all_chars not_slash q = true ->
   normalize (p +:+ "@" +:+ q +:+ "/" +:+ r)
   = p +:+ "--AT--" +:+ q +:+ "--SLASH--" +:+ r)
  /\ (all_chars not_at q = true ->
      normalize (p +:+ "/" +:+ q +:+ "@" +:+ r)
      = p +:+ "--SLASH--" +:+ q +:+ "--AT--" +:+ r)
  /\ (all_chars not_slash q = true ->
      normalize (p +:+ "@" +:+ q) = p +:+ "--AT--" +:+ q)
  /\ (all_chars not_at q = true ->
      normalize (p +:+ "/" +:+ q) = p +:+ "--SLASH--" +:+ q)
  /\ normalize p = p.
Proof.
  intros Hp. destruct (no_at_slash_split p Hp) as [Hat Hsl].
  unfold normalize. repeat split.
  - intros Hq.
    change (p +:+ "@" +:+ q +:+ "/" +:+ r)
      with (p +:+ String "@" (q +:+ "/" +:+ r)).
    rewrite (replace_first "@" "--AT--" p _ Hat).
    replace (p +:+ "--AT--" +:+ q +:+ "/" +:+ r)
      with ((p +:+ "--AT--" +:+ q) +:+ String "/" r)
      by (now rewrite !append_assoc).
    rewrite (replace_first "/" "--SLASH--" (p +:+ "--AT--" +:+ q) r);
      [now rewrite !append_assoc|].
    change (all_chars not_slash (p +:+ "--AT--" +:+ q) = true).
    now rewrite !all_chars_app, Hsl, Hq.
  - intros Hq.
    replace (p +:+ "/" +:+ q +:+ "@" +:+ r)
      with ((p +:+ "/" +:+ q) +:+ String "@" r)
      by (now rewrite !append_assoc).
    rewrite (replace_first "@" "--AT--" (p +:+ "/" +:+ q) r).
    + replace ((p +:+ "/" +:+ q) +:+ "--AT--" +:+ r)
        with (p +:+ String "/" (q +:+ "--AT--" +:+ r))
        by (now rewrite !append_assoc).
      now rewrite (replace_first "/" "--SLASH--" p _ Hsl).
    + change (all_chars not_at (p +:+ "/" +:+ q) = true).
      now rewrite !all_chars_app, Hat, Hq.
  - intros Hq. change (p +:+ "@" +:+ q) with (p +:+ String "@" q).
    rewrite (replace_first "@" "--AT--" p _ Hat).
    apply replace_absent.
    change (all_chars not_slash (p +:+ "--AT--" +:+ q) = true).
    now rewrite !all_chars_app, Hsl, Hq.
  - intros Hq.
    rewrite (replace_absent "@" "--AT--" (p +:+ "/" +:+ q)).
    + change (p +:+ "/" +:+ q) with (p +:+ String "/" q).
      now apply replace_first.
    + change (all_chars not_at (p +:+ "/" +:+ q) = true).
      now rewrite !all_chars_app, Hat, Hq.
  - rewrite (replace_absent "@" "--AT--" p Hat).
    now apply replace_absent.
Qed.

Lemma normalize_replaces_first_only_witness :
  all_chars no_at_slash "npm-" = true
  /\ normalize ("npm-" +:+ "@" +:+ "sveltejs" +:+ "/" +:+ "kit/next@1")
     = "npm-" +:+ "--AT--" +:+ "sveltejs" +:+ "--SLASH--" +:+ "kit/next@1"
  /\ normalize ("npm-" +:+ "/" +:+ "a/b" +:+ "@" +:+ "c@d")
     = "npm-" +:+ "--SLASH--" +:+ "a/b" +:+ "--AT--" +:+ "c@d".
Proof.
  assert (H : all_chars no_at_slash "npm-" = true) by reflexivity.
  split; [exact H|]. split.
  - exact (proj1 (normalize_replaces_first_only "npm-" "sveltejs" "kit/next@1" H)
             eq_refl).
  - exact (proj1 (proj2 (normalize_replaces_first_only "npm-" "a/b" "c@d" H))
             eq_refl).
Defined.

(** ** The registry fetcher *)

(** X6. [getNpmInfo] on a package name that is a text never rejects:
    whatever the name, the answer of the registry, the content of the
    cache and its faults, it fulfils. *)
Theorem getNpmInfo_never_rejects (E : env) (packageName : string) (w : world) :
  exists v w', getNpmInfo E (Str packageName) w = (Ok v, w').
Proof.
  unfold getNpmInfo. apply getData_fulfils. intros w0.
  apply try_catch_fulfils.
Qed.

(** What the producer of [getNpmInfo] gives when the registry rejects. *)
Lemma npm_producer_rejected (E : env) (packageName : JS.value) (e : exn)
    (h : exn -> M JS.value) (k : JS.value -> M JS.value) (w : world) :
  packageJson E packageName = Rejected e ->
  try_catch (emit (RegistryCall packageName) ;;
             npmInfo <- await (packageJson E packageName) ;; k npmInfo) h w
  = h e (MkWorld (cache w) (RegistryCall packageName :: trace w)).
Proof.
  intros Hrej. unfold try_catch, bind, emit. rewrite Hrej. reflexivity.
Qed.

(** X7. A failure of the registry is remembered. When the registry
    rejects the request for a package, named by a text, and the cache has
    nothing under the key, [getNpmInfo] returns the empty record and
    stores it; the next call for that name returns the empty record from
    the cache, without asking the registry, whatever the registry would
    answer by then. *)
Theorem getNpmInfo_failure_is_cached
    (E E' : env) (packageName : string) (w : world) (e : exn) :
  let k := normalize ("npm-" +:+ packageName) in
  packageJson E (Str packageName) = Rejected e ->
  cache w !! k = None ->
  cache_set_fault E k = false ->
  cache_get_fault E' k = false ->
  let stored := MkEntry (JSON_stringify emptyNpm) k in
  let w1 := MkWorld (<[k := stored]> (cache w))
              (CacheSet k stored :: RegistryCall (Str packageName)
                 :: CacheGet k :: trace w) in
  getNpmInfo E (Str packageName) w = (Ok emptyNpm, w1)
  /\ getNpmInfo E' (Str packageName) w1
     = (Ok emptyNpm, MkWorld (cache w1) (CacheGet k :: trace w1)).
Proof.
  intros k Hrej Hmiss Hset Hget stored w1. split.
  - unfold getNpmInfo. cbn [to_string].
    rewrite getData_miss by exact Hmiss.
    unfold bind at 1.
    rewrite (npm_producer_rejected E (Str packageName) e _ _ _ Hrej).
    unfold ret at 1. unfold bind, cache_set, emit, ret. cbn [cache trace].
    fold k. rewrite Hset. reflexivity.
  - unfold getNpmInfo. cbn [to_string].
    rewrite (getData_hit E' _ _ w1 stored
               (JObj [("description", JNull); ("tags", JArr []);
                      ("repo", JNull); ("url", JNull); ("title", JNull)])).
    + reflexivity.
    + exact Hget.
    + unfold w1. cbn [cache]. apply lookup_insert_eq.
    + reflexivity.
Qed.

Lemma getNpmInfo_failure_is_cached_witness :
  let E := offline (Ok []) false in
  let stored := MkEntry (JSON_stringify emptyNpm) "npm-x" in
  let w1 := MkWorld (<["npm-x" := stored]> ∅)
              [CacheSet "npm-x" stored; RegistryCall (Str "x");
               CacheGet "npm-x"] in
  (packageJson E (Str "x") = Rejected (MkExn "Error" "unreachable")
   /\ cache nothing_yet !! normalize ("npm-" +:+ "x") = None
   /\ cache_set_fault E (normalize ("npm-" +:+ "x")) = false
   /\ cache_get_fault online (normalize ("npm-" +:+ "x")) = false)
  /\ getNpmInfo E (Str "x") nothing_yet = (Ok emptyNpm, w1)
  /\ getNpmInfo online (Str "x") w1
     = (Ok emptyNpm, MkWorld (cache w1) (CacheGet "npm-x" :: trace w1)).
Proof.
  intros E stored w1.
  assert (H1 : packageJson E (Str "x") = Rejected (MkExn "Error" "unreachable"))
    by reflexivity.
  assert (H2 : cache nothing_yet !! normalize ("npm-" +:+ "x") = None)
    by reflexivity.
  assert (H3 : cache_set_fault E (normalize ("npm-" +:+ "x")) = false)
    by reflexivity.
  assert (H4 : cache_get_fault online (normalize ("npm-" +:+ "x")) = false)
    by reflexivity.
  split; [split; [exact H1 | split; [exact H2 | split; [exact H3 | exact H4]]]|].
  exact (getNpmInfo_failure_is_cached E online "x" nothing_yet
           (MkExn "Error" "unreachable") H1 H2 H3 H4).
Defined.

(** *** The repository address of a package *)

Lemma replace_git_plus (t : string) :
  replace_re (Anchored (Lit "git+")) "" ("git+" +:+ t) = t.
Proof. destruct t; reflexivity. Qed.

Lemma prefix_skip (p s : string) :
  String.prefix p s = true -> s = p +:+ skip_chars (String.length p) s.
Proof.
  revert s. induction p as [|c p IH]; intros s Hp; [reflexivity|].
  destruct s as [|d s]; cbn [String.prefix] in Hp; [discriminate|].
  destruct (ascii_dec c d) as [->|]; [|discriminate].
  cbn [String.length skip_chars].
  change (String d s = String d (p +:+ skip_chars (String.length p) s)).
  f_equal. apply IH, Hp.
Qed.

Lemma length_append (s t : string) :
  String.length (s +:+ t) = (String.length s + String.length t)%nat.
Proof.
  induction s as [|c s IH]; [reflexivity|].
  change (S (String.length (s +:+ t)) = S (String.length s + String.length t)).
  now rewrite IH.
Qed.

Lemma append_empty (s : string) : s +:+ EmptyString = s.
Proof.
  induction s as [|c s IH]; [reflexivity|].
  change (String c (s +:+ EmptyString) = String c s). now rewrite IH.
Qed.

Lemma match_dot_git_end (s : string) :
  match_here (Lit ".git" >> Eol) s <> None -> s = ".git".
Proof.
  unfold match_here. cbn [rmatch].
  destruct (String.prefix ".git" s) eqn:Hp; [|congruence].
  apply prefix_skip in Hp. rewrite Hp at 2.
  destruct (skip_chars (String.length ".git") s); [reflexivity | congruence].
Qed.

Lemma search_dot_git_end (u : string) :
  exists m, search (Lit ".git" >> Eol) (u +:+ ".git") = Some (u, m, EmptyString).
Proof.
  induction u as [|c u (m & IH)].
  - eexists. reflexivity.
  - exists m. change (String c u +:+ ".git") with (String c (u +:+ ".git")).
    cbn [search]. rewrite IH.
    destruct (match_here (Lit ".git" >> Eol) (String c (u +:+ ".git")))
      as [[m' rest]|] eqn:Hm; [|reflexivity].
    assert (Heq : String c (u +:+ ".git") = ".git")
      by (apply match_dot_git_end; congruence).
    apply (f_equal String.length) in Heq.
    cbn [String.length] in Heq. rewrite length_append in Heq.
    cbn [String.length] in Heq. lia.
Qed.

Lemma replace_dot_git (u : string) :
  replace_re (Floating (Lit ".git" >> Eol)) "" (u +:+ ".git") = u.
Proof.
  unfold replace_re, find. destruct (search_dot_git_end u) as (m & ->).
  change (u +:+ EmptyString +:+ EmptyString = u).
  now rewrite !append_empty.
Qed.

(** X8. The repository address [getNpmInfo] reports is the address of
    the registry metadata without its leading [git+] and its final
    [.git], and [null] when nothing is left. Whatever stands between the
    two is kept as it is, an inner [.git] included. The other fields are
    read from the metadata, [undefined] standing for a missing one. *)
Theorem getNpmInfo_strips_repository_address
    (E : env) (packageName : JS.value) (w : world)
    (o ro : props) (u : string) :
  no_hit E w (normalize ("npm-" +:+ to_string packageName)) ->
  packageJson E packageName = Fulfilled (Obj o) ->
  obj_get o "repository" = Some (Obj ro) ->
  obj_get ro "url" = Some (Str ("git+" +:+ u +:+ ".git")) ->
  exists w',
    getNpmInfo E packageName w
    = (Ok (Obj [("description", default Undefined (obj_get o "description"));
                ("tags", default Undefined (obj_get o "keywords"));
                ("url", default Undefined (obj_get o "homepage"));
                ("repo", if String.eqb u "" then Null else Str u);
                ("title", default Undefined (obj_get o "name"))]), w').
Proof.
  intros Hno Hpkg Hrepo Hurl. unfold getNpmInfo.
  rewrite getData_no_hit by exact Hno.
  set (w0 := MkWorld _ _).
  set (v := Obj [("description", _); _; _; _; _]).
  match goal with
  | |- exists _, bind ?c _ _ = _ =>
      assert (Hprod : exists w1, c w0 = (Ok v, w1))
  end.
  { unfold try_catch, bind, emit, lift, ret. rewrite Hpkg.
    cbn [await ret get_prop own_entries]. rewrite Hrepo.
    cbn [default from_option id truthy get_prop own_entries]. rewrite Hurl.
    cbn [default from_option id].
    change (or_else (Str ("git+" +:+ u +:+ ".git")) (Str EmptyString))
      with (Str ("git+" +:+ u +:+ ".git")).
    cbn [method_replace]. rewrite replace_git_plus. cbn [method_replace].
    rewrite replace_dot_git. eexists. reflexivity. }
  destruct Hprod as (w1 & Hprod).
  unfold bind at 1. rewrite Hprod.
  unfold bind, cache_set, emit, ret.
  destruct (cache_set_fault E _); eexists; reflexivity.
Qed.

Lemma getNpmInfo_strips_repository_address_witness :
  let o := [("name", Str "svelte-icons");
            ("description", Str "Icons");
            ("keywords", Arr [Str "svelte"; Str "icons"]);
            ("repository",
             Obj [("type", Str "git");
                  ("url", Str "git+https://github.com/foo/svelte-icons.git")])] in
  let ro := [("type", Str "git");
             ("url", Str "git+https://github.com/foo/svelte-icons.git")] in
  (no_hit online nothing_yet (normalize ("npm-" +:+ to_string (Str "svelte-icons")))
   /\ packageJson online (Str "svelte-icons") = Fulfilled (Obj o)
   /\ obj_get o "repository" = Some (Obj ro)
   /\ obj_get ro "url"
      = Some (Str ("git+" +:+ "https://github.com/foo/svelte-icons" +:+ ".git")))
  /\ exists w',
       getNpmInfo online (Str "svelte-icons") nothing_yet
       = (Ok (Obj [("description", Str "Icons");
                   ("tags", Arr [Str "svelte"; Str "icons"]);
                   ("url", Undefined);
                   ("repo", Str "https://github.com/foo/svelte-icons");
                   ("title", Str "svelte-icons")]), w').
Proof.
  intros o ro.
  assert (H1 : no_hit online nothing_yet
                 (normalize ("npm-" +:+ to_string (Str "svelte-icons"))))
    by (right; left; reflexivity).
  assert (H2 : packageJson online (Str "svelte-icons") = Fulfilled (Obj o))
    by reflexivity.
  assert (H3 : obj_get o "repository" = Some (Obj ro)) by reflexivity.
  assert (H4 : obj_get ro "url"
               = Some (Str ("git+" +:+ "https://github.com/foo/svelte-icons"
                            +:+ ".git"))) by reflexivity.
  split; [split; [exact H1 | split; [exact H2 | split; [exact H3 | exact H4]]]|].
  exact (getNpmInfo_strips_repository_address online (Str "svelte-icons")
           nothing_yet o ro "https://github.com/foo/svelte-icons" H1 H2 H3 H4).
Defined.

(** ** The hosting fetchers *)

Lemma first_chars_append (a b : string) :
  first_chars (String.length a) (a +:+ b) = a.
Proof.
  induction a as [|x a IH]; [destruct b; reflexivity|].
  change (String x (first_chars (String.length a) (a +:+ b)) = String x a).
  now rewrite IH.
Qed.

Lemma consumed_append (a b : string) : consumed (a +:+ b) b = a.
Proof.
  unfold consumed. rewrite length_append.
  replace (String.length a + String.length b - String.length b)%nat
    with (String.length a) by lia.
  apply first_chars_append.
Qed.

(** The greedy [[...]+] takes a whole run of characters of the class when
    the text stops there or goes on with a character outside the class,
    and what follows in the pattern accepts the rest. *)
Lemma plus_class_run {A} (p : ascii -> bool) (s1 s2 : string)
    (k : string -> option A) (a : A) :
  s1 <> EmptyString -> all_chars p s1 = true ->
  match s2 with EmptyString => true | String c _ => negb (p c) end = true ->
  k s2 = Some a ->
  plus_class p (s1 +:+ s2) k = Some a.
Proof.
  intros Hne Hall Hstop Hk. induction s1 as [|c s1 IH]; [congruence|].
  change (String c s1 +:+ s2) with (String c (s1 +:+ s2)).
  cbn [all_chars] in Hall. apply andb_prop in Hall as [Hc Hall].
  cbn [plus_class]. rewrite Hc.
  destruct s1 as [|d s1].
  - change (EmptyString +:+ s2) with s2.
    assert (Hnone : plus_class p s2 k = None).
    { destruct s2 as [|x s2]; [reflexivity|]. cbn [plus_class].
      apply negb_true_iff in Hstop. now rewrite Hstop. }
    now rewrite Hnone.
  - rewrite IH by (congruence || assumption). reflexivity.
Qed.

Lemma segment_spec (s : string) :
  segment s = true -> s <> EmptyString /\ all_chars not_slash s = true.
Proof.
  unfold segment. intros H. apply andb_prop in H as [Hne Hall].
  split; [|exact Hall]. intros ->. discriminate.
Qed.

Lemma path_rest_stop (s : string) :
  path_rest s = true ->
  match s with EmptyString => true | String c _ => negb (not_slash c) end = true.
Proof.
  destruct s as [|c s]; [reflexivity|]. cbn [path_rest]. unfold not_slash.
  intros ->. reflexivity.
Qed.

Lemma prefix_empty (s : string) : String.prefix EmptyString s = true.
Proof. destruct s; reflexivity. Qed.

(** The two groups of the patterns on a path of two segments. *)
Lemma segments_match {A} (owner repo rest : string)
    (g : string -> list string -> A) :
  segment owner = true -> segment repo = true -> path_rest rest = true ->
  rmatch (Group (ClassPlus not_slash) >> Lit "/" >> Group (ClassPlus not_slash))
    (owner +:+ "/" +:+ repo +:+ rest) [] (fun r c => Some (g r c))
  = Some (g rest [owner; repo]).
Proof.
  intros Ho Hr Hrest.
  apply segment_spec in Ho as [Ho1 Ho2]. apply segment_spec in Hr as [Hr1 Hr2].
  cbn [rmatch]. apply plus_class_run; [exact Ho1 | exact Ho2 | reflexivity |].
  change ("/" +:+ repo +:+ rest) with (String "/" (repo +:+ rest)).
  cbn [String.prefix String.length skip_chars app].
  destruct (ascii_dec "/" "/") as [_|Hne]; [|congruence].
  rewrite prefix_empty. apply plus_class_run; [exact Hr1 | exact Hr2 | now apply path_rest_stop |].
  rewrite consumed_append.
  change (String "/" (repo +:+ rest)) with ("/" +:+ repo +:+ rest).
  rewrite consumed_append. reflexivity.
Qed.

(** What comes before the path in the patterns. *)
Lemma prefix_match {A} (p : platform) (pre x : string)
    (k : string -> list string -> option A) :
  In pre (prefixes p) ->
  match url_pattern p with
  | Anchored r | Floating r =>
      rmatch r (pre +:+ x) [] k
      = rmatch (Group (ClassPlus not_slash) >> Lit "/"
                >> Group (ClassPlus not_slash)) x [] k
  end.
Proof.
  pose (retry := fun o : option A =>
                   match o with Some a => Some a | None => None end).
  assert (Hretry : forall o, retry o = o) by (now intros [a|]).
  set (R := rmatch _ x [] k).
  destruct p; cbn [prefixes In url_pattern github_url gitlab_url]; intros H.
  - destruct H as [<-|[<-|[<-|[]]]].
    + transitivity (retry R); [destruct x; reflexivity | apply Hretry].
    + transitivity (retry (retry R));
        [destruct x; reflexivity | now rewrite !Hretry].
    + destruct x; reflexivity.
  - destruct H as [<-|[]]; destruct x; reflexivity.
Qed.

Lemma prefix_form (p : platform) (pre x : string) :
  In pre (prefixes p) -> form p (pre +:+ x) = true.
Proof.
  destruct p; cbn [prefixes In]; intros H.
  - destruct H as [<-|[<-|[<-|[]]]]; destruct x; reflexivity.
  - destruct H as [<-|[]]; destruct x; reflexivity.
Qed.

(** The match array of a fetcher's pattern on the address of a
    repository. *)
Lemma exec_repository_url (p : platform) (pre owner repo rest : string) :
  In pre (prefixes p) ->
  segment owner = true -> segment repo = true -> path_rest rest = true ->
  exec (url_pattern p) (pre +:+ owner +:+ "/" +:+ repo +:+ rest)
  = Some [pre +:+ owner +:+ "/" +:+ repo; owner; repo].
Proof.
  intros Hpre Ho Hr Hrest.
  pose proof (prefix_match p pre (owner +:+ "/" +:+ repo +:+ rest)
                (fun rest0 caps =>
                   Some (consumed (pre +:+ owner +:+ "/" +:+ repo +:+ rest)
                           rest0 :: caps, rest0)) Hpre) as Hp.
  assert (Hpat : url_pattern p
                 = Anchored match url_pattern p with
                            | Anchored r | Floating r => r end)
    by (destruct p; reflexivity).
  rewrite Hpat. destruct (url_pattern p) as [r|r];
  unfold exec, find, match_here; rewrite Hp;
  rewrite (segments_match owner repo rest _ Ho Hr Hrest);
  replace (pre +:+ owner +:+ "/" +:+ repo +:+ rest)
    with ((pre +:+ owner +:+ "/" +:+ repo) +:+ rest)
    by (now rewrite !append_assoc);
  now rewrite consumed_append.
Qed.

Lemma fetcher_on_repository_url
    (E : env) (p : platform) (pre owner repo rest : string) (w : world) :
  In pre (prefixes p) ->
  segment owner = true -> segment repo = true -> path_rest rest = true ->
  fetcher E p (Str (pre +:+ owner +:+ "/" +:+ repo +:+ rest)) w
  = match p with
    | Github => getGithubInfo E (Str ("https://github.com/" +:+ owner
                                      +:+ "/" +:+ repo)) w
    | Gitlab => getGitlabInfo E (Str ("https://gitlab.com/" +:+ owner
                                      +:+ "/" +:+ repo)) w
    end.
Proof.
  intros Hpre Ho Hr Hrest.
  pose proof (exec_repository_url p pre owner repo rest Hpre Ho Hr Hrest) as Hx.
  pose proof (prefix_form p pre (owner +:+ "/" +:+ repo +:+ rest) Hpre) as Hf.
  destruct p; cbn [fetcher url_pattern form] in *.
  - pose proof (exec_repository_url Github "https://github.com/" owner repo
                  EmptyString (or_introl eq_refl) Ho Hr eq_refl) as Hy.
    pose proof (prefix_form Github "https://github.com/"
                  (owner +:+ "/" +:+ repo +:+ EmptyString)
                  (or_introl eq_refl)) as Hg.
    rewrite !append_empty in Hy, Hg. cbn [url_pattern form] in Hy, Hg.
    unfold getGithubInfo. unfold github_form in Hf, Hg.
    rewrite <- !negb_orb, Hf, Hg, Hx, Hy. reflexivity.
  - pose proof (exec_repository_url Gitlab "https://gitlab.com/" owner repo
                  EmptyString (or_introl eq_refl) Ho Hr eq_refl) as Hy.
    pose proof (prefix_form Gitlab "https://gitlab.com/"
                  (owner +:+ "/" +:+ repo +:+ EmptyString)
                  (or_introl eq_refl)) as Hg.
    rewrite !append_empty in Hy, Hg. cbn [url_pattern form] in Hy, Hg.
    unfold getGitlabInfo. unfold gitlab_form in Hf, Hg.
    rewrite Hf, Hg, Hx, Hy. reflexivity.
Qed.

(** X9. A hosting fetcher reads the owner and the repository off the
    address and nothing else: two addresses of the same repository, with
    any of the beginnings the fetcher accepts and anything after the
    second path segment, are looked up alike (same result, same cache,
    same effects). *)
Theorem hosting_fetcher_same_repository
    (E : env) (p : platform) (pre pre' owner repo rest rest' : string)
    (w : world) :
  In pre (prefixes p) -> In pre' (prefixes p) ->
  segment owner = true -> segment repo = true ->
  path_rest rest = true -> path_rest rest' = true ->
  fetcher E p (Str (pre +:+ owner +:+ "/" +:+ repo +:+ rest)) w
  = fetcher E p (Str (pre' +:+ owner +:+ "/" +:+ repo +:+ rest')) w.
Proof.
  intros Hpre Hpre' Ho Hr Hrest Hrest'.
  rewrite (fetcher_on_repository_url E p pre owner repo rest w)
    by assumption.
  rewrite (fetcher_on_repository_url E p pre' owner repo rest' w)
    by assumption.
  reflexivity.
Qed.

Lemma hosting_fetcher_same_repository_witness :
  (In "https://github.com/" (prefixes Github)
   /\ In "ssh://git@github.com/" (prefixes Github)
   /\ segment "sveltejs" = true /\ segment "svelte" = true
   /\ path_rest "/tree/master" = true /\ path_rest "" = true)
  /\ fetcher online Github
       (Str ("https://github.com/" +:+ "sveltejs" +:+ "/" +:+ "svelte"
             +:+ "/tree/master")) nothing_yet
     = fetcher online Github
         (Str ("ssh://git@github.com/" +:+ "sveltejs" +:+ "/" +:+ "svelte"
               +:+ "")) nothing_yet.
Proof.
  assert (H1 : In "https://github.com/" (prefixes Github))
    by (left; reflexivity).
  assert (H2 : In "ssh://git@github.com/" (prefixes Github))
    by (right; left; reflexivity).
  assert (H3 : segment "sveltejs" = true) by reflexivity.
  assert (H4 : segment "svelte" = true) by reflexivity.
  assert (H5 : path_rest "/tree/master" = true) by reflexivity.
  assert (H6 : path_rest "" = true) by reflexivity.
  split; [tauto|].
  exact (hosting_fetcher_same_repository online Github
           "https://github.com/" "ssh://git@github.com/" "sveltejs" "svelte"
           "/tree/master" "" nothing_yet H1 H2 H3 H4 H5 H6).
Defined.

(** X10. On the address of a repository a hosting fetcher never rejects,
    whatever the remote service answers and whatever the cache holds. *)
Theorem hosting_fetcher_fulfils_on_repository_url
    (E : env) (p : platform) (pre owner repo rest : string) (w : world) :
  In pre (prefixes p) ->
  segment owner = true -> segment repo = true -> path_rest rest = true ->
  exists v w',
    fetcher E p (Str (pre +:+ owner +:+ "/" +:+ repo +:+ rest)) w = (Ok v, w').
Proof.
  intros Hpre Ho Hr Hrest. apply hosting_fetcher_fulfils_on_match.
  rewrite (exec_repository_url p pre owner repo rest Hpre Ho Hr Hrest).
  discriminate.
Qed.

Lemma hosting_fetcher_fulfils_on_repository_url_witness :
  (In "https://gitlab.com/" (prefixes Gitlab)
   /\ segment "inkscape" = true /\ segment "inkscape" = true
   /\ path_rest "/-/issues" = true)
  /\ exists v w',
       fetcher (offline (Ok []) true) Gitlab
         (Str ("https://gitlab.com/" +:+ "inkscape" +:+ "/" +:+ "inkscape"
               +:+ "/-/issues")) nothing_yet = (Ok v, w').
Proof.
  assert (H1 : In "https://gitlab.com/" (prefixes Gitlab))
    by (left; reflexivity).
  assert (H2 : segment "inkscape" = true) by reflexivity.
  assert (H3 : path_rest "/-/issues" = true) by reflexivity.
  split; [tauto|].
  exact (hosting_fetcher_fulfils_on_repository_url (offline (Ok []) true)
           Gitlab "https://gitlab.com/" "inkscape" "inkscape" "/-/issues"
           nothing_yet H1 H2 H2 H3).
Defined.

(** X11. When the remote service rejects the request for a repository,
    the fetcher sends that one request, returns the empty record of its
    platform and stores it: the failure is kept in the cache under the
    key of the repository. *)
Theorem hosting_fetcher_remote_failure
    (E : env) (p : platform) (pre owner repo rest : string) (w : world)
    (e : exn) :
  let k := normalize (host_key p owner repo) in
  let stored := MkEntry (JSON_stringify (emptyResponse p)) k in
  In pre (prefixes p) ->
  segment owner = true -> segment repo = true -> path_rest rest = true ->
  no_hit E w k ->
  remote_answer E p owner repo = Rejected e ->
  cache_set_fault E k = false ->
  fetcher E p (Str (pre +:+ owner +:+ "/" +:+ repo +:+ rest)) w
  = (Ok (emptyResponse p),
     MkWorld (<[k := stored]> (cache w))
       (CacheSet k stored :: remote_call p owner repo :: CacheGet k
          :: trace w)).
Proof.
  intros k stored Hpre Ho Hr Hrest Hno Hrej Hset.
  rewrite (fetcher_on_repository_url E p pre owner repo rest w)
    by assumption.
  pose proof (exec_repository_url p _ owner repo EmptyString
                match p return In match p with
                                  | Github => "https://github.com/"
                                  | Gitlab => "https://gitlab.com/"
                                  end (prefixes p)
                with Github | Gitlab => or_introl eq_refl end
                Ho Hr eq_refl) as Hx.
  rewrite !append_empty in Hx.
  destruct p; cbn [url_pattern host_key remote_answer remote_call emptyResponse]
    in *.
  - unfold getGithubInfo. rewrite Hx.
    match goal with
    | |- (if ?b then _ else _) _ = _ =>
        replace b with false
          by (destruct owner; [discriminate Ho | reflexivity])
    end.
    unfold bind at 1 2. unfold lift, match_index. cbn [nth].
    rewrite getData_no_hit by exact Hno.
    unfold try_catch, bind, emit, lift. rewrite Hrej. fold k.
    cbn [promise_catch await ret]. unfold cache_set, bind, emit.
    cbn [cache trace get_prop]. rewrite Hset. reflexivity.
  - unfold getGitlabInfo. rewrite Hx.
    match goal with
    | |- (if ?b then _ else _) _ = _ =>
        replace b with false
          by (destruct owner; [discriminate Ho | reflexivity])
    end.
    unfold bind at 1 2. unfold lift, match_index. cbn [nth].
    rewrite getData_no_hit by exact Hno.
    unfold try_catch, bind, emit, lift. rewrite Hrej. fold k.
    cbn [promise_catch await ret]. unfold cache_set, bind, emit.
    cbn [cache trace get_prop]. rewrite Hset. reflexivity.
Qed.

Lemma hosting_fetcher_remote_failure_witness :
  let E := offline (Ok []) false in
  let k := normalize (host_key Github "foo" "bar") in
  let stored := MkEntry (JSON_stringify (emptyResponse Github)) k in
  (In "git://github.com/" (prefixes Github)
   /\ segment "foo" = true /\ segment "bar" = true /\ path_rest "" = true
   /\ no_hit E nothing_yet k
   /\ remote_answer E Github "foo" "bar" = Rejected (MkExn "Error" "unreachable")
   /\ cache_set_fault E k = false)
  /\ fetcher E Github
       (Str ("git://github.com/" +:+ "foo" +:+ "/" +:+ "bar" +:+ ""))
       nothing_yet
     = (Ok (emptyResponse Github),
        MkWorld (<[k := stored]> (cache nothing_yet))
          (CacheSet k stored :: remote_call Github "foo" "bar" :: CacheGet k
             :: trace nothing_yet)).
Proof.
  intros E k stored.
  assert (H1 : In "git://github.com/" (prefixes Github))
    by (right; right; left; reflexivity).
  assert (H2 : segment "foo" = true) by reflexivity.
  assert (H3 : segment "bar" = true) by reflexivity.
  assert (H4 : path_rest "" = true) by reflexivity.
  assert (H5 : no_hit E nothing_yet k) by (right; left; reflexivity).
  assert (H6 : remote_answer E Github "foo" "bar"
               = Rejected (MkExn "Error" "unreachable")) by reflexivity.
  assert (H7 : cache_set_fault E k = false) by reflexivity.
  split; [tauto|].
  exact (hosting_fetcher_remote_failure E Github "git://github.com/" "foo"
           "bar" "" nothing_yet (MkExn "Error" "unreachable")
           H1 H2 H3 H4 H5 H6 H7).
Defined.

(** X12. What [getGithubInfo] returns for a repository GitHub answers
    for: the members [stargazers_count], [description], [name] and
    [homepage] of the answer's [data], under the names [stars],
    [description], [title] and [url], [undefined] standing for a missing
    one. GitHub is asked once, for the owner and the repository of the
    address. *)
Theorem getGithubInfo_reads_answer
    (E : env) (pre owner repo rest : string) (w : world) (o d : props) :
  let k := normalize (host_key Github owner repo) in
  In pre (prefixes Github) ->
  segment owner = true -> segment repo = true -> path_rest rest = true ->
  no_hit E w k ->
  github_repos_get E owner repo = Fulfilled (Obj o) ->
  obj_get o "data" = Some (Obj d) ->
  let v := Obj [("stars", default Undefined (obj_get d "stargazers_count"));
                ("description", default Undefined (obj_get d "description"));
                ("title", default Undefined (obj_get d "name"));
                ("url", default Undefined (obj_get d "homepage"))] in
  exists w',
    getGithubInfo E (Str (pre +:+ owner +:+ "/" +:+ repo +:+ rest)) w
    = (Ok v, w')
    /\ List.filter (fun ev => match ev with
                              | GithubCall _ _ => true
                              | _ => false
                              end) (trace w')
       = GithubCall owner repo
           :: List.filter (fun ev => match ev with
                                     | GithubCall _ _ => true
                                     | _ => false
                                     end) (trace w).
Proof.
  intros k Hpre Ho Hr Hrest Hno Hans Hdata v.
  change (getGithubInfo E) with (fetcher E Github).
  rewrite (fetcher_on_repository_url E Github pre owner repo rest w)
    by assumption.
  pose proof (exec_repository_url Github "https://github.com/" owner repo
                EmptyString (or_introl eq_refl) Ho Hr eq_refl) as Hx.
  rewrite !append_empty in Hx. cbn [url_pattern] in Hx.
  unfold getGithubInfo. rewrite Hx.
  match goal with
  | |- exists _, (if ?b then _ else _) _ = _ /\ _ =>
      replace b with false
        by (destruct owner; [discriminate Ho | reflexivity])
  end.
  unfold bind at 1 2. unfold lift, match_index. cbn [nth].
  rewrite getData_no_hit by exact Hno.
  unfold try_catch, bind, emit, lift. rewrite Hans.
  cbn [promise_catch await ret get_prop own_entries]. rewrite Hdata.
  cbn [default from_option id get_prop own_entries].
  unfold cache_set, bind, emit. cbn [cache trace].
  destruct (cache_set_fault E _); eexists; (split; [reflexivity|]);
    reflexivity.
Qed.

Lemma getGithubInfo_reads_answer_witness :
  let o := [("data", Obj [("stargazers_count", Num 42);
                          ("description", Str "Icons for Svelte");
                          ("name", Str "svelte");
                          ("homepage", Null)])] in
  let d := [("stargazers_count", Num 42);
            ("description", Str "Icons for Svelte");
            ("name", Str "svelte");
            ("homepage", Null)] in
  (In "https://github.com/" (prefixes Github)
   /\ segment "sveltejs" = true /\ segment "svelte" = true
   /\ path_rest "" = true
   /\ no_hit online nothing_yet (normalize (host_key Github "sveltejs" "svelte"))
   /\ github_repos_get online "sveltejs" "svelte" = Fulfilled (Obj o)
   /\ obj_get o "data" = Some (Obj d))
  /\ exists w',
       getGithubInfo online
         (Str ("https://github.com/" +:+ "sveltejs" +:+ "/" +:+ "svelte" +:+ ""))
         nothing_yet
       = (Ok (Obj [("stars", Num 42);
                   ("description", Str "Icons for Svelte");
                   ("title", Str "svelte");
                   ("url", Null)]), w')
       /\ List.filter (fun ev => match ev with
                                 | GithubCall _ _ => true
                                 | _ => false
                                 end) (trace w')
          = [GithubCall "sveltejs" "svelte"].
Proof.
  intros o d.
  assert (H1 : In "https://github.com/" (prefixes Github))
    by (left; reflexivity).
  assert (H2 : segment "sveltejs" = true) by reflexivity.
  assert (H3 : segment "svelte" = true) by reflexivity.
  assert (H4 : path_rest "" = true) by reflexivity.
  assert (H5 : no_hit online nothing_yet
                 (normalize (host_key Github "sveltejs" "svelte")))
    by (right; left; reflexivity).
  assert (H6 : github_repos_get online "sveltejs" "svelte" = Fulfilled (Obj o))
    by reflexivity.
  assert (H7 : obj_get o "data" = Some (Obj d)) by reflexivity.
  split; [tauto|].
  exact (getGithubInfo_reads_answer online "https://github.com/" "sveltejs"
           "svelte" "" nothing_yet o d H1 H2 H3 H4 H5 H6 H7).
Defined.

(** X13. What [getGitlabInfo] returns for a project GitLab answers for:
    the members [star_count], [description], [name], [web_url] and
    [tag_list] of the answer, under the names [stars], [description],
    [title], [url] and [tags], [undefined] standing for a missing one.
    GitLab is asked once, for the path [owner/repo]. *)
Theorem getGitlabInfo_reads_answer
    (E : env) (owner repo rest : string) (w : world) (o : props) :
  let k := normalize (host_key Gitlab owner repo) in
  segment owner = true -> segment repo = true -> path_rest rest = true ->
  no_hit E w k ->
  gitlab_show E (owner +:+ "/" +:+ repo) = Fulfilled (Obj o) ->
  let v := Obj [("stars", default Undefined (obj_get o "star_count"));
                ("description", default Undefined (obj_get o "description"));
                ("title", default Undefined (obj_get o "name"));
                ("url", default Undefined (obj_get o "web_url"));
                ("tags", default Undefined (obj_get o "tag_list"))] in
  exists w',
    getGitlabInfo E
      (Str ("https://gitlab.com/" +:+ owner +:+ "/" +:+ repo +:+ rest)) w
    = (Ok v, w')
    /\ List.filter (fun ev => match ev with
                              | GitlabCall _ => true
                              | _ => false
                              end) (trace w')
       = GitlabCall (owner +:+ "/" +:+ repo)
           :: List.filter (fun ev => match ev with
                                     | GitlabCall _ => true
                                     | _ => false
                                     end) (trace w).
Proof.
  intros k Ho Hr Hrest Hno Hans v.
  change (getGitlabInfo E) with (fetcher E Gitlab).
  rewrite (fetcher_on_repository_url E Gitlab "https://gitlab.com/" owner repo
             rest w) by (assumption || (left; reflexivity)).
  pose proof (exec_repository_url Gitlab "https://gitlab.com/" owner repo
                EmptyString (or_introl eq_refl) Ho Hr eq_refl) as Hx.
  rewrite !append_empty in Hx. cbn [url_pattern] in Hx.
  unfold getGitlabInfo. rewrite Hx.
  match goal with
  | |- exists _, (if ?b then _ else _) _ = _ /\ _ =>
      replace b with false
        by (destruct owner; [discriminate Ho | reflexivity])
  end.
  unfold bind at 1 2. unfold lift, match_index. cbn [nth].
  rewrite getData_no_hit by exact Hno.
  unfold try_catch, bind, emit, lift. rewrite Hans.
  cbn [promise_catch await ret get_prop own_entries].
  unfold cache_set, bind, emit. cbn [cache trace].
  destruct (cache_set_fault E _); eexists; (split; [reflexivity|]);
    reflexivity.
Qed.

Lemma getGitlabInfo_reads_answer_witness :
  let o := [("star_count", Num 7);
            ("description", Str "Vector graphics");
            ("name", Str "inkscape");
            ("web_url", Str "https://gitlab.com/inkscape/inkscape");
            ("tag_list", Arr [Str "svg"])] in
  (segment "inkscape" = true /\ path_rest "/-/issues" = true
   /\ no_hit gitlab_online nothing_yet
        (normalize (host_key Gitlab "inkscape" "inkscape"))
   /\ gitlab_show gitlab_online ("inkscape" +:+ "/" +:+ "inkscape")
      = Fulfilled (Obj o))
  /\ exists w',
       getGitlabInfo gitlab_online
         (Str ("https://gitlab.com/" +:+ "inkscape" +:+ "/" +:+ "inkscape"
               +:+ "/-/issues")) nothing_yet
       = (Ok (Obj [("stars", Num 7);
                   ("description", Str "Vector graphics");
                   ("title", Str "inkscape");
                   ("url", Str "https://gitlab.com/inkscape/inkscape");
                   ("tags", Arr [Str "svg"])]), w')
       /\ List.filter (fun ev => match ev with
                                 | GitlabCall _ => true
                                 | _ => false
                                 end) (trace w')
          = [GitlabCall "inkscape/inkscape"].
Proof.
  intros o.
  assert (H1 : segment "inkscape" = true) by reflexivity.
  assert (H2 : path_rest "/-/issues" = true) by reflexivity.
  assert (H3 : no_hit gitlab_online nothing_yet
                 (normalize (host_key Gitlab "inkscape" "inkscape")))
    by (right; left; reflexivity).
  assert (H4 : gitlab_show gitlab_online ("inkscape" +:+ "/" +:+ "inkscape")
               = Fulfilled (Obj o)) by reflexivity.
  split; [tauto|].
  exact (getGitlabInfo_reads_answer gitlab_online "inkscape" "inkscape"
           "/-/issues" nothing_yet o H1 H1 H2 H3 H4).
Defined.

(** ** Merging *)

(** An entry under another key leaves the value under [key] as it is. *)
Lemma merge_entry_other newData k' v' newData' key :
  merge_entry newData (k', v') = Ok newData' -> k' <> key ->
  obj_get newData' key = obj_get newData key.
Proof.
  unfold merge_entry. intros H Hne.
  destruct (skipped v'); [congruence|].
  destruct (negb (keys_include (keys newData) k')).
  - injection H as <-. now apply obj_get_set_other.
  - destruct (String.eqb k' "tags" && is_array v') eqn:Ht; [|congruence].
    apply andb_prop in Ht as [Ht _]. apply String.eqb_eq in Ht. subst k'.
    destruct (combined_tags newData v') as [tags|e]; cbn [bindR] in H;
      [|discriminate].
    injection H as <-. now apply obj_get_set_other.
Qed.

Lemma forEach_other entries key : forall newData newData',
  forEach entries newData = Ok newData' -> ~ In key (keys entries) ->
  obj_get newData' key = obj_get newData key.
Proof.
  induction entries as [|[k' v'] entries IH]; intros newData newData' H Hn.
  - cbn [forEach] in H. congruence.
  - cbn [forEach] in H. cbn [keys map fst] in Hn.
    destruct (merge_entry newData (k', v')) as [nd1|e] eqn:H1;
      cbn [bindR] in H; [|discriminate].
    rewrite (IH nd1 newData' H) by (intros Hin; apply Hn; now right).
    apply (merge_entry_other _ _ _ _ _ H1). intros ->. apply Hn. now left.
Qed.

Lemma forEach_missing_key entries key v : forall newData newData',
  forEach entries newData = Ok newData' ->
  List.NoDup (keys entries) ->
  obj_get entries key = Some v -> obj_get newData key = None ->
  obj_get newData' key = if skipped v then None else Some v.
Proof.
  induction entries as [|[k' v'] entries IH];
    intros newData newData' H Hnd Hget Hnone; [discriminate|].
  cbn [forEach] in H. cbn [keys map fst] in Hnd.
  apply List.NoDup_cons_iff in Hnd as [Hnotin Hnd].
  destruct (merge_entry newData (k', v')) as [nd1|e] eqn:H1;
    cbn [bindR] in H; [|discriminate].
  cbn [obj_get] in Hget. destruct (String.eqb key k') eqn:Hk.
  - apply String.eqb_eq in Hk. subst k'. injection Hget as ->.
    rewrite (forEach_other entries key nd1 newData' H Hnotin).
    unfold merge_entry in H1. destruct (skipped v).
    + injection H1 as <-. exact Hnone.
    + apply keys_include_get_none in Hnone. rewrite Hnone in H1.
      cbn [negb] in H1. injection H1 as <-. apply obj_get_set_same.
  - apply String.eqb_neq in Hk.
    apply (IH nd1 newData' H Hnd Hget).
    rewrite (merge_entry_other _ _ _ _ key H1) by congruence. exact Hnone.
Qed.

(** X14. A key other than [__proto__] that the base record lacks gets
    the value the additional record has under it, as it is, unless that
    value is [undefined], [null] or the empty text, in which case the key
    stays absent. This holds for [tags] too: tags that come from the
    additional record alone are not filtered, and an empty array is not
    skipped. *)
Theorem merge_adds_missing_key
    (base additional : props) (r : object) (key : string) (v : JS.value) :
  List.NoDup (keys base) ->
  key <> "__proto__" ->
  obj_get base key = None ->
  List.NoDup (keys additional) ->
  obj_get additional key = Some v ->
  merge_p (Obj base) (Obj additional) = Ok r ->
  obj_get (own r) key = if skipped v then None else Some v.
Proof.
  intros Hb Hp Hnone Hnd Hget Hr.
  pose proof (merge_p_alike base (Obj additional) Hb) as Hsim.
  rewrite Hr in Hsim. unfold merge in Hsim.
  cbn [Object_entries own_entries bindR] in Hsim.
  destruct (forEach additional base) as [nd|e] eqn:H;
    cbn [bindR agree] in Hsim; [|contradiction].
  destruct Hsim as (nd' & [= <-] & Ha). rewrite (Ha key Hp).
  exact (forEach_missing_key _ _ _ _ _ H Hnd Hget Hnone).
Qed.

Lemma merge_adds_missing_key_witness :
  let base := [("title", Str "A")] in
  let additional := [("title", Str "B"); ("tags", Arr [Str "svelte"])] in
  let r := MkObject ObjectPrototype
             [("title", Str "A"); ("tags", Arr [Str "svelte"])] in
  (List.NoDup (keys base)
   /\ "tags" <> "__proto__"
   /\ obj_get base "tags" = None
   /\ List.NoDup (keys additional)
   /\ obj_get additional "tags" = Some (Arr [Str "svelte"])
   /\ merge_p (Obj base) (Obj additional) = Ok r)
  /\ obj_get (own r) "tags" = Some (Arr [Str "svelte"]).
Proof.
  intros base additional r.
  assert (H0 : List.NoDup (keys base)).
  { apply (NoDup_ListNoDup (keys base)).
    apply (bool_decide_unpack _). vm_compute. exact I. }
  assert (Hp : "tags" <> "__proto__") by discriminate.
  assert (H1 : obj_get base "tags" = None) by reflexivity.
  assert (H2 : List.NoDup (keys additional)).
  { apply (NoDup_ListNoDup (keys additional)).
    apply (bool_decide_unpack _). vm_compute. exact I. }
  assert (H3 : obj_get additional "tags" = Some (Arr [Str "svelte"]))
    by reflexivity.
  assert (H4 : merge_p (Obj base) (Obj additional) = Ok r) by reflexivity.
  split; [tauto|].
  exact (merge_adds_missing_key base additional r "tags" (Arr [Str "svelte"])
           H0 Hp H1 H2 H3 H4).
Defined.

Lemma keys_obj_set {V} (k : string) (v : V) (o : list (string * V)) :
  keys (obj_set k v o)
  = if keys_include (keys o) k then keys o else keys o ++ [k].
Proof.
  unfold keys, keys_include.
  induction o as [|[k' v'] o IH]; [reflexivity|].
  cbn [obj_set map fst existsb]. destruct (String.eqb k k') eqn:Hk.
  - apply String.eqb_eq in Hk. now subst k'.
  - cbn [orb map fst]. rewrite IH.
    now destruct (existsb (String.eqb k) (map fst o)).
Qed.

Lemma keys_include_app (ks ks' : list string) (k : string) :
  keys_include (ks ++ ks') k = keys_include ks k || keys_include ks' k.
Proof. unfold keys_include. apply existsb_app. Qed.

Lemma merge_entry_keys newData key value newData' :
  merge_entry newData (key, value) = Ok newData' ->
  keys newData'
  = keys newData ++ (if added (keys newData) (key, value) then [key] else []).
Proof.
  unfold merge_entry, added. cbn [fst snd]. intros H.
  destruct (skipped value); cbn [negb andb].
  - injection H as <-. now rewrite app_nil_r.
  - destruct (keys_include (keys newData) key) eqn:Hin; cbn [negb] in *.
    + rewrite app_nil_r.
      destruct (String.eqb key "tags" && is_array value) eqn:Ht;
        [|congruence].
      apply andb_prop in Ht as [Ht _]. apply String.eqb_eq in Ht. subst key.
      destruct (combined_tags newData value) as [tags|e]; cbn [bindR] in H;
        [|discriminate].
      injection H as <-. now rewrite keys_obj_set, Hin.
    + injection H as <-. now rewrite keys_obj_set, Hin.
Qed.

Lemma filter_added_ext (ks ks' : list string) (entries : props) :
  (forall k, In k (keys entries) ->
             keys_include ks k = keys_include ks' k) ->
  List.filter (added ks) entries = List.filter (added ks') entries.
Proof.
  intros H. induction entries as [|[k v] entries IH]; [reflexivity|].
  cbn [List.filter]. rewrite IH.
  - unfold added. cbn [fst snd]. rewrite (H k); [reflexivity|]. now left.
  - intros k' Hin. apply H. now right.
Qed.

Lemma forEach_keys entries : forall newData newData',
  forEach entries newData = Ok newData' ->
  List.NoDup (keys entries) ->
  keys newData'
  = keys newData ++ keys (List.filter (added (keys newData)) entries).
Proof.
  induction entries as [|[key value] entries IH];
    intros newData newData' H Hnd.
  - cbn [forEach] in H. injection H as <-. cbn. now rewrite app_nil_r.
  - cbn [forEach] in H. cbn [keys map fst] in Hnd.
    apply List.NoDup_cons_iff in Hnd as [Hnotin Hnd].
    destruct (merge_entry newData (key, value)) as [nd1|e] eqn:H1;
      cbn [bindR] in H; [|discriminate].
    rewrite (IH nd1 newData' H Hnd).
    rewrite (merge_entry_keys _ _ _ _ H1), <- app_assoc. f_equal.
    cbn [List.filter].
    rewrite (filter_added_ext
               (keys newData
                ++ (if added (keys newData) (key, value) then [key] else []))
               (keys newData) entries).
    + now destruct (added (keys newData) (key, value)).
    + intros k Hin. rewrite keys_include_app.
      destruct (added (keys newData) (key, value)); cbn [keys_include existsb];
        [|now rewrite orb_false_r].
      assert (Hne : String.eqb k key = false).
      { apply String.eqb_neq. intros ->. now apply Hnotin. }
      rewrite Hne. now rewrite orb_false_r.
Qed.

(** X15. On records of ordinary keys (none is [__proto__], none an
    array index) the record [merge] returns has the prototype of [{}]
    and, as its own keys, the keys of the base record in their order,
    followed by the keys it takes from the additional record, in the
    order of that record: those the base lacks and whose value is not
    [undefined], [null] or the empty text. No key of the base is dropped
    or moved. *)
Theorem merge_key_order (base additional : props) (r : object) :
  List.NoDup (keys base) -> List.NoDup (keys additional) ->
  ordinary base = true -> ordinary additional = true ->
  merge_p (Obj base) (Obj additional) = Ok r ->
  proto r = ObjectPrototype
  /\ keys (own r)
     = keys base ++ keys (List.filter (added (keys base)) additional).
Proof.
  intros Hb Hnd Hob Hoa. rewrite (merge_p_ordinary base additional Hb Hob Hoa).
  unfold merge. cbn [Object_entries own_entries bindR].
  destruct (forEach additional base) as [nd|e] eqn:H; cbn [bindR];
    [|discriminate].
  intros [= <-]. split; [reflexivity|]. exact (forEach_keys _ _ _ H Hnd).
Qed.

Lemma merge_key_order_witness :
  let base := [("title", Str "A"); ("npm", Str "a")] in
  let additional := [("description", Str "d"); ("tags", Arr []);
                     ("repo", Null); ("url", Str "u"); ("title", Str "B")] in
  let r := MkObject ObjectPrototype
             [("title", Str "A"); ("npm", Str "a");
              ("description", Str "d"); ("tags", Arr []);
              ("url", Str "u")] in
  (List.NoDup (keys base) /\ List.NoDup (keys additional)
   /\ ordinary base = true /\ ordinary additional = true
   /\ merge_p (Obj base) (Obj additional) = Ok r)
  /\ proto r = ObjectPrototype
  /\ keys (own r) = ["title"; "npm"; "description"; "tags"; "url"].
Proof.
  intros base additional r.
  assert (H0 : List.NoDup (keys base)).
  { apply (NoDup_ListNoDup (keys base)).
    apply (bool_decide_unpack _). vm_compute. exact I. }
  assert (H1 : List.NoDup (keys additional)).
  { apply (NoDup_ListNoDup (keys additional)).
    apply (bool_decide_unpack _). vm_compute. exact I. }
  assert (H2 : ordinary base = true) by reflexivity.
  assert (H3 : ordinary additional = true) by reflexivity.
  assert (H4 : merge_p (Obj base) (Obj additional) = Ok r) by reflexivity.
  split; [tauto|].
  exact (merge_key_order base additional r H0 H1 H2 H3 H4).
Defined.

(** X16. [merge] does not see how its arguments are laid out in memory.
    Two calls whose arguments stand for the same trees, in heaps that may
    share cells differently (the two records may even be one object),
    return records that stand for the same tree, or throw the same
    exception. *)
Theorem merge_h_layout_independent
    (h1 h2 : heap) (d : nat) (base1 additional1 base2 additional2 : hvalue) :
  closed_below (length h1) h1 ->
  val_below (length h1) base1 -> val_below (length h1) additional1 ->
  closed_below (length h2) h2 ->
  val_below (length h2) base2 -> val_below (length h2) additional2 ->
  reify (3 + d) h1 base1 = reify (3 + d) h2 base2 ->
  reify (3 + d) h1 additional1 = reify (3 + d) h2 additional2 ->
  exists r1 h1' r2 h2',
    merge_h base1 additional1 h1 = (r1, h1')
    /\ merge_h base2 additional2 h2 = (r2, h2')
    /\ agree (fun v1 v2 => reify (3 + d) h1' v1 = reify (3 + d) h2' v2) r1 r2.
Proof.
  intros Hc1 Hb1 Ha1 Hc2 Hb2 Ha2 Hb Ha.
  destruct (merge_h_refines h1 d base1 additional1 Hc1 Hb1 Ha1)
    as (r1 & h1' & Hm1 & Hr1).
  destruct (merge_h_refines h2 d base2 additional2 Hc2 Hb2 Ha2)
    as (r2 & h2' & Hm2 & Hr2).
  exists r1, h1', r2, h2'. split; [exact Hm1|]. split; [exact Hm2|].
  rewrite Hb, Ha in Hr1.
  destruct (merge (reify (3 + d) h2 base2) (reify (3 + d) h2 additional2))
    as [t|e]; destruct r1 as [v1|e1]; destruct r2 as [v2|e2];
    cbn [agree] in *; try contradiction; congruence.
Qed.

Lemma merge_h_layout_independent_witness :
  let h1 : heap := [CArr [HStr "ui"; HStr "svelte"]; CObj [("tags", HRef 0)]] in
  let h2 : heap := [CArr [HStr "ui"; HStr "svelte"]; CObj [("tags", HRef 0)];
                    CArr [HStr "ui"; HStr "svelte"]; CObj [("tags", HRef 2)]] in
  (closed_below (length h1) h1
   /\ val_below (length h1) (HRef 1) /\ val_below (length h1) (HRef 1)
   /\ closed_below (length h2) h2
   /\ val_below (length h2) (HRef 1) /\ val_below (length h2) (HRef 3)
   /\ reify (3 + 0) h1 (HRef 1) = reify (3 + 0) h2 (HRef 1)
   /\ reify (3 + 0) h1 (HRef 1) = reify (3 + 0) h2 (HRef 3))
  /\ exists r1 h1' r2 h2',
       merge_h (HRef 1) (HRef 1) h1 = (r1, h1')
       /\ merge_h (HRef 1) (HRef 3) h2 = (r2, h2')
       /\ agree (fun v1 v2 => reify (3 + 0) h1' v1 = reify (3 + 0) h2' v2)
            r1 r2.
Proof.
  intros h1 h2.
  assert (H1 : closed_below (length h1) h1).
  { split; [cbn; lia|]. intros l c Hl Hc.
    destruct l as [|[|l]]; cbn in Hc, Hl; [| |lia];
      injection Hc as <-; cbn [cell_values map snd];
      repeat constructor. }
  assert (H2 : val_below (length h1) (HRef 1)) by (cbn; lia).
  assert (H3 : closed_below (length h2) h2).
  { split; [cbn; lia|]. intros l c Hl Hc.
    destruct l as [|[|[|[|l]]]]; cbn in Hc, Hl; [| | | |lia];
      injection Hc as <-; cbn [cell_values map snd];
      repeat constructor; lia. }
  assert (H4 : val_below (length h2) (HRef 1)) by (cbn; lia).
  assert (H5 : val_below (length h2) (HRef 3)) by (cbn; lia).
  assert (H6 : reify (3 + 0) h1 (HRef 1) = reify (3 + 0) h2 (HRef 1))
    by reflexivity.
  assert (H7 : reify (3 + 0) h1 (HRef 1) = reify (3 + 0) h2 (HRef 3))
    by reflexivity.
  split; [tauto|].
  exact (merge_h_layout_independent h1 h2 0 (HRef 1) (HRef 1) (HRef 1) (HRef 3)
           H1 H2 H2 H3 H4 H5 H6 H7).
Defined.

(** ** Updating an item *)

Lemma fetcher_skips (E : env) (p : platform) (url : JS.value) (w : world) :
  unrecognized (form p) url ->
  fetcher E p url w = (Ok (emptyResponse p), w).
Proof.
  destruct p, url as [| | | | u | |]; cbn [unrecognized form fetcher];
    intros H; try contradiction; try reflexivity.
  - unfold github_form in H.
    apply orb_false_elim in H as [H H3]. apply orb_false_elim in H as [H1 H2].
    unfold getGithubInfo. now rewrite H1, H2, H3.
  - unfold gitlab_form in H. unfold getGitlabInfo. now rewrite H.
Qed.

Lemma repo_or_url_address (o : props) (w : world) :
  repo_or_url (Obj o) w = (Ok (address o), w).
Proof.
  unfold repo_or_url, address, or_else, bind, lift, ret.
  cbn [get_prop own_entries]. now destruct (truthy _).
Qed.

Lemma obj_set_new {V} (k : string) (v : V) (o : list (string * V)) :
  obj_get o k = None -> obj_set k v o = o ++ [(k, v)].
Proof.
  induction o as [|[k' v'] o IH]; [reflexivity|].
  cbn [obj_get obj_set app]. destruct (String.eqb k k'); [discriminate|].
  intros H. now rewrite IH.
Qed.

Lemma merge_entry_null (newData : props) (key : string) :
  merge_entry newData (key, Null) = Ok newData.
Proof. reflexivity. Qed.

Lemma merge_emptyGitlab (o : props) (tags : option (list string)) :
  obj_get o "tags" = (fun ts => Arr (map Str ts)) <$> tags ->
  merge (Obj o) emptyGitlab
  = Ok (Obj match tags with
            | None => o ++ [("tags", Arr [])]
            | Some ts =>
                obj_set "tags" (Arr (map Str (List.filter keeps_tag ts))) o
            end).
Proof.
  intros Ht. unfold merge, emptyGitlab.
  cbn [Object_entries own_entries bindR forEach].
  repeat (rewrite merge_entry_null; cbn [bindR]).
  destruct tags as [ts|]; cbn [fmap option_fmap option_map] in Ht.
  - change (Arr []) with (Arr (map Str [])).
    rewrite (merge_entry_tags o ts [] Ht). cbn [bindR].
    now rewrite app_nil_r.
  - unfold merge_entry. cbn [skipped strict_eq_fresh_array is_str orb].
    apply keys_include_get_none in Ht as Hk. rewrite Hk. cbn [negb bindR].
    now rewrite obj_set_new.
Qed.

(** X17. An item of ordinary keys (none is [__proto__], none an array
    index) that names no source of data (no [npm] key, and no address of
    GitHub or GitLab under [repo] or [url]) is updated without any
    lookup: the cache is not read, nothing is sent, the world is as it
    was. Its tags are still filtered: it comes back with its own tags
    without those that hold [svelte], or with an empty [tags] array when
    it had none. *)
Theorem updateItem_without_sources
    (E : env) (o : props) (tags : option (list string)) (w : world) :
  source_free o ->
  obj_get o "tags" = (fun ts => Arr (map Str ts)) <$> tags ->
  updateItem E (Obj o) w
  = (Ok (Obj match tags with
             | None => o ++ [("tags", Arr [])]
             | Some ts =>
                 obj_set "tags" (Arr (map Str (List.filter keeps_tag ts))) o
             end), w).
Proof.
  intros (_ & _ & Hnpm & Hgh & Hgl) Ht. unfold updateItem.
  change (getGithubInfo E) with (fetcher E Github).
  change (getGitlabInfo E) with (fetcher E Gitlab).
  unfold bind at 1. cbn [lift Object_entries own_entries]. rewrite Hnpm.
  unfold bind at 1. unfold ret at 1.
  unfold bind at 1. rewrite repo_or_url_address.
  unfold bind at 1.
  rewrite (fetcher_skips E Github (address o) w Hgh).
  unfold bind at 1. cbn [lift emptyResponse].
  change (merge (Obj o) emptyGithub) with (@Ok JS.value (Obj o)).
  unfold bind at 1. rewrite repo_or_url_address.
  unfold bind at 1.
  rewrite (fetcher_skips E Gitlab (address o) w Hgl).
  unfold bind, lift, ret. cbn [emptyResponse].
  now rewrite (merge_emptyGitlab o tags Ht).
Qed.

Lemma updateItem_without_sources_witness :
  let o := [("title", Str "Icons"); ("url", Str "https://example.com/icons");
            ("tags", Arr [Str "icons"; Str "svelte-component"])] in
  (source_free o
   /\ obj_get o "tags"
      = (fun ts => Arr (map Str ts)) <$> Some ["icons"; "svelte-component"])
  /\ updateItem online (Obj o) nothing_yet
     = (Ok (Obj [("title", Str "Icons");
                 ("url", Str "https://example.com/icons");
                 ("tags", Arr [Str "icons"])]), nothing_yet).
Proof.
  intros o.
  assert (H1 : source_free o).
  { split; [|split; [reflexivity | split; [reflexivity | split; reflexivity]]].
    apply (NoDup_ListNoDup (keys o)).
    apply (bool_decide_unpack _). vm_compute. exact I. }
  assert (H2 : obj_get o "tags"
               = (fun ts => Arr (map Str ts))
                   <$> Some ["icons"; "svelte-component"]) by reflexivity.
  split; [tauto|].
  exact (updateItem_without_sources online o
           (Some ["icons"; "svelte-component"]) nothing_yet H1 H2).
Defined.

Lemma merge_keeps (base : props) (additional r : JS.value) :
  merge (Obj base) additional = Ok r ->
  exists newData,
    r = Obj newData
    /\ forall key, key <> "tags" -> is_Some (obj_get base key) ->
                   obj_get newData key = obj_get base key.
Proof.
  unfold merge. cbn [own_entries].
  destruct (Object_entries additional) as [entries|e]; cbn [bindR];
    [|discriminate].
  destruct (forEach entries base) as [nd|e] eqn:H; cbn [bindR];
    [|discriminate].
  intros [= <-]. exists nd. split; [reflexivity|].
  intros key Hk Hin. exact (forEach_keeps entries key base nd H Hk Hin).
Qed.

(** The steps of a run of [updateItem] that returns. *)
Lemma updateItem_steps (E : env) (o : props) (w w' : world) (r : JS.value) :
  updateItem E (Obj o) w = (Ok r, w') ->
  exists (o1 o2 : props) (gh gl : JS.value) (w1 w2 : world),
    (if keys_include (keys o) "npm"
     then exists info,
            getNpmInfo E (default Undefined (obj_get o "npm")) w = (Ok info, w1)
            /\ merge (Obj o) info = Ok (Obj o1)
     else o1 = o /\ w1 = w)
    /\ getGithubInfo E (address o1) w1 = (Ok gh, w2)
    /\ merge (Obj o1) gh = Ok (Obj o2)
    /\ getGitlabInfo E (address o2) w2 = (Ok gl, w')
    /\ merge (Obj o2) gl = Ok r.
Proof.
  unfold updateItem. unfold bind at 1.
  cbn [lift Object_entries own_entries]. unfold bind at 1.
  set (stage1 := if keys_include (keys o) "npm" then _ else _).
  destruct (stage1 w) as [[item1|e] w1] eqn:H1; [|discriminate].
  assert (Hs1 : exists o1,
             item1 = Obj o1
             /\ if keys_include (keys o) "npm"
                then exists info,
                       getNpmInfo E (default Undefined (obj_get o "npm")) w
                       = (Ok info, w1)
                       /\ merge (Obj o) info = Ok (Obj o1)
                else o1 = o /\ w1 = w).
  { unfold stage1 in H1. destruct (keys_include (keys o) "npm").
    - unfold bind at 1 in H1. cbn [lift get_prop own_entries] in H1.
      unfold bind at 1 in H1.
      destruct (getNpmInfo E _ w) as [[info|e] w0] eqn:Hn; [|discriminate].
      unfold lift in H1.
      destruct (merge (Obj o) info) as [m|e] eqn:Hm; [|discriminate].
      injection H1 as -> ->.
      destruct (merge_keeps o info item1 Hm) as (o1 & -> & _).
      exists o1. split; [reflexivity|]. exists info. now split.
    - unfold ret in H1. injection H1 as <- <-. exists o. now split. }
  destruct Hs1 as (o1 & -> & Hs1).
  unfold bind at 1. rewrite repo_or_url_address. unfold bind at 1.
  destruct (getGithubInfo E (address o1) w1) as [[gh|e] w2] eqn:Hgh;
    [|discriminate].
  unfold bind at 1. unfold lift at 1.
  destruct (merge (Obj o1) gh) as [item2|e] eqn:Hm2; [|discriminate].
  destruct (merge_keeps o1 gh item2 Hm2) as (o2 & -> & _).
  unfold bind at 1. rewrite repo_or_url_address. unfold bind at 1.
  destruct (getGitlabInfo E (address o2) w2) as [[gl|e] w3] eqn:Hgl;
    [|discriminate].
  unfold bind, lift, ret.
  destruct (merge (Obj o2) gl) as [item3|e] eqn:Hm3; [|discriminate].
  intros [= <- <-].
  exists o1, o2, gh, gl, w1, w2. repeat (split; [assumption|]). assumption.
Qed.

(** X18. What an item says of itself is not overwritten. For an item
    without a [__proto__] key, the record [updateItem] returns has, under
    every key of the item other than [tags], the value the item has
    there, whatever the registry, GitHub and GitLab answer. *)
Theorem updateItem_keeps_own_fields
    (E : env) (o : props) (w w' : world) (r : JS.value) (key : string) :
  keys_include (keys o) "__proto__" = false ->
  updateItem E (Obj o) w = (Ok r, w') ->
  key <> "tags" -> is_Some (obj_get o key) ->
  exists newData, r = Obj newData /\ obj_get newData key = obj_get o key.
Proof.
  intros _ Hrun Hk Hin.
  destruct (updateItem_steps E o w w' r Hrun)
    as (o1 & o2 & gh & gl & w1 & w2 & Hs1 & _ & Hm2 & _ & Hm3).
  assert (H1 : obj_get o1 key = obj_get o key).
  { destruct (keys_include (keys o) "npm").
    - destruct Hs1 as (info & _ & Hm1).
      destruct (merge_keeps o info _ Hm1) as (nd & [= <-] & Hkeep).
      now apply Hkeep.
    - now destruct Hs1 as [-> _]. }
  destruct (merge_keeps o1 gh _ Hm2) as (nd2 & [= <-] & Hkeep2).
  destruct (merge_keeps o2 gl _ Hm3) as (nd3 & -> & Hkeep3).
  exists nd3. split; [reflexivity|].
  assert (H2 : obj_get o2 key = obj_get o key).
  { rewrite <- H1. apply Hkeep2; [exact Hk | now rewrite H1]. }
  rewrite <- H2. apply Hkeep3; [exact Hk | now rewrite H2].
Qed.

Lemma updateItem_keeps_own_fields_witness :
  let o := [("title", Str "My icons"); ("npm", Str "svelte-icons")] in
  let r := Obj [("title", Str "My icons"); ("npm", Str "svelte-icons");
                ("description", Str "Icons"); ("tags", Arr [Str "icons"]);
                ("repo", Str "https://github.com/foo/svelte-icons");
                ("stars", Num 42)] in
  let w' := snd (updateItem online (Obj o) nothing_yet) in
  (keys_include (keys o) "__proto__" = false
   /\ updateItem online (Obj o) nothing_yet = (Ok r, w')
   /\ "title" <> "tags" /\ is_Some (obj_get o "title"))
  /\ exists newData,
       r = Obj newData /\ obj_get newData "title" = Some (Str "My icons").
Proof.
  intros o r w'.
  assert (H0 : keys_include (keys o) "__proto__" = false) by reflexivity.
  assert (H1 : updateItem online (Obj o) nothing_yet = (Ok r, w'))
    by (vm_compute; reflexivity).
  assert (H2 : "title" <> "tags") by discriminate.
  assert (H3 : is_Some (obj_get o "title")) by (eexists; reflexivity).
  split; [tauto|].
  exact (updateItem_keeps_own_fields online o nothing_yet w' r "title"
           H0 H1 H2 H3).
Defined.

Lemma merge_takes_missing (base additional : props) (r : JS.value)
    (key : string) (v : JS.value) :
  merge (Obj base) (Obj additional) = Ok r ->
  List.NoDup (keys additional) ->
  obj_get base key = None -> obj_get additional key = Some v ->
  skipped v = false ->
  exists newData, r = Obj newData /\ obj_get newData key = Some v.
Proof.
  unfold merge. cbn [Object_entries own_entries bindR].
  destruct (forEach additional base) as [nd|e] eqn:H; cbn [bindR];
    [|discriminate].
  intros [= <-] Hnd Hnone Hget Hv. exists nd. split; [reflexivity|].
  rewrite (forEach_missing_key _ _ _ _ _ H Hnd Hget Hnone). now rewrite Hv.
Qed.

(** X19. The registry comes first. When the item names a package and
    lacks a key (other than [tags]) that the record of the registry
    fetcher has with a value that is not [undefined], [null] or the empty
    text, the updated item has the value of the registry under that key,
    whatever GitHub and GitLab say under it. *)
Theorem updateItem_registry_first
    (E : env) (o n : props) (w w1 w' : world) (r v : JS.value)
    (key : string) :
  keys_include (keys o) "npm" = true ->
  getNpmInfo E (default Undefined (obj_get o "npm")) w = (Ok (Obj n), w1) ->
  List.NoDup (keys n) ->
  key <> "tags" -> obj_get o key = None ->
  obj_get n key = Some v -> skipped v = false ->
  updateItem E (Obj o) w = (Ok r, w') ->
  exists newData, r = Obj newData /\ obj_get newData key = Some v.
Proof.
  intros Hnpm Hn Hnd Hk Hnone Hget Hv Hrun.
  destruct (updateItem_steps E o w w' r Hrun)
    as (o1 & o2 & gh & gl & w1' & w2 & Hs1 & _ & Hm2 & _ & Hm3).
  rewrite Hnpm in Hs1. destruct Hs1 as (info & Hinfo & Hm1).
  rewrite Hn in Hinfo. injection Hinfo as <- <-.
  destruct (merge_takes_missing o n _ key v Hm1 Hnd Hnone Hget Hv)
    as (nd1 & [= <-] & H1).
  destruct (merge_keeps o1 gh _ Hm2) as (nd2 & [= <-] & Hkeep2).
  destruct (merge_keeps o2 gl _ Hm3) as (nd3 & -> & Hkeep3).
  exists nd3. split; [reflexivity|].
  assert (H2 : obj_get o2 key = Some v).
  { rewrite <- H1. apply Hkeep2; [exact Hk | now rewrite H1]. }
  rewrite <- H2. apply Hkeep3; [exact Hk | now rewrite H2].
Qed.

Lemma updateItem_registry_first_witness :
  let o := [("title", Str "My icons"); ("npm", Str "svelte-icons")] in
  let n := [("description", Str "Icons");
            ("tags", Arr [Str "svelte"; Str "icons"]);
            ("url", Undefined);
            ("repo", Str "https://github.com/foo/svelte-icons");
            ("title", Str "svelte-icons")] in
  let r := Obj [("title", Str "My icons"); ("npm", Str "svelte-icons");
                ("description", Str "Icons"); ("tags", Arr [Str "icons"]);
                ("repo", Str "https://github.com/foo/svelte-icons");
                ("stars", Num 42)] in
  let w1 := snd (getNpmInfo online (Str "svelte-icons") nothing_yet) in
  let w' := snd (updateItem online (Obj o) nothing_yet) in
  (keys_include (keys o) "npm" = true
   /\ getNpmInfo online (default Undefined (obj_get o "npm")) nothing_yet
      = (Ok (Obj n), w1)
   /\ List.NoDup (keys n)
   /\ "description" <> "tags" /\ obj_get o "description" = None
   /\ obj_get n "description" = Some (Str "Icons")
   /\ skipped (Str "Icons") = false
   /\ updateItem online (Obj o) nothing_yet = (Ok r, w'))
  /\ exists newData,
       r = Obj newData /\ obj_get newData "description" = Some (Str "Icons").
Proof.
  intros o n r w1 w'.
  assert (H1 : keys_include (keys o) "npm" = true) by reflexivity.
  assert (H2 : getNpmInfo online (default Undefined (obj_get o "npm"))
                 nothing_yet = (Ok (Obj n), w1)) by (vm_compute; reflexivity).
  assert (H3 : List.NoDup (keys n)).
  { apply (NoDup_ListNoDup (keys n)).
    apply (bool_decide_unpack _). vm_compute. exact I. }
  assert (H4 : "description" <> "tags") by discriminate.
  assert (H5 : obj_get o "description" = None) by reflexivity.
  assert (H6 : obj_get n "description" = Some (Str "Icons")) by reflexivity.
  assert (H7 : skipped (Str "Icons") = false) by reflexivity.
  assert (H8 : updateItem online (Obj o) nothing_yet = (Ok r, w'))
    by (vm_compute; reflexivity).
  split; [tauto|].
  exact (updateItem_registry_first online o n nothing_yet w1 w' r
           (Str "Icons") "description" H1 H2 H3 H4 H5 H6 H7 H8).
Defined.

(** ** The effects of a run *)

Section Effects.

Variable E : env.
Variable Q : event -> bool.

Lemma remote_calls_app (t t' : list event) :
  remote_calls (t ++ t') = remote_calls t + remote_calls t'.
Proof. unfold remote_calls. now rewrite List.filter_app, length_app. Qed.

Lemma adds_pure {A} (n : nat) (c : M A) :
  (forall w, snd (c w) = w) -> adds Q n c.
Proof.
  intros H w. exists []. rewrite H. cbn. repeat split. lia.
Qed.

Lemma adds_ret {A} (n : nat) (a : A) : adds Q n (ret a).
Proof. now apply adds_pure. Qed.

Lemma adds_throw {A} (n : nat) (e : exn) : adds Q n (throw (A := A) e).
Proof. now apply adds_pure. Qed.

Lemma adds_lift {A} (n : nat) (r : result A) : adds Q n (lift r).
Proof. now apply adds_pure. Qed.

Lemma adds_await {A} (n : nat) (p : promise A) : adds Q n (await p).
Proof. destruct p; [apply adds_ret | apply adds_throw]. Qed.

Lemma adds_emit (n : nat) (e : event) :
  Q e = true -> remote_event e = false -> adds Q n (emit e).
Proof.
  intros He Hr w. exists [e]. cbn [emit snd trace app forallb].
  rewrite He. unfold remote_calls. cbn [List.filter]. rewrite Hr.
  repeat split. cbn. lia.
Qed.

Lemma adds_emit_remote (n : nat) (e : event) :
  Q e = true -> adds Q (S n) (emit e).
Proof.
  intros He w. exists [e]. cbn [emit snd trace app forallb].
  rewrite He. unfold remote_calls. cbn [List.filter].
  repeat split. destruct (remote_event e); cbn; lia.
Qed.

Lemma adds_le {A} (a b : nat) (c : M A) : adds Q a c -> a <= b -> adds Q b c.
Proof.
  intros H Hle w. destruct (H w) as (new & H1 & H2 & H3).
  exists new. repeat split; [assumption..|lia].
Qed.

Lemma adds_bind {A B} (a b : nat) (c : M A) (k : A -> M B) :
  adds Q a c -> (forall x, adds Q b (k x)) -> adds Q (a + b) (bind c k).
Proof.
  intros Hc Hk w. unfold bind. destruct (Hc w) as (n1 & E1 & F1 & C1).
  destruct (c w) as [[x|e] w1]; cbn [snd] in *.
  - destruct (Hk x w1) as (n2 & E2 & F2 & C2). exists (n2 ++ n1).
    rewrite E2, E1, app_assoc, forallb_app, F1, F2, remote_calls_app.
    repeat split. lia.
  - exists n1. repeat split; [assumption..|lia].
Qed.

Lemma adds_try_catch {A} (a b : nat) (c : M A) (h : exn -> M A) :
  adds Q a c -> (forall e, adds Q b (h e)) -> adds Q (a + b) (try_catch c h).
Proof.
  intros Hc Hh w. unfold try_catch. destruct (Hc w) as (n1 & E1 & F1 & C1).
  destruct (c w) as [[x|e] w1]; cbn [snd] in *.
  - exists n1. repeat split; [assumption..|lia].
  - destruct (Hh e w1) as (n2 & E2 & F2 & C2). exists (n2 ++ n1).
    rewrite E2, E1, app_assoc, forallb_app, F1, F2, remote_calls_app.
    repeat split. lia.
Qed.

End Effects.

Lemma adds_class {A} (Q Q' : event -> bool) (n : nat) (c : M A) :
  (forall e, Q e = true -> Q' e = true) -> adds Q n c -> adds Q' n c.
Proof.
  intros HQ H w. destruct (H w) as (new & H1 & H2 & H3).
  exists new. repeat split; [assumption| |assumption].
  rewrite forallb_forall in *. auto.
Qed.

(** A chain of property reads and pure steps adds nothing. *)
Ltac pure_steps :=
  repeat first
    [ apply adds_ret | apply adds_lift | apply adds_await | apply adds_throw
    | apply (adds_bind lookup_event 0 0); [|intro]
    | match goal with
      | |- adds _ _ (if ?b then _ else _) => destruct b
      end ].

Section Lookups.

Variable E : env.

Lemma adds_cache_get (n : nat) (k : string) :
  adds lookup_event n (cache_get E k).
Proof.
  unfold cache_get. apply (adds_bind lookup_event 0 n).
  - now apply adds_emit.
  - intros _. apply adds_pure. intros w.
    now destruct (cache_get_fault E k).
Qed.

Lemma adds_cache_set (n : nat) (k : string) (e : entry) :
  adds lookup_event n (cache_set E k e).
Proof.
  unfold cache_set. apply (adds_bind lookup_event 0 n).
  - now apply adds_emit.
  - intros _ w. exists []. destruct (cache_set_fault E k); cbn;
      repeat split; lia.
Qed.

Lemma adds_getData (n : nat) (key : string) (producer : M JS.value) :
  adds lookup_event n producer ->
  adds lookup_event n (getData E key producer).
Proof.
  intros Hp. unfold getData. apply (adds_bind lookup_event 0 n).
  - apply (adds_try_catch lookup_event 0 0); [|intros _; apply adds_ret].
    apply (adds_bind lookup_event 0 0); [apply adds_cache_get|].
    intros pending. apply (adds_bind lookup_event 0 0); [apply adds_await|].
    intros [e|]; [|apply adds_ret].
    apply (adds_bind lookup_event 0 0); [apply adds_lift|].
    intros v. apply adds_ret.
  - intros [v|]; [apply adds_ret|].
    apply (adds_le lookup_event (n + 0)); [|lia].
    apply adds_bind; [exact Hp|]. intros v.
    apply (adds_bind lookup_event 0 0); [apply adds_cache_set|].
    intros _. apply adds_ret.
Qed.

Lemma adds_getNpmInfo (packageName : JS.value) :
  adds lookup_event 1 (getNpmInfo E packageName).
Proof.
  unfold getNpmInfo. apply adds_getData.
  apply (adds_try_catch lookup_event 1 0); [|intros _; apply adds_ret].
  apply (adds_bind lookup_event 1 0); [now apply adds_emit_remote|].
  intros _. pure_steps.
Qed.

Lemma adds_getGithubInfo (url : JS.value) :
  adds lookup_event 1 (getGithubInfo E url).
Proof.
  unfold getGithubInfo. destruct url; try apply adds_ret; try apply adds_throw.
  destruct (_ && _); [apply adds_ret|].
  apply (adds_bind lookup_event 0 1); [apply adds_lift|]. intros owner.
  apply (adds_bind lookup_event 0 1); [apply adds_lift|]. intros repo.
  apply adds_getData.
  apply (adds_try_catch lookup_event 1 0); [|intros _; apply adds_ret].
  apply (adds_bind lookup_event 1 0); [now apply adds_emit_remote|].
  intros _. pure_steps.
Qed.

Lemma adds_getGitlabInfo (url : JS.value) :
  adds lookup_event 1 (getGitlabInfo E url).
Proof.
  unfold getGitlabInfo. destruct url; try apply adds_ret; try apply adds_throw.
  destruct (negb _); [apply adds_ret|].
  apply (adds_bind lookup_event 0 1); [apply adds_lift|]. intros owner.
  apply (adds_bind lookup_event 0 1); [apply adds_lift|]. intros repo.
  apply adds_getData.
  apply (adds_try_catch lookup_event 1 0); [|intros _; apply adds_ret].
  apply (adds_bind lookup_event 1 0); [now apply adds_emit_remote|].
  intros _. pure_steps.
Qed.

Lemma adds_repo_or_url (n : nat) (item : JS.value) :
  adds lookup_event n (repo_or_url item).
Proof.
  unfold repo_or_url. apply (adds_bind lookup_event 0 n); [apply adds_lift|].
  intros repo. destruct (truthy repo); [apply adds_ret | apply adds_lift].
Qed.

Lemma adds_updateItem (item : JS.value) :
  adds lookup_event 3 (updateItem E item).
Proof.
  unfold updateItem.
  apply (adds_bind lookup_event 0 3); [apply adds_lift|]. intros ks.
  apply (adds_bind lookup_event 1 2).
  { destruct (keys_include (keys ks) "npm"); [|apply adds_ret].
    apply (adds_bind lookup_event 0 1); [apply adds_lift|]. intros npm.
    apply (adds_bind lookup_event 1 0); [apply adds_getNpmInfo|].
    intros info. apply adds_lift. }
  intros item1.
  apply (adds_bind lookup_event 0 2); [apply adds_repo_or_url|]. intros u.
  apply (adds_bind lookup_event 1 1); [apply adds_getGithubInfo|]. intros gh.
  apply (adds_bind lookup_event 0 1); [apply adds_lift|]. intros item2.
  apply (adds_bind lookup_event 0 1); [apply adds_repo_or_url|]. intros u2.
  apply (adds_bind lookup_event 1 0); [apply adds_getGitlabInfo|]. intros gl.
  apply (adds_bind lookup_event 0 0); [apply adds_lift|]. intros item3.
  apply adds_ret.
Qed.

End Lookups.

Section Loop.

Variable E : env.

Lemma adds_allSettled (n : nat) (tasks : list (M JS.value)) :
  (forall t, In t tasks -> adds lookup_event n t) ->
  adds lookup_event (n * length tasks) (allSettled tasks).
Proof.
  induction tasks as [|t ts IH]; intros Ht.
  - apply adds_ret.
  - intros w. cbn [allSettled].
    destruct (Ht t (or_introl eq_refl) w) as (n1 & E1 & F1 & C1).
    destruct (t w) as [r w1]. cbn [snd] in E1.
    assert (Hts : adds lookup_event (n * length ts)
                    (rs <- allSettled ts ;; ret (r :: rs))).
    { apply (adds_le lookup_event (n * length ts + 0)); [|lia].
      apply adds_bind; [|intros rs; apply adds_ret].
      apply IH. intros t' Hin. apply Ht. now right. }
    destruct (Hts w1) as (n2 & E2 & F2 & C2).
    exists (n2 ++ n1).
    rewrite E2, E1, app_assoc, forallb_app, F1, F2, remote_calls_app.
    repeat split. cbn [length]. lia.
Qed.

Lemma progress_reports_app (t t' : list event) :
  progress_reports (t ++ t') = progress_reports t' ++ progress_reports t.
Proof. unfold progress_reports. now rewrite omap_app, rev_app_distr. Qed.

Lemma progress_reports_lookups (t : list event) :
  forallb lookup_event t = true -> progress_reports t = [].
Proof.
  unfold progress_reports. induction t as [|e t IH]; [reflexivity|].
  cbn [forallb]. intros H. apply andb_prop in H as [He Ht].
  destruct e; try discriminate He; cbn [omap]; auto.
Qed.

Lemma lookup_loop_event (t : list event) :
  forallb lookup_event t = true -> forallb loop_event t = true.
Proof.
  rewrite !forallb_forall. intros H e He. specialize (H e He).
  now destruct e.
Qed.

Lemma length_slice_batch (i : nat) (parsed : list JS.value) :
  length (slice (i * chunkSize) ((i + 1) * chunkSize) parsed)
  = Nat.min chunkSize (length parsed - i * chunkSize).
Proof.
  unfold slice. rewrite length_firstn, length_skipn.
  unfold chunkSize. lia.
Qed.

(** What the loop adds to the trace, from the batch [i] on: lookups and
    one progress report for each batch, with at most three requests for
    each item that is left. *)
Lemma batches_effects (fuel : nat) : forall i parsed w,
  exists new,
    trace (snd (batches E fuel i parsed w)) = new ++ trace w
    /\ forallb loop_event new = true
    /\ remote_calls new <= 3 * (length parsed - i * chunkSize)
    /\ progress_reports new
       = map (fun j => (Nat.min (length parsed) ((j + 1) * chunkSize),
                        length parsed))
             (seq i (Nat.min fuel (batch_count (length parsed) - i))).
Proof.
  induction fuel as [|fuel IH]; intros i parsed w; cbn [batches].
  - exists []. cbn. repeat split. lia.
  - destruct (i <? batch_count (length parsed))%nat eqn:Hi.
    + set (tasks := map (updateItem E)
                      (slice (i * chunkSize) ((i + 1) * chunkSize) parsed)).
      destruct (allSettled_settles tasks w) as (rs & w1 & Hrs & Hlen).
      destruct (adds_allSettled 3 tasks) with (w := w)
        as (n1 & E1 & F1 & C1).
      { intros t Ht. apply in_map_iff in Ht as (item & <- & _).
        apply adds_updateItem. }
      rewrite Hrs in E1. cbn [snd] in E1.
      unfold bind at 1. rewrite Hrs.
      unfold bind at 1. unfold writeProgress, emit at 1.
      set (parsed1 := splice (i * chunkSize) chunkSize
                        (map settled_value rs) parsed).
      assert (Hlen1 : length parsed1 = length parsed).
      { apply splice_batch_length.
        - now apply batch_start_in_range.
        - rewrite length_map, Hlen. unfold tasks. now rewrite length_map. }
      set (w2 := MkWorld _ _).
      destruct (IH (S i) parsed1 w2) as (n2 & E2 & F2 & C2 & P2).
      exists (n2 ++ Progress (Nat.min (length parsed1) ((i + 1) * chunkSize))
                      (length parsed1) :: n1).
      rewrite E2. unfold w2. cbn [trace]. rewrite E1.
      split; [now rewrite <- app_assoc|].
      split.
      { rewrite forallb_app, F2. cbn [forallb loop_event andb].
        now apply lookup_loop_event. }
      apply Nat.ltb_lt in Hi.
      split.
      { rewrite remote_calls_app. unfold remote_calls at 2.
        cbn [List.filter remote_event]. fold (remote_calls n1).
        rewrite Hlen1 in C2. unfold tasks in C1.
        rewrite length_map, length_slice_batch in C1.
        unfold chunkSize in *. lia. }
      rewrite progress_reports_app.
      change (Progress ?p ?n :: n1) with ([Progress p n] ++ n1).
      rewrite progress_reports_app, (progress_reports_lookups n1 F1), P2.
      rewrite Hlen1.
      replace (Nat.min (S fuel) (batch_count (length parsed) - i))
        with (S (Nat.min fuel (batch_count (length parsed) - S i))) by lia.
      reflexivity.
    + apply Nat.ltb_ge in Hi. exists [].
      replace (batch_count (length parsed) - i) with 0 by lia.
      rewrite Nat.min_0_r. cbn. repeat split. lia.
Qed.

End Loop.

(** ** The transformation *)

Section TransformMore.

Variable E : env.

(** What [transform] does once the catalog is parsed: the loop returns a
    catalog, the end is printed, the JSON plugin is called; what the plugin
    throws goes to the handler of parse errors. *)
Lemma transform_parsed (json id : string) (parsed : list JS.value) (w : world) :
  endsWith "src/pages/components/components.json" id = true ->
  filter E id = true ->
  parse_catalog E json = Ok parsed ->
  exists parsed' w1,
    batches E (batch_count (length parsed)) 0 parsed
      (MkWorld (cache w) (Stdout "Starting..." :: trace w)) = (Ok parsed', w1)
    /\ transform E json id w
       = match jsonPlugin_transform E (JSON_stringify (Arr parsed')) id with
         | Ok out => (Ok out, MkWorld (cache w1) (Done :: trace w1))
         | Throw err =>
             (d <- lift (match_index (exec (Floating (Class digit))
                                        (exn_message err)) 0) ;;
              emit (Warn "Could not parse JSON file" id (parseInt d)) ;;
              ret Null) (MkWorld (cache w1) (Done :: trace w1))
         end.
Proof.
  intros Hid Hfilter Hparse.
  destruct (batches_length E (batch_count (length parsed)) 0 parsed
              (MkWorld (cache w) (Stdout "Starting..." :: trace w)))
    as (parsed' & w1 & Hrun & _).
  exists parsed', w1. split; [exact Hrun|].
  unfold transform. rewrite Hid, Hfilter. cbn [negb orb].
  unfold bind at 1. unfold emit at 1. unfold try_catch.
  unfold bind at 1. unfold lift at 1. rewrite Hparse.
  unfold bind at 1. rewrite Hrun.
  unfold bind at 1. unfold emit at 1. unfold lift at 1.
  now destruct (jsonPlugin_transform E (JSON_stringify (Arr parsed')) id).
Qed.

(** The first digit of a text is one character, a digit. *)
Lemma exec_digit_some (msg : string) (m : list string) :
  exec (Floating (Class digit)) msg = Some m ->
  exists c, m = [String c EmptyString] /\ digit c = true.
Proof.
  unfold exec, find. revert m. induction msg as [|x msg IH]; intros m.
  - cbn. discriminate.
  - cbn [search match_here rmatch]. destruct (digit x) eqn:Hx.
    + intros [= <-]. exists x. split; [|exact Hx].
      unfold consumed. cbn [String.length].
      replace (S (String.length msg) - String.length msg) with 1 by lia.
      reflexivity.
    + destruct (search (Class digit) msg) as [[[pre m'] rest]|];
        [|discriminate].
      intros [= <-]. now apply IH.
Qed.

Lemma parseInt_digit (c : ascii) :
  digit c = true ->
  exists z, parseInt (String c EmptyString) = Some z /\ (0 <= z <= 9)%Z.
Proof.
  intros Hc. unfold parseInt. rewrite Hc. cbn [parse_digits]. rewrite Hc.
  eexists. split; [reflexivity|].
  unfold digit in Hc. apply andb_prop in Hc as [H1 H2].
  apply Nat.leb_le in H1, H2. unfold digit_value. lia.
Qed.

(** What the handler of [transform] adds to the trace. *)
Lemma handler_trace (id : string) (err : exn) (w : world) :
  let run := (d <- lift (match_index (exec (Floating (Class digit))
                                        (exn_message err)) 0) ;;
              emit (Warn "Could not parse JSON file" id (parseInt d)) ;;
              ret Null) w in
  trace (snd run) = trace w
  \/ exists z, (0 <= z <= 9)%Z
       /\ trace (snd run)
          = Warn "Could not parse JSON file" id (Some z) :: trace w.
Proof.
  cbv zeta. unfold bind, lift, emit, ret.
  destruct (exec (Floating (Class digit)) (exn_message err)) as [m|] eqn:Hm;
    cbn [match_index snd trace]; [|now left].
  destruct (exec_digit_some _ _ Hm) as (c & -> & Hc).
  destruct (parseInt_digit c Hc) as (z & Hz & Hrange).
  right. exists z. split; [exact Hrange|]. cbn [nth]. now rewrite Hz.
Qed.

(** The trace of a run of [transform] on the catalog: the start, what the
    loop adds, the end when the catalog was parsed, and at most one
    warning, the last effect. *)
Lemma transform_trace (json id : string) (w : world) :
  endsWith "src/pages/components/components.json" id = true ->
  filter E id = true ->
  exists body tail,
    trace (snd (transform E json id w))
    = tail ++ body ++ Stdout "Starting..." :: trace w
    /\ (tail = []
        \/ exists z, (0 <= z <= 9)%Z
             /\ tail = [Warn "Could not parse JSON file" id (Some z)])
    /\ match parse_catalog E json with
       | Ok parsed =>
           exists new,
             body = Done :: new
             /\ forallb loop_event new = true
             /\ remote_calls new <= 3 * length parsed
             /\ progress_reports new = reports_from 0 (length parsed)
       | Throw _ => body = []
       end.
Proof.
  intros Hid Hfilter.
  destruct (parse_catalog E json) as [parsed|e] eqn:Hparse.
  - destruct (transform_parsed json id parsed w Hid Hfilter Hparse)
      as (parsed' & w1 & Hrun & ->).
    destruct (batches_effects E (batch_count (length parsed)) 0 parsed
                (MkWorld (cache w) (Stdout "Starting..." :: trace w)))
      as (new & E1 & F1 & C1 & P1).
    rewrite Hrun in E1. cbn [snd trace] in E1.
    assert (Hbody : match parse_catalog E json with
                    | Ok parsed0 =>
                        exists new0,
                          Done :: new = Done :: new0
                          /\ forallb loop_event new0 = true
                          /\ remote_calls new0 <= 3 * length parsed0
                          /\ progress_reports new0
                             = reports_from 0 (length parsed0)
                    | Throw _ => Done :: new = []
                    end).
    { rewrite Hparse. exists new. split; [reflexivity|].
      split; [exact F1|]. split; [lia|].
      rewrite P1. unfold reports_from.
      now rewrite Nat.sub_0_r, Nat.min_id. }
    rewrite Hparse in Hbody.
    exists (Done :: new).
    destruct (jsonPlugin_transform E (JSON_stringify (Arr parsed')) id)
      as [out|err].
    + exists []. cbn [snd trace app]. rewrite E1.
      split; [reflexivity|]. split; [now left | exact Hbody].
    + destruct (handler_trace id err (MkWorld (cache w1) (Done :: trace w1)))
        as [Ht|(z & Hz & Ht)]; cbv zeta in Ht; cbn [trace] in Ht.
      * exists []. rewrite Ht, E1.
        split; [reflexivity|]. split; [now left | exact Hbody].
      * exists [Warn "Could not parse JSON file" id (Some z)].
        rewrite Ht, E1. split; [reflexivity|].
        split; [right; now exists z | exact Hbody].
  - rewrite (transform_parse_error E json id w e Hid Hfilter Hparse).
    exists [].
    destruct (handler_trace id e
                (MkWorld (cache w) (Stdout "Starting..." :: trace w)))
      as [Ht|(z & Hz & Ht)]; cbv zeta in Ht; cbn [trace] in Ht.
    + exists []. rewrite Ht. split; [reflexivity|]. split; [now left|].
      reflexivity.
    + exists [Warn "Could not parse JSON file" id (Some z)].
      rewrite Ht. split; [reflexivity|].
      split; [right; now exists z | reflexivity].
Qed.

End TransformMore.

Lemma progress_reports_body (new tail : list event) (t : list event) (id : string) :
  (tail = []
   \/ exists z, (0 <= z <= 9)%Z
        /\ tail = [Warn "Could not parse JSON file" id (Some z)]) ->
  progress_reports (tail ++ (Done :: new) ++ Stdout "Starting..." :: t)
  = progress_reports t ++ progress_reports new.
Proof.
  intros Htail. rewrite !progress_reports_app.
  change (Done :: new) with ([Done] ++ new).
  change (Stdout "Starting..." :: t) with ([Stdout "Starting..."] ++ t).
  rewrite !progress_reports_app.
  assert (Ht : progress_reports tail = [])
    by (destruct Htail as [->|(z & _ & ->)]; reflexivity).
  rewrite Ht. cbn [progress_reports omap rev app].
  now rewrite !app_nil_r.
Qed.

(** *** On a terminal and elsewhere *)

Section TerminalFacts.

Variable E : env.

(** On a terminal the loop and [transform] are those of [Plugin]. *)
Lemma batches_on_terminal (fuel : nat) : forall i parsed w,
  Terminal.batches E true fuel i parsed w = batches E fuel i parsed w.
Proof.
  induction fuel as [|fuel IH]; intros i parsed w; [reflexivity|].
  cbn [Terminal.batches batches].
  destruct (i <? batch_count (length parsed))%nat; [|reflexivity].
  unfold bind at 1 3.
  destruct (allSettled _ w) as [[rs|e] w1]; [|reflexivity].
  unfold bind, Terminal.writeProgress, writeProgress, emit.
  apply IH.
Qed.

Lemma transform_on_terminal (json id : string) (w : world) :
  Terminal.transform E true json id w = transform E json id w.
Proof.
  unfold Terminal.transform, transform.
  destruct (negb (endsWith "src/pages/components/components.json" id)
            || negb (filter E id)); [reflexivity|].
  unfold bind at 1 5. unfold emit at 1 3. unfold try_catch.
  unfold bind at 1 4. unfold lift at 1 4.
  destruct (parse_catalog E json) as [parsed|e]; [|reflexivity].
  unfold bind at 1 3. rewrite batches_on_terminal. reflexivity.
Qed.

(** Without a catalog to go through, the terminal does not matter. *)
Lemma transform_without_batch
    (isTTY : bool) (json id : string) (w : world) :
  match parse_catalog E json with
  | Ok parsed => parsed = []
  | Throw _ => True
  end ->
  Terminal.transform E isTTY json id w = transform E json id w.
Proof.
  intros Hnone. unfold Terminal.transform, transform.
  destruct (negb (endsWith "src/pages/components/components.json" id)
            || negb (filter E id)); [reflexivity|].
  unfold bind at 1 5. unfold emit at 1 3. unfold try_catch.
  unfold bind at 1 4. unfold lift at 1 4.
  destruct (parse_catalog E json) as [parsed|e]; [|reflexivity].
  subst parsed. reflexivity.
Qed.

Lemma batch_count_positive (parsed : list JS.value) :
  parsed <> [] -> exists fuel, batch_count (length parsed) = S fuel.
Proof.
  intros Hne. destruct parsed as [|x parsed]; [contradiction|].
  unfold batch_count, chunkSize. cbn [length].
  destruct ((S (length parsed) + (10 - 1)) / 10) as [|fuel] eqn:Hd; [|eauto].
  apply Nat.div_small_iff in Hd; lia.
Qed.

(** Where the output is not a terminal, [transform] on a catalog that
    holds an item runs the lookups of the first batch and rejects: the
    call of [writeProgress] throws, the handler finds no digit in the
    message and throws in its turn. Nothing is reported, the end is not
    printed and no warning is emitted. *)
Lemma transform_off_terminal
    (json id : string) (parsed : list JS.value) (w : world) :
  endsWith "src/pages/components/components.json" id = true ->
  filter E id = true ->
  parse_catalog E json = Ok parsed ->
  parsed <> [] ->
  exists new w1,
    Terminal.transform E false json id w
    = (Throw (TypeError "Cannot read properties of null (reading '0')"), w1)
    /\ trace w1 = new ++ Stdout "Starting..." :: trace w
    /\ forallb lookup_event new = true
    /\ remote_calls new <= 3 * length parsed.
Proof.
  intros Hid Hfilter Hparse Hne.
  destruct (batch_count_positive parsed Hne) as (fuel & Hfuel).
  set (w0 := MkWorld (cache w) (Stdout "Starting..." :: trace w)).
  set (tasks := map (updateItem E)
                  (slice (0 * chunkSize) ((0 + 1) * chunkSize) parsed)).
  destruct (allSettled_settles tasks w0) as (rs & w1 & Hrs & _).
  destruct (adds_allSettled 3 tasks) with (w := w0) as (new & E1 & F1 & C1).
  { intros t Ht. apply in_map_iff in Ht as (item & <- & _).
    apply adds_updateItem. }
  rewrite Hrs in E1. cbn [snd] in E1.
  exists new, w1. split; [|split; [exact E1 | split; [exact F1|]]].
  - unfold Terminal.transform. rewrite Hid, Hfilter. cbn [negb orb].
    unfold bind at 1. unfold emit at 1. unfold try_catch.
    unfold bind at 1. unfold lift at 1. rewrite Hparse.
    unfold bind at 1. rewrite Hfuel. cbn [Terminal.batches].
    replace (0 <? batch_count (length parsed))%nat with true
      by (symmetry; apply Nat.ltb_lt; lia).
    unfold bind at 1. fold tasks. fold w0. rewrite Hrs.
    reflexivity.
  - unfold tasks in C1. rewrite length_map, length_slice_batch in C1.
    unfold chunkSize in C1. lia.
Qed.

End TerminalFacts.

(** X20. On a terminal [transform] reports its progress on a catalog of
    [n] items once for each batch of ten, in order, with the number of
    items done by then and the total: [(10, n)], [(20, n)], and so on up
    to [(n, n)]; nothing at all for an empty catalog; and this whatever
    the lookups and the JSON plugin do. Where the output is not a
    terminal nothing is reported, and on a catalog that holds an item
    [transform] rejects with the [TypeError] of its handler. *)
Theorem transform_progress_reports
    (E : env) (isTTY : bool) (json id : string) (parsed : list JS.value)
    (w : world) :
  endsWith "src/pages/components/components.json" id = true ->
  filter E id = true ->
  parse_catalog E json = Ok parsed ->
  progress_reports (trace (snd (Terminal.transform E isTTY json id w)))
  = progress_reports (trace w)
    ++ (if isTTY then reports_from 0 (length parsed) else [])
  /\ (isTTY = false -> parsed <> [] ->
      fst (Terminal.transform E isTTY json id w)
      = Throw (TypeError "Cannot read properties of null (reading '0')")).
Proof.
  intros Hid Hfilter Hparse.
  assert (Hon : progress_reports (trace (snd (transform E json id w)))
                = progress_reports (trace w) ++ reports_from 0 (length parsed)).
  { destruct (transform_trace E json id w Hid Hfilter)
      as (body & tail & -> & Htail & Hbody).
    rewrite Hparse in Hbody. destruct Hbody as (new & -> & _ & _ & <-).
    now apply (progress_reports_body new tail (trace w) id). }
  destruct isTTY.
  - rewrite transform_on_terminal. split; [exact Hon | discriminate].
  - destruct parsed as [|x parsed].
    + rewrite transform_without_batch by now rewrite Hparse.
      split; [|intros _ Hne; contradiction].
      rewrite Hon. reflexivity.
    + destruct (transform_off_terminal E json id (x :: parsed) w
                  Hid Hfilter Hparse) as (new & w1 & -> & Ht & Hl & _);
        [discriminate|].
      cbn [fst snd]. split; [|reflexivity].
      rewrite Ht, app_nil_r.
      change (Stdout "Starting..." :: trace w)
        with ([Stdout "Starting..."] ++ trace w).
      rewrite !progress_reports_app, (progress_reports_lookups new Hl).
      change (progress_reports [Stdout "Starting..."]) with (@nil (nat * nat)).
      now rewrite !app_nil_r.
Qed.

Lemma transform_progress_reports_witness :
  let E := offline (Ok Sample.catalog) false in
  (endsWith "src/pages/components/components.json" catalog_id = true
   /\ filter E catalog_id = true
   /\ parse_catalog E "[...]" = Ok Sample.catalog)
  /\ progress_reports
       (trace (snd (Terminal.transform E true "[...]" catalog_id nothing_yet)))
     = [(10, 12); (12, 12)]
  /\ progress_reports
       (trace (snd (Terminal.transform E false "[...]" catalog_id nothing_yet)))
     = []
  /\ fst (Terminal.transform E false "[...]" catalog_id nothing_yet)
     = Throw (TypeError "Cannot read properties of null (reading '0')").
Proof.
  intros E.
  assert (H1 : endsWith "src/pages/components/components.json" catalog_id = true)
    by (vm_compute; reflexivity).
  assert (H2 : filter E catalog_id = true) by reflexivity.
  assert (H3 : parse_catalog E "[...]" = Ok Sample.catalog) by reflexivity.
  split; [tauto|].
  destruct (transform_progress_reports E true "[...]" catalog_id
              Sample.catalog nothing_yet H1 H2 H3) as [Hon _].
  destruct (transform_progress_reports E false "[...]" catalog_id
              Sample.catalog nothing_yet H1 H2 H3) as [Hoff Hthrow].
  split; [exact Hon|]. split; [exact Hoff|].
  apply Hthrow; [reflexivity | discriminate].
Defined.

(** X21. A run of [transform], on a terminal or not, sends at most three
    requests for each item of the catalog (one to the registry, one to
    GitHub, one to GitLab), and none when the file is not the catalog or
    is not parsed. *)
Theorem transform_remote_calls
    (E : env) (isTTY : bool) (json id : string) (w : world) :
  exists new,
    trace (snd (Terminal.transform E isTTY json id w)) = new ++ trace w
    /\ remote_calls new
       <= if is_catalog E id
          then match parse_catalog E json with
               | Ok parsed => 3 * length parsed
               | Throw _ => 0
               end
          else 0.
Proof.
  unfold is_catalog.
  destruct (endsWith "src/pages/components/components.json" id) eqn:Hid;
    [destruct (filter E id) eqn:Hfilter|]; cbn [andb].
  - assert (Hon : exists new,
               trace (snd (transform E json id w)) = new ++ trace w
               /\ remote_calls new
                  <= match parse_catalog E json with
                     | Ok parsed => 3 * length parsed
                     | Throw _ => 0
                     end).
    { destruct (transform_trace E json id w Hid Hfilter)
        as (body & tail & -> & Htail & Hbody).
      exists (tail ++ body ++ [Stdout "Starting..."]).
      split; [now rewrite <- !app_assoc|].
      rewrite !remote_calls_app.
      assert (Ht : remote_calls tail = 0)
        by (destruct Htail as [->|(z & _ & ->)]; reflexivity).
      rewrite Ht. change (remote_calls [Stdout "Starting..."]) with 0.
      destruct (parse_catalog E json) as [parsed|e].
      + destruct Hbody as (new & -> & _ & Hc & _).
        change (remote_calls (Done :: new)) with (remote_calls new). lia.
      + subst body. cbn. lia. }
    destruct isTTY; [now rewrite transform_on_terminal|].
    destruct (parse_catalog E json) as [[|x parsed]|e] eqn:Hparse.
    + rewrite transform_without_batch by now rewrite Hparse. exact Hon.
    + destruct (transform_off_terminal E json id (x :: parsed) w
                  Hid Hfilter Hparse) as (new & w1 & -> & Ht & _ & Hc);
        [discriminate|].
      exists (new ++ [Stdout "Starting..."]). cbn [snd].
      split; [now rewrite Ht, <- app_assoc|].
      rewrite remote_calls_app.
      change (remote_calls [Stdout "Starting..."]) with 0. lia.
    + rewrite transform_without_batch by now rewrite Hparse. exact Hon.
  - exists []. unfold Terminal.transform. rewrite Hid, Hfilter.
    cbn. split; [reflexivity | lia].
  - exists []. unfold Terminal.transform. rewrite Hid.
    cbn. split; [reflexivity | lia].
Qed.

(** X22. A warning of [transform] has the message of a parse error and
    the identifier of the file, and its position is a number from 0 to 9:
    the first digit of the message of the exception, not an offset in the
    file. *)
Theorem transform_warns_one_digit
    (E : env) (json id : string) (w : world)
    (message file : string) (position : option Z) :
  In (Warn message file position) (trace (snd (transform E json id w))) ->
  In (Warn message file position) (trace w)
  \/ (message = "Could not parse JSON file" /\ file = id
      /\ exists z, position = Some z /\ (0 <= z <= 9)%Z).
Proof.
  destruct (negb (endsWith "src/pages/components/components.json" id)
            || negb (filter E id)) eqn:Hguard.
  - unfold transform. rewrite Hguard. cbn. now left.
  - apply orb_false_elim in Hguard as [Hid Hfilter].
    apply negb_false_iff in Hid, Hfilter.
    destruct (transform_trace E json id w Hid Hfilter)
      as (body & tail & -> & Htail & Hbody).
    intros Hin. apply in_app_or in Hin as [Hin|Hin].
    + destruct Htail as [->|(z & Hz & ->)]; [contradiction|].
      destruct Hin as [[= <- <- <-]|[]]. right. eauto.
    + apply in_app_or in Hin as [Hin|[Hin|Hin]];
        [|discriminate Hin | now left].
      destruct (parse_catalog E json) as [parsed|e].
      * destruct Hbody as (new & -> & Hloop & _).
        destruct Hin as [Hin|Hin]; [discriminate Hin|].
        rewrite forallb_forall in Hloop. specialize (Hloop _ Hin).
        discriminate Hloop.
      * subst body. contradiction.
Qed.

Lemma transform_warns_one_digit_witness :
  let E := offline
             (Throw (SyntaxError "Unexpected token } in JSON at position 15"))
             false in
  In (Warn "Could not parse JSON file" catalog_id (Some 1%Z))
     (trace (snd (transform E "[}" catalog_id nothing_yet)))
  /\ (In (Warn "Could not parse JSON file" catalog_id (Some 1%Z))
         (trace nothing_yet)
      \/ ("Could not parse JSON file" = "Could not parse JSON file"
          /\ catalog_id = catalog_id
          /\ exists z, Some 1%Z = Some z /\ (0 <= z <= 9)%Z)).
Proof.
  intros E.
  assert (H : In (Warn "Could not parse JSON file" catalog_id (Some 1%Z))
                (trace (snd (transform E "[}" catalog_id nothing_yet))))
    by (vm_compute; left; reflexivity).
  split; [exact H|].
  exact (transform_warns_one_digit E "[}" catalog_id nothing_yet
           "Could not parse JSON file" catalog_id (Some 1%Z) H).
Defined.

(** X23. What the JSON plugin throws is reported as a parse error of the
    catalog. On a terminal, when the catalog is parsed, the loop over the
    batches returns a catalog of the same length; when the JSON plugin
    then throws, on the text of that catalog, an exception whose message
    holds a digit, [transform] has printed the end after the loop, warns
    that it could not parse the JSON file and returns [null]. *)
Theorem transform_plugin_failure
    (E : env) (json id : string) (parsed : list JS.value) (w : world) :
  endsWith "src/pages/components/components.json" id = true ->
  filter E id = true ->
  parse_catalog E json = Ok parsed ->
  exists parsed' w1,
    Terminal.batches E true (batch_count (length parsed)) 0 parsed
      (MkWorld (cache w) (Stdout "Starting..." :: trace w)) = (Ok parsed', w1)
    /\ length parsed' = length parsed
    /\ progress_reports (trace w1)
       = progress_reports (trace w) ++ reports_from 0 (length parsed)
    /\ forall err d rest,
         jsonPlugin_transform E (JSON_stringify (Arr parsed')) id = Throw err ->
         exec (Floating (Class digit)) (exn_message err) = Some (d :: rest) ->
         Terminal.transform E true json id w
         = (Ok Null,
            MkWorld (cache w1)
              (Warn "Could not parse JSON file" id (parseInt d)
                 :: Done :: trace w1)).
Proof.
  intros Hid Hfilter Hparse.
  set (w0 := MkWorld (cache w) (Stdout "Starting..." :: trace w)).
  destruct (batches_length E (batch_count (length parsed)) 0 parsed w0)
    as (parsed' & w1 & Hrun & Hlen).
  destruct (transform_parsed E json id parsed w Hid Hfilter Hparse)
    as (parsed2 & w2 & Hrun2 & Ht).
  fold w0 in Hrun2. rewrite Hrun in Hrun2. injection Hrun2 as <- <-.
  exists parsed', w1. rewrite batches_on_terminal.
  split; [exact Hrun|]. split; [exact Hlen|]. split.
  - destruct (batches_effects E (batch_count (length parsed)) 0 parsed w0)
      as (new & E1 & F1 & _ & P1).
    rewrite Hrun in E1. cbn [snd] in E1. rewrite E1. unfold w0. cbn [trace].
    change (Stdout "Starting..." :: trace w)
      with ([Stdout "Starting..."] ++ trace w).
    rewrite !progress_reports_app, P1. unfold reports_from.
    rewrite Nat.sub_0_r, Nat.min_id.
    cbn [progress_reports omap rev app]. now rewrite app_nil_r.
  - intros err d rest Hplugin Hdigit.
    rewrite transform_on_terminal, Ht, Hplugin.
    unfold bind, lift, emit, ret. rewrite Hdigit. reflexivity.
Qed.

Lemma transform_plugin_failure_witness :
  (endsWith "src/pages/components/components.json" catalog_id = true
   /\ filter plugin_fails catalog_id = true
   /\ parse_catalog plugin_fails "[...]" = Ok Sample.catalog)
  /\ exists parsed' w1,
       Terminal.batches plugin_fails true
         (batch_count (length Sample.catalog)) 0 Sample.catalog
         (MkWorld (cache nothing_yet)
            (Stdout "Starting..." :: trace nothing_yet)) = (Ok parsed', w1)
       /\ length parsed' = length Sample.catalog
       /\ progress_reports (trace w1) = [(10, 12); (12, 12)]
       /\ Terminal.transform plugin_fails true "[...]" catalog_id nothing_yet
          = (Ok Null,
             MkWorld (cache w1)
               (Warn "Could not parse JSON file" catalog_id (Some 4%Z)
                  :: Done :: trace w1)).
Proof.
  assert (H1 : endsWith "src/pages/components/components.json" catalog_id = true)
    by (vm_compute; reflexivity).
  assert (H2 : filter plugin_fails catalog_id = true) by reflexivity.
  assert (H3 : parse_catalog plugin_fails "[...]" = Ok Sample.catalog)
    by reflexivity.
  split; [tauto|].
  destruct (transform_plugin_failure plugin_fails "[...]" catalog_id
              Sample.catalog nothing_yet H1 H2 H3)
    as (parsed' & w1 & Hrun & Hlen & Hprog & Hwarn).
  exists parsed', w1. split; [exact Hrun|]. split; [exact Hlen|].
  split; [exact Hprog|].
  apply (Hwarn (MkExn "Error" "Could not generate code (E42)") "4" []);
    [reflexivity | vm_compute; reflexivity].
Defined.



(** ** From the registry to the hosting platform *)

Section Chain.

Variable E : env.

Lemma In_after_emit {A} (n : nat) (e : event) (c : M A) (w : world) :
  adds lookup_event n c -> In e (trace (snd ((emit e ;; c) w))).
Proof.
  intros Hc. unfold bind, emit.
  destruct (Hc (MkWorld (cache w) (e :: trace w))) as (new & E1 & _).
  rewrite E1. apply in_or_app. right. now left.
Qed.

Lemma In_after_bind {A B} (n : nat) (e : event) (c : M A) (k : A -> M B)
    (w : world) :
  In e (trace (snd (c w))) -> (forall x, adds lookup_event n (k x)) ->
  In e (trace (snd (bind c k w))).
Proof.
  intros Hin Hk. unfold bind. destruct (c w) as [[x|err] w1]; [|exact Hin].
  destruct (Hk x w1) as (new & E1 & _). rewrite E1.
  apply in_or_app. now right.
Qed.

Lemma In_after_try_catch {A} (n : nat) (e : event) (c : M A)
    (h : exn -> M A) (w : world) :
  In e (trace (snd (c w))) -> (forall err, adds lookup_event n (h err)) ->
  In e (trace (snd (try_catch c h w))).
Proof.
  intros Hin Hh. unfold try_catch. destruct (c w) as [[x|err] w1]; [exact Hin|].
  destruct (Hh err w1) as (new & E1 & _). rewrite E1.
  apply in_or_app. now right.
Qed.

(** On the address of a repository that the cache does not answer for, a
    hosting fetcher sends its request for that owner and repository. *)
Lemma fetcher_calls_remote
    (p : platform) (pre owner repo rest : string) (w : world) :
  In pre (prefixes p) ->
  segment owner = true -> segment repo = true -> path_rest rest = true ->
  no_hit E w (normalize (host_key p owner repo)) ->
  In (remote_call p owner repo)
     (trace (snd (fetcher E p
                    (Str (pre +:+ owner +:+ "/" +:+ repo +:+ rest)) w))).
Proof.
  intros Hpre Ho Hr Hrest Hno.
  rewrite (fetcher_on_repository_url E p pre owner repo rest w)
    by assumption.
  pose proof (exec_repository_url p _ owner repo EmptyString
                match p return In match p with
                                  | Github => "https://github.com/"
                                  | Gitlab => "https://gitlab.com/"
                                  end (prefixes p)
                with Github | Gitlab => or_introl eq_refl end
                Ho Hr eq_refl) as Hx.
  rewrite !append_empty in Hx.
  destruct p; cbn [url_pattern host_key remote_call] in *.
  - unfold getGithubInfo. rewrite Hx.
    match goal with
    | |- context [(if ?b then _ else _) w] =>
        replace b with false
          by (destruct owner; [discriminate Ho | reflexivity])
    end.
    unfold bind at 1 2. unfold lift, match_index. cbn [nth].
    rewrite getData_no_hit by exact Hno.
    apply (In_after_bind 0).
    + apply (In_after_try_catch 0); [|intros _; apply adds_ret].
      apply (In_after_emit 0). pure_steps.
    + intros v. apply (adds_bind lookup_event 0 0); [apply adds_cache_set|].
      intros _. apply adds_ret.
  - unfold getGitlabInfo. rewrite Hx.
    match goal with
    | |- context [(if ?b then _ else _) w] =>
        replace b with false
          by (destruct owner; [discriminate Ho | reflexivity])
    end.
    unfold bind at 1 2. unfold lift, match_index. cbn [nth].
    rewrite getData_no_hit by exact Hno.
    apply (In_after_bind 0).
    + apply (In_after_try_catch 0); [|intros _; apply adds_ret].
      apply (In_after_emit 0). pure_steps.
    + intros v. apply (adds_bind lookup_event 0 0); [apply adds_cache_set|].
      intros _. apply adds_ret.
Qed.

End Chain.

(** X25. The repository the registry names is looked up on GitHub. When
    an item names a package and no repository, and the record of the
    registry fetcher has the address of a GitHub repository under [repo],
    an update that returns has asked GitHub for that owner and repository
    (unless the cache answered for it). *)
Theorem updateItem_follows_registry_repository
    (E : env) (o n : props) (w w1 w' : world) (r : JS.value)
    (pre owner repo rest : string) :
  keys_include (keys o) "npm" = true ->
  obj_get o "repo" = None ->
  getNpmInfo E (default Undefined (obj_get o "npm")) w = (Ok (Obj n), w1) ->
  List.NoDup (keys n) ->
  obj_get n "repo" = Some (Str (pre +:+ owner +:+ "/" +:+ repo +:+ rest)) ->
  In pre (prefixes Github) ->
  segment owner = true -> segment repo = true -> path_rest rest = true ->
  no_hit E w1 (normalize (host_key Github owner repo)) ->
  updateItem E (Obj o) w = (Ok r, w') ->
  In (GithubCall owner repo) (trace w').
Proof.
  intros Hnpm Hnone Hn Hnd Hrepo Hpre Ho Hr Hrest Hno Hrun.
  set (u := pre +:+ owner +:+ "/" +:+ repo +:+ rest) in *.
  assert (Hu : String.eqb u "" = false).
  { unfold u. cbn [prefixes In] in Hpre.
    destruct Hpre as [<-|[<-|[<-|[]]]]; reflexivity. }
  destruct (updateItem_steps E o w w' r Hrun)
    as (o1 & o2 & gh & gl & w1' & w2 & Hs1 & Hgh & Hm2 & Hgl & _).
  rewrite Hnpm in Hs1. destruct Hs1 as (info & Hinfo & Hm1).
  rewrite Hn in Hinfo. injection Hinfo as <- <-.
  assert (Hsk : skipped (Str u) = false).
  { cbn [skipped strict_eq_fresh_array is_str orb].
    rewrite String.eqb_sym. exact Hu. }
  destruct (merge_takes_missing o n _ "repo" (Str u) Hm1 Hnd Hnone Hrepo Hsk)
    as (nd1 & [= <-] & H1).
  assert (Ha1 : address o1 = Str u).
  { unfold address, or_else. rewrite H1. cbn [default from_option id truthy].
    now rewrite Hu. }
  rewrite Ha1 in Hgh.
  pose proof (fetcher_calls_remote E Github pre owner repo rest w1
                Hpre Ho Hr Hrest Hno) as Hcall.
  cbn [fetcher remote_call] in Hcall. fold u in Hcall.
  rewrite Hgh in Hcall. cbn [snd] in Hcall.
  destruct (adds_getGitlabInfo E (address o2) w2) as (new & E1 & _).
  rewrite Hgl in E1. cbn [snd] in E1. rewrite E1.
  apply in_or_app. now right.
Qed.

Lemma updateItem_follows_registry_repository_witness :
  let o := [("title", Str "My icons"); ("npm", Str "svelte-icons")] in
  let n := [("description", Str "Icons");
            ("tags", Arr [Str "svelte"; Str "icons"]);
            ("url", Undefined);
            ("repo", Str "https://github.com/foo/svelte-icons");
            ("title", Str "svelte-icons")] in
  let r := Obj [("title", Str "My icons"); ("npm", Str "svelte-icons");
                ("description", Str "Icons"); ("tags", Arr [Str "icons"]);
                ("repo", Str "https://github.com/foo/svelte-icons");
                ("stars", Num 42)] in
  let w1 := snd (getNpmInfo online (Str "svelte-icons") nothing_yet) in
  let w' := snd (updateItem online (Obj o) nothing_yet) in
  (keys_include (keys o) "npm" = true
   /\ obj_get o "repo" = None
   /\ getNpmInfo online (default Undefined (obj_get o "npm")) nothing_yet
      = (Ok (Obj n), w1)
   /\ List.NoDup (keys n)
   /\ obj_get n "repo"
      = Some (Str ("https://github.com/" +:+ "foo" +:+ "/" +:+ "svelte-icons"
                   +:+ ""))
   /\ In "https://github.com/" (prefixes Github)
   /\ segment "foo" = true /\ segment "svelte-icons" = true
   /\ path_rest "" = true
   /\ no_hit online w1 (normalize (host_key Github "foo" "svelte-icons"))
   /\ updateItem online (Obj o) nothing_yet = (Ok r, w'))
  /\ In (GithubCall "foo" "svelte-icons") (trace w').
Proof.
  intros o n r w1 w'.
  assert (H1 : keys_include (keys o) "npm" = true) by reflexivity.
  assert (H2 : obj_get o "repo" = None) by reflexivity.
  assert (H3 : getNpmInfo online (default Undefined (obj_get o "npm"))
                 nothing_yet = (Ok (Obj n), w1)) by (vm_compute; reflexivity).
  assert (H4 : List.NoDup (keys n)).
  { apply (NoDup_ListNoDup (keys n)).
    apply (bool_decide_unpack _). vm_compute. exact I. }
  assert (H5 : obj_get n "repo"
               = Some (Str ("https://github.com/" +:+ "foo" +:+ "/"
                            +:+ "svelte-icons" +:+ ""))) by reflexivity.
  assert (H6 : In "https://github.com/" (prefixes Github))
    by (left; reflexivity).
  assert (H7 : segment "foo" = true) by reflexivity.
  assert (H8 : segment "svelte-icons" = true) by reflexivity.
  assert (H9 : path_rest "" = true) by reflexivity.
  assert (H10 : no_hit online w1
                  (normalize (host_key Github "foo" "svelte-icons")))
    by (right; left; vm_compute; reflexivity).
  assert (H11 : updateItem online (Obj o) nothing_yet = (Ok r, w'))
    by (vm_compute; reflexivity).
  split; [tauto|].
  exact (updateItem_follows_registry_repository online o n nothing_yet w1 w' r
           "https://github.com/" "foo" "svelte-icons" ""
           H1 H2 H3 H4 H5 H6 H7 H8 H9 H10 H11).
Defined.

(** ** Tags that are not texts *)

Lemma filter_not_number (ts : list string) (z : Z) (rest : list JS.value) :
  filter_not (fun tag => method_includes tag "svelte")
    (map Str ts ++ Num z :: rest)
  = Throw (TypeError "tag.includes is not a function").
Proof.
  induction ts as [|t ts IH]; [reflexivity|].
  cbn [map app filter_not method_includes bindR]. now rewrite IH.
Qed.

(** X26. A tag that is a number makes the update of the item reject. For
    an item of ordinary keys that names no source of data and whose tags
    hold a number after some texts, [updateItem] throws the [TypeError] of
    calling [includes] on the number, without any lookup. *)
Theorem updateItem_rejects_number_tag
    (E : env) (o : props) (ts : list string) (z : Z) (rest : list JS.value)
    (w : world) :
  source_free o ->
  obj_get o "tags" = Some (Arr (map Str ts ++ Num z :: rest)) ->
  updateItem E (Obj o) w
  = (Throw (TypeError "tag.includes is not a function"), w).
Proof.
  intros (_ & _ & Hnpm & Hgh & Hgl) Ht. unfold updateItem.
  change (getGithubInfo E) with (fetcher E Github).
  change (getGitlabInfo E) with (fetcher E Gitlab).
  unfold bind at 1. cbn [lift Object_entries own_entries]. rewrite Hnpm.
  unfold bind at 1. unfold ret at 1.
  unfold bind at 1. rewrite repo_or_url_address.
  unfold bind at 1.
  rewrite (fetcher_skips E Github (address o) w Hgh).
  unfold bind at 1. cbn [lift emptyResponse].
  change (merge (Obj o) emptyGithub) with (@Ok JS.value (Obj o)).
  unfold bind at 1. rewrite repo_or_url_address.
  unfold bind at 1.
  rewrite (fetcher_skips E Gitlab (address o) w Hgl).
  unfold bind, lift, ret. cbn [emptyResponse].
  assert (Hm : merge (Obj o) emptyGitlab
               = Throw (TypeError "tag.includes is not a function")).
  { unfold merge, emptyGitlab.
    cbn [Object_entries own_entries bindR forEach].
    repeat (rewrite merge_entry_null; cbn [bindR]).
    unfold merge_entry. cbn [skipped strict_eq_fresh_array is_str orb].
    assert (Hin : keys_include (keys o) "tags" = true)
      by (apply keys_include_get; rewrite Ht; eauto).
    rewrite Hin. cbn [negb String.eqb Ascii.eqb Bool.eqb is_array andb].
    unfold combined_tags. rewrite Ht.
    cbn [default from_option id or_else truthy spread bindR].
    now rewrite app_nil_r, filter_not_number. }
  now rewrite Hm.
Qed.

Lemma updateItem_rejects_number_tag_witness :
  let o := [("title", Str "Icons"); ("tags", Arr [Str "icons"; Num 2])] in
  (source_free o
   /\ obj_get o "tags" = Some (Arr (map Str ["icons"] ++ Num 2 :: [])))
  /\ updateItem online (Obj o) nothing_yet
     = (Throw (TypeError "tag.includes is not a function"), nothing_yet).
Proof.
  intros o.
  assert (H1 : source_free o).
  { split; [|split; [reflexivity | split; [reflexivity | split; reflexivity]]].
    apply (NoDup_ListNoDup (keys o)).
    apply (bool_decide_unpack _). vm_compute. exact I. }
  assert (H2 : obj_get o "tags"
               = Some (Arr (map Str ["icons"] ++ Num 2 :: []))) by reflexivity.
  split; [tauto|].
  exact (updateItem_rejects_number_tag online o ["icons"] 2 [] nothing_yet
           H1 H2).
Defined.
